(** * Whisper-to-Ollama: the transcription pipeline of [src/main.ts]

    A shallow embedding of the plugin class [MyPlugin] and of the part of
    its host (DOM tree, timers, editor, network) that its methods touch.

    - strings are sequences of code units below 256;
    - a JSON value returned by a backend is a [JsVal];
    - the document body is a tree of [Node]s, and so is every subtree that
      has been taken out of the document while a job still holds one of
      its elements; audio elements and progress indicators are JS objects
      and carry an identity ([aid], [pid]);
    - [async] methods are programs of the monad [Async]: a suspension at an
      [await] is a constructor, so a job can be started, left suspended and
      resumed, and the host can act in between;
    - [setInterval]/[setTimeout] register entries in a timer table that the
      passage of time ([elapse]) runs. *)

From stdpp Require Import gmap strings list.
From Stdlib Require Import Ascii String List Arith Lia Bool DecimalString.
Import ListNotations.
Local Open Scope string_scope.
Local Open Scope nat_scope.
Set Warnings "-register-all".

(** ** Strings *)

Module Str.

(** [s.split(sep)] for a one-character separator: never empty. *)
Fixpoint split (sep : ascii) (s : string) : list string :=
  match s with
  | EmptyString => [EmptyString]
  | String c rest =>
      let segs := split sep rest in
      if Ascii.eqb c sep then EmptyString :: segs
      else match segs with
           | [] => [String c EmptyString]
           | seg :: more => String c seg :: more
           end
  end.

(** [arr.pop()]: the last element, [undefined] on an empty array. *)
Definition pop (segs : list string) : option string :=
  List.last (List.map Some segs) None.

(** ['.'.repeat(n)] *)
Fixpoint repeat (s : string) (n : nat) : string :=
  match n with
  | O => EmptyString
  | S k => s ++ repeat s k
  end.

(** White space and line terminators that [String.prototype.trim] strips,
    among the code units below 256. *)
Definition is_white (c : ascii) : bool :=
  let n := nat_of_ascii c in
  (Nat.leb 9 n && Nat.leb n 13) || Nat.eqb n 32 || Nat.eqb n 160.

Fixpoint trimStart (s : string) : string :=
  match s with
  | EmptyString => EmptyString
  | String c rest => if is_white c then trimStart rest else s
  end.

Fixpoint trimEnd (s : string) : string :=
  match s with
  | EmptyString => EmptyString
  | String c rest =>
      match trimEnd rest with
      | EmptyString => if is_white c then EmptyString else String c EmptyString
      | kept => String c kept
      end
  end.

Definition trim (s : string) : string := trimEnd (trimStart s).

Definition newline : ascii := ascii_of_nat 10.

Definition is_empty (s : string) : bool :=
  match s with EmptyString => true | _ => false end.

End Str.

(** ** JavaScript values as the backends' JSON bodies deliver them *)

(** A number is kept as its canonical rendering [String(n)]. *)
Inductive JsVal : Type :=
| JUndefined
| JNull
| JBool (b : bool)
| JNum (shown : string)
| JStr (s : string)
| JArr (items : list JsVal)
| JObj (fields : list (string * JsVal)).

Inductive Exn : Type :=
| NetworkError                 (* a rejected fetch or a broken body stream *)
| SyntaxError                  (* response.json() on a body that is not JSON *)
| TypeError                    (* property access on null/undefined, call of a non-function *)
| Error (message : string).    (* throw new Error(message) *)

Module Js.

(** ToBoolean *)
Definition truthy (v : JsVal) : bool :=
  match v with
  | JUndefined | JNull => false
  | JBool b => b
  | JNum shown => negb (String.eqb shown "0" || String.eqb shown "NaN")
  | JStr s => negb (Str.is_empty s)
  | JArr _ | JObj _ => true
  end.

Fixpoint join (sep : string) (parts : list string) : string :=
  match parts with
  | [] => EmptyString
  | [p] => p
  | p :: rest => p ++ sep ++ join sep rest
  end.

(** ToString, as a template literal [`${v}`] applies it. *)
Fixpoint toString (v : JsVal) : string :=
  match v with
  | JUndefined => "undefined"
  | JNull => "null"
  | JBool true => "true"
  | JBool false => "false"
  | JNum shown => shown
  | JStr s => s
  | JArr items =>
      join ","
        (List.map (fun x => match x with
                            | JUndefined | JNull => EmptyString
                            | _ => toString x
                            end) items)
  | JObj _ => "[object Object]"
  end.

Fixpoint assoc (key : string) (fields : list (string * JsVal)) : JsVal :=
  match fields with
  | [] => JUndefined
  | (k, v) :: rest => if String.eqb k key then v else assoc key rest
  end.

(** [v.key] for the keys this program reads ([text], [message],
    [content]): primitives and arrays have no such property. *)
Definition prop (v : JsVal) (key : string) : Exn + JsVal :=
  match v with
  | JUndefined | JNull => inl TypeError
  | JObj fields => inr (assoc key fields)
  | _ => inr JUndefined
  end.

(** [v?.key] *)
Definition opt_prop (v : JsVal) (key : string) : JsVal :=
  match prop v key with
  | inl _ => JUndefined
  | inr x => x
  end.

(** [a || b] *)
Definition or (a b : JsVal) : JsVal := if truthy a then a else b.

(** [v.trim()]: only strings have the method. *)
Definition trim (v : JsVal) : Exn + string :=
  match v with
  | JStr s => inr (Str.trim s)
  | _ => inl TypeError
  end.

End Js.

(** ** The DOM tree *)

Record HTMLAudioElement : Type := { aid : nat; src : string }.

(** [TranscribeButton a] is a [button.transcribe-button] whose click
    listener (lines 85-87) has captured the audio element [a].
    [ProgressIndicator pid] is a [div.transcription-progress]. *)
Inductive Node : Type :=
| Audio (a : HTMLAudioElement)
| TranscribeButton (listener : HTMLAudioElement)
| ProgressIndicator (pid : nat)
| Elem (kids : list Node).

Module Dom.

Definition is_audio (audio : HTMLAudioElement) (n : Node) : bool :=
  match n with
  | Audio a => Nat.eqb (aid a) (aid audio)
  | _ => false
  end.

Definition is_progress (pid : nat) (n : Node) : bool :=
  match n with
  | ProgressIndicator p => Nat.eqb p pid
  | _ => false
  end.

(** The audio elements of a subtree, the root included, in document order. *)
Fixpoint audios (n : Node) : list HTMLAudioElement :=
  match n with
  | Audio a => [a]
  | Elem kids => flat_map audios kids
  | _ => []
  end.

(** [el.querySelectorAll('audio')]: descendants only. *)
Definition querySelectorAll_audio (el : Node) : list HTMLAudioElement :=
  match el with
  | Elem kids => flat_map audios kids
  | _ => []
  end.

(** Is there a [.transcribe-button] in the subtree, the root included? *)
Fixpoint has_button (n : Node) : bool :=
  match n with
  | TranscribeButton _ => true
  | Elem kids => existsb has_button kids
  | _ => false
  end.

(** Path to the first [.transcribe-button] of a subtree in document
    order, the root included ([[]] is the root). *)
Fixpoint first_button (n : Node) : option (list nat) :=
  match n with
  | TranscribeButton _ => Some []
  | Elem kids =>
      (fix scan_kids (i : nat) (ks : list Node) : option (list nat) :=
         match ks with
         | [] => None
         | k :: rest =>
             match first_button k with
             | Some p => Some (i :: p)
             | None => scan_kids (S i) rest
             end
         end) 0 kids
  | _ => None
  end.

(** [el.querySelector('.transcribe-button')]: descendants only. *)
Definition querySelector_button (el : Node) : option (list nat) :=
  match el with
  | Elem _ => first_button el
  | _ => None
  end.

(** [node.parentElement] for a node given by its path below some element:
    the path without its last step. *)
Definition parentElement_path (p : list nat) : option (list nat) :=
  match p with
  | [] => None
  | _ => Some (removelast p)
  end.

(** The element of the tree [n] that has [audio] among its children,
    [None] when the audio element is not below [n].  This is
    [audio.parentElement] when [n] is the tree that holds [audio]: the tree
    that a scan walks, the document body, or a detached subtree (see
    [parentElement_of]). *)
Fixpoint parentElement (audio : HTMLAudioElement) (n : Node) : option Node :=
  match n with
  | Elem kids =>
      if existsb (is_audio audio) kids then Some n
      else
        (fix in_kids (ks : list Node) : option Node :=
           match ks with
           | [] => None
           | k :: rest =>
               match parentElement audio k with
               | Some p => Some p
               | None => in_kids rest
               end
           end) kids
  | _ => None
  end.

(** Does the progress indicator [pid] occur in the subtree, the root
    included? *)
Fixpoint occurs (pid : nat) (n : Node) : bool :=
  match n with
  | ProgressIndicator p => Nat.eqb p pid
  | Elem kids => existsb (occurs pid) kids
  | _ => false
  end.

(** Is the progress indicator [pid] attached below [el]? *)
Definition attached (pid : nat) (el : Node) : bool :=
  match el with
  | Elem kids => existsb (occurs pid) kids
  | _ => false
  end.

(** The controls bound to [audio]: buttons whose listener captured it. *)
Fixpoint controls (audio : HTMLAudioElement) (n : Node) : nat :=
  match n with
  | TranscribeButton a => if Nat.eqb (aid a) (aid audio) then 1 else 0
  | Elem kids => list_sum (List.map (controls audio) kids)
  | _ => 0
  end.

(** All [.transcribe-button] elements of a subtree. *)
Fixpoint buttons (n : Node) : nat :=
  match n with
  | TranscribeButton _ => 1
  | Elem kids => list_sum (List.map buttons kids)
  | _ => 0
  end.

End Dom.

(** The first result of [f] along a list. *)
Fixpoint first_of {A B : Type} (f : A -> option B) (l : list A) : option B :=
  match l with
  | [] => None
  | x :: rest =>
      match f x with
      | Some y => Some y
      | None => first_of f rest
      end
  end.

(** ** Element watcher (lines 41-92) *)

(** [addTranscribeButton(audio)], lines 74-92, as it acts on the tree that
    holds [audio]. *)
Fixpoint addTranscribeButton (audio : HTMLAudioElement) (n : Node) : Node :=
  match n with
  | Elem kids =>
      if existsb (Dom.is_audio audio) kids then
        (* n is audio.parentElement *)
        match Dom.querySelector_button n with
        | None => Elem (kids ++ [TranscribeButton audio])
        | Some _ => n
        end
      else Elem (List.map (addTranscribeButton audio) kids)
  | _ => n
  end.

(** [addTranscribeButtonToAudio(el)], lines 63-71: the list of audio
    elements is taken once, then each is visited in document order. *)
Definition addTranscribeButtonToAudio (el : Node) : Node :=
  fold_left (fun d audio => addTranscribeButton audio d)
            (Dom.querySelectorAll_audio el) el.

Inductive MutationType : Type := childList | attributes | characterData.

(** A mutation record; its target is given by its path below the body. *)
Record MutationRecord : Type := { mtype : MutationType; target : list nat }.

Fixpoint update_nth (i : nat) (f : Node -> Node) (ks : list Node) : list Node :=
  match ks, i with
  | [], _ => []
  | k :: rest, O => f k :: rest
  | k :: rest, S j => k :: update_nth j f rest
  end.

Fixpoint update_at (path : list nat) (f : Node -> Node) (n : Node) : Node :=
  match path with
  | [] => f n
  | i :: p =>
      match n with
      | Elem kids => Elem (update_nth i (update_at p f) kids)
      | _ => n
      end
  end.

(** The observer callback of [monitorNoteChanges], lines 42-53. *)
Definition observerCallback (mutations : list MutationRecord) (body : Node) : Node :=
  fold_left
    (fun d mutation =>
       match mtype mutation with
       | childList => update_at (target mutation) addTranscribeButtonToAudio d
       | _ => d
       end)
    mutations body.

(** ** Settings (lines 5-17) *)

Record MyPluginSettings : Type := {
  settingWhisperIP : string;
  settingOllamaIP : string;
  settingOllamaToggle : bool;
  settingOllamaPrompt : string
}.

(** ** The editor of the active markdown view

    The host's editor is an external object: the model keeps the cursor it
    reports and records the calls made on it.  [setCursor] stores the
    position it is given (the host's clipping to the document is not
    modelled). *)

Record EditorPosition : Type := { line : nat; ch : nat }.

Inductive EditorCall : Type :=
| ReplaceRange (text : string) (from : EditorPosition)
| SetCursor (pos : EditorPosition).

Record Editor : Type := { cursor : EditorPosition; calls : list EditorCall }.

Definition Editor_replaceRange (text : string) (from : EditorPosition) (ed : Editor) : Editor :=
  {| cursor := cursor ed; calls := calls ed ++ [ReplaceRange text from] |}.

Definition Editor_setCursor (pos : EditorPosition) (ed : Editor) : Editor :=
  {| cursor := pos; calls := calls ed ++ [SetCursor pos] |}.

(** ** What the user is shown and what is logged *)

Inductive HostEvent : Type :=
| Notification (title body : string)      (* new Notification(title, {body}) *)
| Notice (message : string)               (* new Notice(message) *)
| ConsoleError (label : string) (e : Exn). (* console.error(label, e) *)

(** ** Timers

    The three closures the plugin hands to [setInterval]/[setTimeout].
    [dotCount] is the closure's own counter; [finalText] is the variable of
    [transcribeAudio] that the second closure shares with the job, given by
    its cell in [vars]. *)

Inductive Callback : Type :=
| TranscribingDots (pid : nat) (audioFileName : string) (dotCount : nat)  (* lines 110-118 *)
| OllamaDots (pid : nat) (finalText : nat) (dotCount : nat)               (* lines 159-167 *)
| RemoveProgress (pid : nat).                                             (* lines 130, 183 *)

Record Timer : Type := {
  tid : nat;
  delay : nat;          (* milliseconds *)
  remaining : nat;      (* milliseconds until it fires next *)
  repeating : bool;     (* setInterval: true, setTimeout: false *)
  callback : Callback
}.

(** ** The state the plugin runs in *)

Record Sys : Type := {
  settings : MyPluginSettings;            (* this.settings *)
  body : Node;                            (* document.body *)
  detached : list Node;                   (* subtrees out of the document *)
  textContent : gmap nat string;          (* textContent of the progress indicators *)
  next_pid : nat;
  timers : list Timer;                    (* active timers, in registration order *)
  next_tid : nat;
  vars : gmap nat JsVal;                  (* variables shared with closures *)
  next_var : nat;
  activeEditor : option Editor;           (* getActiveViewOfType(MarkdownView)?.editor *)
  log : list HostEvent
}.

Definition set_settings (x : MyPluginSettings) (s : Sys) : Sys :=
  {| settings := x; body := body s; detached := detached s; textContent := textContent s;
     next_pid := next_pid s; timers := timers s; next_tid := next_tid s;
     vars := vars s; next_var := next_var s; activeEditor := activeEditor s;
     log := log s |}.

Definition set_body (x : Node) (s : Sys) : Sys :=
  {| settings := settings s; body := x; detached := detached s; textContent := textContent s;
     next_pid := next_pid s; timers := timers s; next_tid := next_tid s;
     vars := vars s; next_var := next_var s; activeEditor := activeEditor s;
     log := log s |}.

Definition set_detached (x : list Node) (s : Sys) : Sys :=
  {| settings := settings s; body := body s; detached := x; textContent := textContent s;
     next_pid := next_pid s; timers := timers s; next_tid := next_tid s;
     vars := vars s; next_var := next_var s; activeEditor := activeEditor s;
     log := log s |}.

Definition set_textContent (x : gmap nat string) (s : Sys) : Sys :=
  {| settings := settings s; body := body s; detached := detached s; textContent := x;
     next_pid := next_pid s; timers := timers s; next_tid := next_tid s;
     vars := vars s; next_var := next_var s; activeEditor := activeEditor s;
     log := log s |}.

Definition set_next_pid (x : nat) (s : Sys) : Sys :=
  {| settings := settings s; body := body s; detached := detached s; textContent := textContent s;
     next_pid := x; timers := timers s; next_tid := next_tid s;
     vars := vars s; next_var := next_var s; activeEditor := activeEditor s;
     log := log s |}.

Definition set_timers (x : list Timer) (s : Sys) : Sys :=
  {| settings := settings s; body := body s; detached := detached s; textContent := textContent s;
     next_pid := next_pid s; timers := x; next_tid := next_tid s;
     vars := vars s; next_var := next_var s; activeEditor := activeEditor s;
     log := log s |}.

Definition set_next_tid (x : nat) (s : Sys) : Sys :=
  {| settings := settings s; body := body s; detached := detached s; textContent := textContent s;
     next_pid := next_pid s; timers := timers s; next_tid := x;
     vars := vars s; next_var := next_var s; activeEditor := activeEditor s;
     log := log s |}.

Definition set_vars (x : gmap nat JsVal) (s : Sys) : Sys :=
  {| settings := settings s; body := body s; detached := detached s; textContent := textContent s;
     next_pid := next_pid s; timers := timers s; next_tid := next_tid s;
     vars := x; next_var := next_var s; activeEditor := activeEditor s;
     log := log s |}.

Definition set_next_var (x : nat) (s : Sys) : Sys :=
  {| settings := settings s; body := body s; detached := detached s; textContent := textContent s;
     next_pid := next_pid s; timers := timers s; next_tid := next_tid s;
     vars := vars s; next_var := x; activeEditor := activeEditor s;
     log := log s |}.

Definition set_activeEditor (x : option Editor) (s : Sys) : Sys :=
  {| settings := settings s; body := body s; detached := detached s; textContent := textContent s;
     next_pid := next_pid s; timers := timers s; next_tid := next_tid s;
     vars := vars s; next_var := next_var s; activeEditor := x;
     log := log s |}.

Definition set_log (x : list HostEvent) (s : Sys) : Sys :=
  {| settings := settings s; body := body s; detached := detached s; textContent := textContent s;
     next_pid := next_pid s; timers := timers s; next_tid := next_tid s;
     vars := vars s; next_var := next_var s; activeEditor := activeEditor s;
     log := x |}.

Definition emit (e : HostEvent) (s : Sys) : Sys := set_log (log s ++ [e]) s.

(** [progressIndicator.textContent = text] *)
Definition setText (pid : nat) (text : string) (s : Sys) : Sys :=
  set_textContent (<[pid := text]> (textContent s)) s.

Definition readVar (cell : nat) (s : Sys) : JsVal :=
  match vars s !! cell with
  | Some v => v
  | None => JUndefined
  end.

(** *** The mutation observer and the plugin's own DOM changes

    [document.body] is observed with [childList] and [subtree] (lines
    56-59), so a child appended to or removed from an element of the body
    is followed by the observer callback with that element as target.  An
    element that is out of the document is not observed. *)

(** [audio.parentElement], wherever the audio element is: in the
    document, or in a subtree that has been taken out of it.  [None] when
    the audio element has no parent. *)
Definition parentElement_of (audio : HTMLAudioElement) (s : Sys) : option Node :=
  first_of (Dom.parentElement audio) (body s :: detached s).

(** [audio.parentElement?.querySelector('.transcribe-button')], line 242:
    the control that the inserter looks for, by its path below the parent
    of the audio element. *)
Definition anchor (audio : HTMLAudioElement) (s : Sys) : option (list nat) :=
  option_bind _ _ Dom.querySelector_button (parentElement_of audio s).

Fixpoint appendChild_observed (audio : HTMLAudioElement) (child : Node) (n : Node) {struct n} : Node :=
  match n with
  | Elem kids =>
      if existsb (Dom.is_audio audio) kids
      then addTranscribeButtonToAudio (Elem (kids ++ [child]))
      else Elem (List.map (appendChild_observed audio child) kids)
  | _ => n
  end.

(** [progressIndicator.remove()]: the indicator leaves the tree, wherever it
    is. *)
Fixpoint remove_observed (pid : nat) (n : Node) : Node :=
  match n with
  | Elem kids =>
      let kept :=
        (fix without (ks : list Node) : list Node :=
           match ks with
           | [] => []
           | k :: rest =>
               if Dom.is_progress pid k then without rest
               else remove_observed pid k :: without rest
           end) kids in
      if existsb (Dom.is_progress pid) kids
      then addTranscribeButtonToAudio (Elem kept)
      else Elem kept
  | _ => n
  end.

(** [parent.appendChild(child)] for the parent of [audio] in a subtree
    that is out of the document: no observer sees it. *)
Fixpoint appendChild_unobserved (audio : HTMLAudioElement) (child : Node) (n : Node)
    {struct n} : Node :=
  match n with
  | Elem kids =>
      if existsb (Dom.is_audio audio) kids
      then Elem (kids ++ [child])
      else Elem (List.map (appendChild_unobserved audio child) kids)
  | _ => n
  end.

(** The same on the first of the detached subtrees that holds [audio]. *)
Fixpoint appendChild_detached (audio : HTMLAudioElement) (child : Node)
    (trees : list Node) : list Node :=
  match trees with
  | [] => []
  | t :: rest =>
      match Dom.parentElement audio t with
      | Some _ => appendChild_unobserved audio child t :: rest
      | None => t :: appendChild_detached audio child rest
      end
  end.

(** [progressIndicator.remove()] in a subtree that is out of the
    document. *)
Fixpoint remove_unobserved (pid : nat) (n : Node) : Node :=
  match n with
  | Elem kids =>
      Elem ((fix without (ks : list Node) : list Node :=
               match ks with
               | [] => []
               | k :: rest =>
                   if Dom.is_progress pid k then without rest
                   else remove_unobserved pid k :: without rest
               end) kids)
  | _ => n
  end.

(** [audio.parentElement?.appendChild(child)], line 105: in the document
    when the audio element is there, else in the detached subtree that
    holds it, and nowhere when it has no parent. *)
Definition appendChild_toParent (audio : HTMLAudioElement) (child : Node) (s : Sys) : Sys :=
  let in_document := Dom.parentElement audio (body s) in
  set_detached
    (match in_document with
     | Some _ => detached s
     | None => appendChild_detached audio child (detached s)
     end)
    (set_body
       (match in_document with
        | Some _ => appendChild_observed audio child (body s)
        | None => body s
        end) s).

(** [progressIndicator.remove()], lines 130 and 183, wherever the
    indicator is. *)
Definition remove_indicator (pid : nat) (s : Sys) : Sys :=
  set_detached (List.map (remove_unobserved pid) (detached s))
    (set_body (remove_observed pid (body s)) s).

Definition nl : string := String Str.newline EmptyString.

(** Running a timer's closure once. *)
Definition fire (cb : Callback) (s : Sys) : Callback * Sys :=
  match cb with
  | TranscribingDots pid audioFileName dotCount =>
      if Nat.ltb dotCount 5 then
        (TranscribingDots pid audioFileName (dotCount + 1),
         setText pid ("Transcribing: " ++ audioFileName ++ Str.repeat "." (dotCount + 1)) s)
      else
        (TranscribingDots pid audioFileName 0,
         setText pid ("Transcribing: " ++ audioFileName) s)
  | OllamaDots pid finalText dotCount =>
      let shown := Js.toString (readVar finalText s) in
      if Nat.ltb dotCount 5 then
        (OllamaDots pid finalText (dotCount + 1),
         setText pid ("Processing with Ollama" ++ Str.repeat "." (dotCount + 1)
                      ++ " " ++ nl ++ " " ++ nl ++ " Whisper Transcription: " ++ nl
                      ++ " " ++ shown) s)
      else
        (OllamaDots pid finalText 0,
         setText pid ("Processing with Ollama " ++ nl ++ " " ++ nl
                      ++ " Whisper Transcription: " ++ nl ++ " " ++ shown) s)
  | RemoveProgress pid =>
      (cb, remove_indicator pid s)
  end.

(** One millisecond: each timer counts down; those that reach zero fire, in
    registration order; an interval is rearmed, a timeout is dropped. *)
Fixpoint run_timers (ts : list Timer) (s : Sys) : list Timer * Sys :=
  match ts with
  | [] => ([], s)
  | t :: rest =>
      if Nat.leb (remaining t) 1 then
        let (cb, s1) := fire (callback t) s in
        let (rest', s2) := run_timers rest s1 in
        ((if repeating t
          then [{| tid := tid t; delay := delay t; remaining := delay t;
                   repeating := true; callback := cb |}]
          else []) ++ rest', s2)%list
      else
        let (rest', s2) := run_timers rest s in
        ({| tid := tid t; delay := delay t; remaining := remaining t - 1;
            repeating := repeating t; callback := callback t |} :: rest', s2)
  end.

Definition tick (s : Sys) : Sys :=
  let (ts, s') := run_timers (timers s) s in set_timers ts s'.

Definition elapse (ms : nat) (s : Sys) : Sys := Nat.iter ms tick s.

(** *** What the host and the user do while a job is suspended *)

Inductive EnvEvent : Type :=
| Elapse (ms : nat)
| UserMovesCursor (pos : EditorPosition)
| UserSwitchesView (ed : option Editor)
| UserChangesSettings (st : MyPluginSettings)
| HostChangesDom (d : Node) (mutations : list MutationRecord) (out : list Node).
    (* the host rebuilds the DOM: [d] is the new body, for which the
       observer is handed [mutations], and [out] are the subtrees that are
       out of the document from now on *)

Definition env_event (e : EnvEvent) (s : Sys) : Sys :=
  match e with
  | Elapse ms => elapse ms s
  | UserMovesCursor pos =>
      match activeEditor s with
      | Some ed => set_activeEditor (Some {| cursor := pos; calls := calls ed |}) s
      | None => s
      end
  | UserSwitchesView ed => set_activeEditor ed s
  | UserChangesSettings st => set_settings st s
  | HostChangesDom d mutations out =>
      set_detached out (set_body (observerCallback mutations d) s)
  end.

Definition env_events (es : list EnvEvent) (s : Sys) : Sys :=
  fold_left (fun s e => env_event e s) es s.

(** ** The network *)

(** A response body: a stream that breaks, or bytes together with what
    [JSON.parse] makes of them ([None]: not JSON). *)
Inductive ResponseBody : Type :=
| BodyBroken
| BodyBytes (bytes : string) (parsed : option JsVal).

Record Response : Type := { status : nat; payload : ResponseBody }.

(** [response.ok] *)
Definition ok (r : Response) : bool :=
  Nat.leb 200 (status r) && Nat.leb (status r) 299.

Record File : Type := { file_bytes : string; file_name : string; file_type : string }.

(** The one-entry [FormData] of lines 144-145. *)
Record FormData : Type := { field : string; value : File; filename : string }.

(** The chat payload of lines 207-216. *)
Record ChatPayload : Type := { model : string; role : string; content : string; stream : bool }.

Inductive RequestInit : Type :=
| NoInit                          (* fetch(url) *)
| PostForm (formData : FormData)  (* { method: 'POST', body: formData } *)
| PostJson (chat : ChatPayload).  (* { method: 'POST', headers, body: JSON.stringify(payload) } *)

Inductive Settled (A : Type) : Type :=
| Rejected (e : Exn)
| Fulfilled (a : A).
Arguments Rejected {A} e.
Arguments Fulfilled {A} a.

(** ** Asynchronous programs *)

Inductive Async (A : Type) : Type :=
| Ret (a : A)
| Throw (e : Exn)
| Get (k : Sys -> Async A)
| Put (s : Sys) (k : Async A)
| Fetch (url : string) (init : RequestInit) (k : Settled Response -> Async A)
      (* suspended until the network settles the request *)
| Suspend (k : Async A).
      (* suspended on a promise whose outcome is already determined *)
Arguments Ret {A} a.
Arguments Throw {A} e.
Arguments Get {A} k.
Arguments Put {A} s k.
Arguments Fetch {A} url init k.
Arguments Suspend {A} k.

Fixpoint bind {A B : Type} (m : Async A) (f : A -> Async B) : Async B :=
  match m with
  | Ret a => f a
  | Throw e => Throw e
  | Get k => Get (fun s => bind (k s) f)
  | Put s k => Put s (bind k f)
  | Fetch url init k => Fetch url init (fun r => bind (k r) f)
  | Suspend k => Suspend (bind k f)
  end.

Declare Scope async_scope.
Delimit Scope async_scope with async.
Bind Scope async_scope with Async.
Notation "x <- m ;; k" := (bind m (fun x => k))
  (at level 100, m at next level, right associativity) : async_scope.
Notation "m ;; k" := (bind m (fun _ => k))
  (at level 100, right associativity) : async_scope.
Local Open Scope async_scope.

(** [try { body } catch (error) { handler }] *)
Fixpoint try_catch {A : Type} (body : Async A) (handler : Exn -> Async A) : Async A :=
  match body with
  | Ret a => Ret a
  | Throw e => handler e
  | Get k => Get (fun s => try_catch (k s) handler)
  | Put s k => Put s (try_catch k handler)
  | Fetch url init k => Fetch url init (fun r => try_catch (k r) handler)
  | Suspend k => Suspend (try_catch k handler)
  end.

(** [try { body } finally { finalizer }] *)
Fixpoint try_finally {A : Type} (body : Async A) (finalizer : Async unit) : Async A :=
  match body with
  | Ret a => finalizer ;; Ret a
  | Throw e => finalizer ;; Throw e
  | Get k => Get (fun s => try_finally (k s) finalizer)
  | Put s k => Put s (try_finally k finalizer)
  | Fetch url init k => Fetch url init (fun r => try_finally (k r) finalizer)
  | Suspend k => Suspend (try_finally k finalizer)
  end.

Definition gets {A : Type} (f : Sys -> A) : Async A := Get (fun s => Ret (f s)).
Definition modify (f : Sys -> Sys) : Async unit := Get (fun s => Put (f s) (Ret tt)).

Definition lift {A : Type} (r : Exn + A) : Async A :=
  match r with
  | inl e => Throw e
  | inr a => Ret a
  end.

(** [await fetch(url, init)] *)
Definition fetch (url : string) (init : RequestInit) : Async Response :=
  Fetch url init (fun r => match r with
                           | Rejected e => Throw e
                           | Fulfilled response => Ret response
                           end).

(** [await response.json()] *)
Definition json (response : Response) : Async JsVal :=
  Suspend (match payload response with
           | BodyBroken => Throw NetworkError
           | BodyBytes _ None => Throw SyntaxError
           | BodyBytes _ (Some v) => Ret v
           end).

(** [await response.blob()] *)
Definition blob (response : Response) : Async string :=
  Suspend (match payload response with
           | BodyBroken => Throw NetworkError
           | BodyBytes bytes _ => Ret bytes
           end).

(** *** Host calls *)

Definition notification (title body : string) : Async unit :=
  modify (emit (Notification title body)).

Definition notice (message : string) : Async unit :=
  modify (emit (Notice message)).

Definition console_error (label : string) (e : Exn) : Async unit :=
  modify (emit (ConsoleError label e)).

(** [document.createElement('div')] with the class, text and style of
    lines 100-104. *)
Definition createProgressIndicator (text : string) : Async nat :=
  Get (fun s =>
         let pid := next_pid s in
         Put (set_next_pid (S pid) (setText pid text s)) (Ret pid)).

Definition set_textContent_of (pid : nat) (text : string) : Async unit :=
  modify (setText pid text).

Definition appendChild_toParentOf (audio : HTMLAudioElement) (child : Node) : Async unit :=
  modify (appendChild_toParent audio child).

Definition register (cb : Callback) (ms : nat) (rep : bool) : Async nat :=
  Get (fun s =>
         let id := next_tid s in
         Put (set_next_tid (S id)
                (set_timers (timers s ++ [{| tid := id; delay := ms; remaining := ms;
                                             repeating := rep; callback := cb |}]) s))
             (Ret id)).

Definition setInterval (cb : Callback) (ms : nat) : Async nat := register cb ms true.
Definition setTimeout (cb : Callback) (ms : nat) : Async nat := register cb ms false.

Definition clearInterval (id : nat) : Async unit :=
  modify (fun s => set_timers (List.filter (fun t => negb (Nat.eqb (tid t) id)) (timers s)) s).

(** [let x = v] for a variable that a closure captures. *)
Definition newVar (v : JsVal) : Async nat :=
  Get (fun s =>
         let cell := next_var s in
         Put (set_next_var (S cell) (set_vars (<[cell := v]> (vars s)) s)) (Ret cell)).

Definition assign (cell : nat) (v : JsVal) : Async unit :=
  modify (fun s => set_vars (<[cell := v]> (vars s)) s).

Definition read (cell : nat) : Async JsVal := gets (readVar cell).

(** ** Backend clients *)

(** [checkWhisperServerAvailability()], lines 283-293 *)
Definition checkWhisperServerAvailability : Async bool :=
  st <- gets settings ;;
  let serverUrl := "http://" ++ settingWhisperIP st in
  try_catch
    (response <- fetch serverUrl NoInit ;;
     Ret (ok response))
    (fun error =>
       console_error "Whisper server is not available:" error ;;
       Ret false).

(** [fetchTranscription(formData)], lines 188-202 *)
Definition fetchTranscription (formData : FormData) : Async JsVal :=
  st <- gets settings ;;
  let apiUrl := "http://" ++ settingWhisperIP st ++ "/asr?output=json" in
  response <- fetch apiUrl (PostForm formData) ;;
  if negb (ok response) then Throw (Error "Failed to fetch transcription")
  else
    result <- json response ;;
    lift (Js.prop result "text").

(** [processWithOllama(transcription)], lines 205-237 *)
Definition processWithOllama (transcription : JsVal) : Async JsVal :=
  st <- gets settings ;;
  let apiUrl := "http://" ++ settingOllamaIP st ++ "/api/chat" in
  let chat := {| model := "llama3.2"; role := "user";
                 content := settingOllamaPrompt st ++ nl ++ nl ++ Js.toString transcription;
                 stream := false |} in
  try_catch
    (response <- fetch apiUrl (PostJson chat) ;;
     if negb (ok response) then Throw (Error "Failed to process text with Ollama")
     else
       resData <- json response ;;
       message <- lift (Js.prop resData "message") ;;
       Ret (Js.or (Js.opt_prop message "content") (JStr "Ollama returned no text.")))
    (fun error =>
       console_error "Error processing with Ollama:" error ;;
       Ret (JStr "Failed to process text with Ollama.")).

(** ** Result inserter *)

(** [displayTranscriptionResult(audioElement, transcription)], lines
    240-280.  Line 242 reads [audioElement.parentElement] off the element
    that the listener captured: the parent it has at that moment, in the
    document or out of it ([parentElement_of]). *)
Definition displayTranscriptionResult
    (audioElement : HTMLAudioElement) (transcription : JsVal) : Async unit :=
  s <- gets (fun s => s) ;;
  match option_bind _ _ Dom.querySelector_button
          (parentElement_of audioElement s) with
  | None => notice "Transcribe button not found!"
  | Some transcribeButton =>
      match activeEditor s with
      | None => notice "No active editor found!"
      | Some activeEditor_ =>
          match Dom.parentElement_path transcribeButton with
          | None => notice "Could not find the position for the transcription."
          | Some _ =>
              transcription <- lift (Js.trim transcription) ;;
              let cursor_ := cursor activeEditor_ in
              let lineAtButton := line cursor_ + 1 in
              let ed1 := Editor_replaceRange transcription
                           {| line := lineAtButton; ch := 0 |} activeEditor_ in
              let newCursor := {| line := lineAtButton; ch := String.length transcription |} in
              modify (set_activeEditor (Some (Editor_setCursor newCursor ed1)))
          end
      end
  end.

(** ** Transcription orchestrator *)

(** [audioUrl.split('/').pop() || 'Unknown File'] *)
Definition fileNameOf (audioUrl : string) : string :=
  match Str.pop (Str.split "/" audioUrl) with
  | Some seg => if Str.is_empty seg then "Unknown File" else seg
  | None => "Unknown File"
  end.

(** [transcribeAudio(audioElement)], lines 95-185.  The second
    [dotInterval] is declared inside the block of the [if] (line 159); the
    [clearInterval(dotInterval)] of lines 172 and 182 are outside that
    block and name the first. *)
Definition transcribeAudio (audioElement : HTMLAudioElement) : Async unit :=
  let audioUrl := src audioElement in
  let audioFileName := fileNameOf audioUrl in
  progressIndicator <- createProgressIndicator ("Transcribing: " ++ audioFileName) ;;
  appendChild_toParentOf audioElement (ProgressIndicator progressIndicator) ;;
  dotInterval <- setInterval (TranscribingDots progressIndicator audioFileName 0) 500 ;;
  try_finally
    (try_catch
       (serverAvailable <- checkWhisperServerAvailability ;;
        if negb serverAvailable then
          notification "Whisper Server Unavailable"
            "The local Whisper server is not available. Please ensure it is running on port 9000." ;;
          set_textContent_of progressIndicator "Failed: Server Unavailable" ;;
          clearInterval dotInterval ;;
          _ <- setTimeout (RemoveProgress progressIndicator) 3000 ;;
          Ret tt
        else
          notification "Transcription Request" ("Transcribing: " ++ audioFileName) ;;
          response <- fetch audioUrl NoInit ;;
          audioFile <- blob response ;;
          let file := {| file_bytes := audioFile; file_name := audioFileName;
                         file_type := "audio/mp3" |} in
          let formData := {| field := "audio_file"; value := file;
                             filename := audioFileName |} in
          transcription <- fetchTranscription formData ;;
          finalText <- newVar transcription ;;
          clearInterval dotInterval ;;
          st <- gets settings ;;
          (if settingOllamaToggle st then
             dotInterval' <- setInterval (OllamaDots progressIndicator finalText 0) 500 ;;
             processed <- processWithOllama transcription ;;
             assign finalText processed
           else Ret tt) ;;
          clearInterval dotInterval ;;
          shown <- read finalText ;;
          displayTranscriptionResult audioElement shown ;;
          set_textContent_of progressIndicator "Transcription Complete")
       (fun error =>
          console_error "Transcription failed:" error ;;
          set_textContent_of progressIndicator "Failed: Transcription Error"))
    (clearInterval dotInterval ;;
     _ <- setTimeout (RemoveProgress progressIndicator) 3000 ;;
     Ret tt).

(** ** Running a job *)

(** What the network answers to the job's n-th suspension (when it is a
    fetch) and what the host does while the job waits there. *)
Record Oracle : Type := {
  net : nat -> Settled Response;
  meanwhile : nat -> list EnvEvent
}.

Inductive Request : Type :=
| FetchOf (url : string) (init : RequestInit)
| BodyRead.

Record Run (A : Type) : Type := {
  final : Sys;                 (* the state when the promise settles *)
  outcome : Exn + A;           (* rejected with, or fulfilled with *)
  requests : list Request;     (* one per suspension, in order *)
  resumed : list Sys           (* the state at each resumption, in order *)
}.
Arguments final {A} r.
Arguments outcome {A} r.
Arguments requests {A} r.
Arguments resumed {A} r.

Definition suspended_on {A : Type} (q : Request) (s : Sys) (r : Run A) : Run A :=
  {| final := final r; outcome := outcome r;
     requests := q :: requests r; resumed := s :: resumed r |}.

(** The job from its n-th suspension on, every awaited promise settling. *)
Fixpoint exec {A : Type} (p : Async A) (o : Oracle) (n : nat) (s : Sys) : Run A :=
  match p with
  | Ret a => {| final := s; outcome := inr a; requests := []; resumed := [] |}
  | Throw e => {| final := s; outcome := inl e; requests := []; resumed := [] |}
  | Get k => exec (k s) o n s
  | Put s' k => exec k o n s'
  | Fetch url init k =>
      let s1 := env_events (meanwhile o n) s in
      suspended_on (FetchOf url init) s1 (exec (k (net o n)) o (S n) s1)
  | Suspend k =>
      let s1 := env_events (meanwhile o n) s in
      suspended_on BodyRead s1 (exec k o (S n) s1)
  end.

(** The state in which the job last resumed: completion time. *)
Definition completion_time {A : Type} (s0 : Sys) (r : Run A) : Sys :=
  List.last (resumed r) s0.

(** The synchronous part of a program: up to its first suspension. *)
Fixpoint start {A : Type} (p : Async A) (s : Sys) : Sys * Async A :=
  match p with
  | Get k => start (k s) s
  | Put s' k => start k s'
  | _ => (s, p)
  end.

Definition is_suspended {A : Type} (p : Async A) : bool :=
  match p with
  | Fetch _ _ _ | Suspend _ => true
  | _ => false
  end.

(** ** The plugin as the host drives it: jobs in flight *)

Record Job : Type := { element : HTMLAudioElement; rest : Async unit }.

Record Machine : Type := { sys : Sys; jobs : list Job }.

(** A click on a control: its listener (lines 85-87) calls
    [transcribeAudio(audio)], which runs up to its first [await]. *)
Definition click (audio : HTMLAudioElement) (m : Machine) : Machine :=
  let (s', p) := start (transcribeAudio audio) (sys m) in
  {| sys := s'; jobs := jobs m ++ [{| element := audio; rest := p |}] |}.

(** The jobs of [audio] that have started and not settled. *)
Definition active_jobs (audio : HTMLAudioElement) (m : Machine) : nat :=
  List.length
    (List.filter (fun j => Nat.eqb (aid (element j)) (aid audio) && is_suspended (rest j))
       (jobs m)).

(** ** Example states *)

Module Example.

Definition DEFAULT_SETTINGS : MyPluginSettings :=
  {| settingWhisperIP := "192.168.1.10:9000";
     settingOllamaIP := "192.168.1.10:11434";
     settingOllamaToggle := false;
     settingOllamaPrompt := "Below is a transcription of an audio note.: " |}.

Definition with_ollama : MyPluginSettings :=
  {| settingWhisperIP := "192.168.1.10:9000";
     settingOllamaIP := "192.168.1.10:11434";
     settingOllamaToggle := true;
     settingOllamaPrompt := "Below is a transcription of an audio note.: " |}.

Definition memo : HTMLAudioElement := {| aid := 1; src := "app://local/vault/memo.mp3" |}.
Definition talk : HTMLAudioElement := {| aid := 2; src := "app://local/vault/talk.mp3" |}.

(** A note with one audio embed in a span of its own. *)
Definition note : Node := Elem [Elem [Audio memo]].

(** Two audio elements that share their parent. *)
Definition siblings : Node := Elem [Audio memo; Audio talk].

(** A note with two audio embeds, each in a span of its own. *)
Definition two_embeds : Node := Elem [Elem [Audio memo]; Elem [Audio talk]].

Definition editor0 : Editor := {| cursor := {| line := 4; ch := 2 |}; calls := [] |}.

Definition sys0 (st : MyPluginSettings) : Sys :=
  {| settings := st; body := addTranscribeButtonToAudio note; detached := [];
     textContent := ∅; next_pid := 0; timers := []; next_tid := 1;
     vars := ∅; next_var := 0; activeEditor := Some editor0; log := [] |}.

Definition ok_json (v : JsVal) : Settled Response :=
  Fulfilled {| status := 200; payload := BodyBytes EmptyString (Some v) |}.

Definition hello : JsVal := JObj [("text", JStr " hello world ")].

Definition reply (c : string) : JsVal := JObj [("message", JObj [("content", JStr c)])].

(** Both backends answer; the transcript is [" hello world "].  While the
    job waits, 0.7 s pass at every suspension and the user moves the cursor
    to line 9 while the audio is being uploaded. *)
Definition all_up (processed : JsVal) : Oracle :=
  {| net := fun n =>
              match n with
              | 3 => ok_json hello
              | 5 => ok_json processed
              | _ => ok_json JNull
              end;
     meanwhile := fun n =>
                    match n with
                    | 3 => [Elapse 700; UserMovesCursor {| line := 9; ch := 0 |}]
                    | _ => [Elapse 700]
                    end |}.


(** As [all_up], but the user closes the note while the transcript is
    being fetched. *)
Definition note_closed : Oracle :=
  {| net := net (all_up JNull);
     meanwhile := fun n =>
                    match n with
                    | 4 => [UserSwitchesView None]
                    | _ => [Elapse 700]
                    end |}.

(** As [all_up], but the host renders the note anew while the transcript
    is being fetched: the container of the audio element, with the control
    and the progress indicator, is out of the document from then on. *)
Definition container_detached : Oracle :=
  {| net := net (all_up JNull);
     meanwhile := fun n =>
                    match n with
                    | 3 => [HostChangesDom (Elem []) []
                              [Elem [Audio memo; TranscribeButton memo;
                                     ProgressIndicator 0]]]
                    | _ => [Elapse 700]
                    end |}.

(** As [all_up], but the host renders the note anew while the transcript
    is being fetched, and the observer is not told: the audio element is in
    the document without its control. *)
Definition control_lost : Oracle :=
  {| net := net (all_up JNull);
     meanwhile := fun n =>
                    match n with
                    | 3 => [HostChangesDom (Elem [Elem [Audio memo]]) [] []]
                    | _ => [Elapse 700]
                    end |}.

(** A two-line final text, as the default prompt asks the model for. *)
Definition two_lines : string := "# Memo" ++ nl ++ "- call Ann".

(** The transcription backend is unreachable; the host lets 1.2 s pass at
    every suspension. *)
Definition whisper_down : Oracle :=
  {| net := fun _ => Rejected NetworkError; meanwhile := fun _ => [Elapse 1200] |}.

End Example.

(** ** Reading the network's answers *)

Definition at_probe : nat := 0.        (* line 286 *)
Definition at_audio : nat := 1.        (* line 140 *)
Definition at_audio_blob : nat := 2.   (* line 141 *)
Definition at_asr : nat := 3.          (* line 191 *)
Definition at_asr_json : nat := 4.     (* line 200 *)
Definition at_ollama : nat := 5.       (* line 219 *)
Definition at_ollama_json : nat := 6.  (* line 231 *)

(** The availability probe is rejected or answered with a non-success
    status. *)
Definition probe_fails (o : Oracle) : bool :=
  match net o at_probe with
  | Rejected _ => true
  | Fulfilled r => negb (ok r)
  end.

(** The transcript the job obtains when the probe succeeds, the audio bytes
    arrive, and the recognition endpoint answers with a success status and
    a JSON body that has properties. *)
Definition transcript (o : Oracle) : option JsVal :=
  match net o at_probe, net o at_audio, net o at_asr with
  | Fulfilled r0, Fulfilled r1, Fulfilled r3 =>
      match payload r1, payload r3 with
      | BodyBytes _ _, BodyBytes _ (Some result) =>
          if ok r0 && ok r3 then
            match Js.prop result "text" with
            | inr text => Some text
            | inl _ => None
            end
          else None
      | _, _ => None
      end
  | _, _, _ => None
  end.


(** ** The job, piece by piece

    [transcribeAudio] is one function in the source and one definition
    above; the proofs follow it block by block. *)

(** The state right after the click: the synchronous part of
    [transcribeAudio], lines 96-118. *)
Definition launched (a : HTMLAudioElement) (s : Sys) : Sys :=
  fst (start (transcribeAudio a) s).

(** The [catch] and [finally] blocks, lines 177-184. *)
Definition on_error (progressIndicator : nat) (error : Exn) : Async unit :=
  console_error "Transcription failed:" error ;;
  set_textContent_of progressIndicator "Failed: Transcription Error".

Definition at_last (progressIndicator dotInterval : nat) : Async unit :=
  clearInterval dotInterval ;;
  _ <- setTimeout (RemoveProgress progressIndicator) 3000 ;;
  Ret tt.

(** Lines 125-131: the server is not available. *)
Definition unavailable (progressIndicator dotInterval : nat) : Async unit :=
  notification "Whisper Server Unavailable"
    "The local Whisper server is not available. Please ensure it is running on port 9000." ;;
  set_textContent_of progressIndicator "Failed: Server Unavailable" ;;
  clearInterval dotInterval ;;
  _ <- setTimeout (RemoveProgress progressIndicator) 3000 ;;
  Ret tt.

(** Lines 150-176: from the transcript to the completion text. *)
Definition completion
    (audioElement : HTMLAudioElement) (progressIndicator dotInterval : nat)
    (transcription : JsVal) : Async unit :=
  finalText <- newVar transcription ;;
  clearInterval dotInterval ;;
  st <- gets settings ;;
  (if settingOllamaToggle st then
     dotInterval' <- setInterval (OllamaDots progressIndicator finalText 0) 500 ;;
     processed <- processWithOllama transcription ;;
     assign finalText processed
   else Ret tt) ;;
  clearInterval dotInterval ;;
  shown <- read finalText ;;
  displayTranscriptionResult audioElement shown ;;
  set_textContent_of progressIndicator "Transcription Complete".

(** Lines 121-176: the [try] block. *)
Definition try_block
    (audioElement : HTMLAudioElement) (progressIndicator dotInterval : nat) : Async unit :=
  let audioUrl := src audioElement in
  let audioFileName := fileNameOf audioUrl in
  serverAvailable <- checkWhisperServerAvailability ;;
  if negb serverAvailable then unavailable progressIndicator dotInterval
  else
    notification "Transcription Request" ("Transcribing: " ++ audioFileName) ;;
    response <- fetch audioUrl NoInit ;;
    audioFile <- blob response ;;
    let file := {| file_bytes := audioFile; file_name := audioFileName;
                   file_type := "audio/mp3" |} in
    let formData := {| field := "audio_file"; value := file;
                       filename := audioFileName |} in
    transcription <- fetchTranscription formData ;;
    completion audioElement progressIndicator dotInterval transcription.

(** Lines 120-184 *)
Definition guarded
    (audioElement : HTMLAudioElement) (progressIndicator dotInterval : nat) : Async unit :=
  try_finally
    (try_catch (try_block audioElement progressIndicator dotInterval)
       (on_error progressIndicator))
    (at_last progressIndicator dotInterval).

(** Lines 150-184: what is left of the job once the transcript is there. *)
Definition after_transcription
    (audioElement : HTMLAudioElement) (progressIndicator dotInterval : nat)
    (transcription : JsVal) : Async unit :=
  try_finally
    (try_catch (completion audioElement progressIndicator dotInterval transcription)
       (on_error progressIndicator))
    (at_last progressIndicator dotInterval).

(** The state in which the job resumes with the transcript (line 148). *)
Definition transcribed (a : HTMLAudioElement) (o : Oracle) (s : Sys) : Sys :=
  let s0 := env_events (meanwhile o at_probe) (launched a s) in
  let s1 := env_events (meanwhile o at_audio)
              (emit (Notification "Transcription Request"
                       ("Transcribing: " ++ fileNameOf (src a))) s0) in
  let s2 := env_events (meanwhile o at_audio_blob) s1 in
  let s3 := env_events (meanwhile o at_asr) s2 in
  env_events (meanwhile o at_asr_json) s3.

(** ** Composing runs *)

Definition glue {A B : Type} (r1 : Run A) (r2 : Run B) : Run B :=
  {| final := final r2; outcome := outcome r2;
     requests := requests r1 ++ requests r2; resumed := resumed r1 ++ resumed r2 |}.

Definition halted {A B : Type} (r : Run A) (e : Exn) : Run B :=
  {| final := final r; outcome := inl e; requests := requests r; resumed := resumed r |}.




(** ** Reading the timer table *)

(** The progress indicator a closure refers to. *)
Definition cb_pid (cb : Callback) : nat :=
  match cb with
  | TranscribingDots pid _ _ => pid
  | OllamaDots pid _ _ => pid
  | RemoveProgress pid => pid
  end.

(** The closure is one of the two dot animations. *)
Definition is_dots (cb : Callback) : bool :=
  match cb with
  | TranscribingDots _ _ _ | OllamaDots _ _ _ => true
  | RemoveProgress _ => false
  end.

(** The counter of a dot animation. *)
Definition dotCount_of (cb : Callback) : nat :=
  match cb with
  | TranscribingDots _ _ dotCount => dotCount
  | OllamaDots _ _ dotCount => dotCount
  | RemoveProgress _ => 0
  end.

(** No timer of the table refers to the indicator [pid]. *)
Definition untargeted (pid : nat) (ts : list Timer) : Prop :=
  Forall (fun t => cb_pid (callback t) <> pid) ts.

(** A timer one millisecond later, when it does not fire. *)
Definition countdown (t : Timer) : Timer :=
  {| tid := tid t; delay := delay t; remaining := remaining t - 1;
     repeating := repeating t; callback := callback t |}.

(** The timer table keeps the timers other than [id]: [clearInterval(id)]. *)
Definition cleared (id : nat) (ts : list Timer) : list Timer :=
  List.filter (fun t => negb (Nat.eqb (tid t) id)) ts.

(** The timeout of lines 130 and 183, as registered. *)
Definition removal (id pid : nat) : Timer :=
  {| tid := id; delay := 3000; remaining := 3000; repeating := false;
     callback := RemoveProgress pid |}.

(** Of the timers that refer to [pid], only removals are left, and none of
    them fires within the next [k] milliseconds. *)
Definition only_removals_after (pid k : nat) (ts : list Timer) : Prop :=
  Forall (fun t => cb_pid (callback t) = pid ->
                   callback t = RemoveProgress pid /\ k < remaining t) ts.

(** What a timer keeps for as long as it is in the table. *)
Definition signature (t : Timer) : nat * nat * bool * bool * nat :=
  (tid t, cb_pid (callback t), is_dots (callback t), repeating t, delay t).

(** A timer with this signature is in the table. *)
Definition active (sg : nat * nat * bool * bool * nat) (s : Sys) : Prop :=
  exists t, In t (timers s) /\ signature t = sg.

(** What a closure leaves alone. *)
Definition same_but_ui (s s' : Sys) : Prop :=
  settings s' = settings s /\ next_pid s' = next_pid s /\ next_tid s' = next_tid s /\
  vars s' = vars s /\ next_var s' = next_var s /\ activeEditor s' = activeEditor s /\
  log s' = log s.

(** ** Positions in the inserted text *)

(** Follows the spec's words "the end of the inserted text": where a text
    inserted at [from] ends, each line feed in it starting a new line. *)
Definition end_of_inserted_text (from : EditorPosition) (text : string) : EditorPosition :=
  match Str.split Str.newline text with
  | [] | [_] => {| line := line from; ch := ch from + String.length text |}
  | first :: more =>
      {| line := line from + List.length more;
         ch := String.length (List.last more first) |}
  end.

(** The text has no line feed. *)
Definition single_line (text : string) : Prop :=
  List.length (Str.split Str.newline text) = 1.

(** ** The progress label *)

(** The closure's counter after its next run (lines 111-117, 160-166). *)
Definition next_dotCount (dotCount : nat) : nat :=
  if Nat.ltb dotCount 5 then dotCount + 1 else 0.

(** The label a dot animation shows with [k] dots. *)
Definition shown (cb : Callback) (k : nat) (s : Sys) : string :=
  match cb with
  | TranscribingDots _ audioFileName _ =>
      "Transcribing: " ++ audioFileName ++ Str.repeat "." k
  | OllamaDots _ finalText _ =>
      "Processing with Ollama" ++ Str.repeat "." k ++ " " ++ nl ++ " " ++ nl
      ++ " Whisper Transcription: " ++ nl ++ " " ++ Js.toString (readVar finalText s)
  | RemoveProgress _ => EmptyString
  end.

(** The closure with its counter set. *)
Definition with_dotCount (cb : Callback) (k : nat) : Callback :=
  match cb with
  | TranscribingDots pid audioFileName _ => TranscribingDots pid audioFileName k
  | OllamaDots pid finalText _ => OllamaDots pid finalText k
  | RemoveProgress pid => RemoveProgress pid
  end.




(** ** Reading the controls of a tree *)

(** [audio], as identified by [aid], is in the subtree. *)
Definition occurs_audio (audio : HTMLAudioElement) (n : Node) : bool :=
  existsb (fun b => Nat.eqb (aid b) (aid audio)) (Dom.audios n).

(** Some element that has [audio] among its children has no control below
    it: [addTranscribeButton(audio)] would append one. *)
Fixpoint unmarked (audio : HTMLAudioElement) (n : Node) : bool :=
  match n with
  | Elem kids =>
      if existsb (Dom.is_audio audio) kids then negb (existsb Dom.has_button kids)
      else existsb (unmarked audio) kids
  | _ => false
  end.

(** Some element that has [audio] among its children has [other] below
    it. *)
Fixpoint cohabit (audio other : HTMLAudioElement) (n : Node) : bool :=
  match n with
  | Elem kids =>
      if existsb (Dom.is_audio audio) kids then existsb (occurs_audio other) kids
      else existsb (cohabit audio other) kids
  | _ => false
  end.

(** The audio elements of the tree are distinct objects. *)
Definition distinct_audios (n : Node) : Prop :=
  NoDup (List.map aid (Dom.audios n)).

(** Visiting a list of audio elements, one after the other. *)
Definition visit (l : list HTMLAudioElement) (n : Node) : Node :=
  fold_left (fun d audio => addTranscribeButton audio d) l n.


(** The node at a path below [n] ([[]] is [n] itself). *)
Fixpoint node_at (path : list nat) (n : Node) : option Node :=
  match path with
  | [] => Some n
  | i :: p =>
      match n with
      | Elem kids =>
          match nth_error kids i with
          | Some k => node_at p k
          | None => None
          end
      | _ => None
      end
  end.

(** Every audio element below [n] has a control marker in its parent. *)
Definition bound (n : Node) : Prop :=
  forall a, In a (Dom.querySelectorAll_audio n) -> unmarked a n = false.

(** The subtree at [path], if there is one, is [bound]. *)
Definition settled_at (path : list nat) (n : Node) : Prop :=
  match node_at path n with
  | Some el => bound el
  | None => True
  end.

(** [n'] is [n] with controls added: same audio elements, and no marker
    lost. *)
Definition grows (n n' : Node) : Prop :=
  (forall a, Dom.is_audio a n' = Dom.is_audio a n) /\
  (Dom.has_button n = true -> Dom.has_button n' = true) /\
  (forall a, unmarked a n = false -> unmarked a n' = false) /\
  Dom.audios n' = Dom.audios n.

(** ** File names *)

(** The string has no ['/']. *)
Fixpoint slash_free (s : string) : bool :=
  match s with
  | EmptyString => true
  | String c rest => negb (Ascii.eqb c "/") && slash_free rest
  end.

(** ** Settings: defaults, persistence, settings tab (lines 12-17, 295-301, 320-387) *)

Definition dq : string := String (ascii_of_nat 34) EmptyString.

(** [DEFAULT_SETTINGS], lines 12-17 *)
Definition DEFAULT_SETTINGS : MyPluginSettings :=
  {| settingWhisperIP := "192.168.1.10:9000";
     settingOllamaIP := "192.168.1.10:11434";
     settingOllamaToggle := false;
     settingOllamaPrompt :=
       "You are an avid Obsidian user. You can use Heading (#, ##, ###, optinonal), Ordered List, Unordered List, and other markdown syntax as part of your response as best as you see fit to present as much infomration at you can in a concise manner. Below is a transcription of an audio note. Remove any pauses and phrases like "
       ++ dq ++ "hmmm" ++ dq ++ " or " ++ dq ++ "uhhh" ++ dq
       ++ " or similar. Some of the information may make sense as bulleted or numbered lists. Do not restate any part of this prompt or explain how you arrived to your response.: " |}.

(** A settings object as it is at run time: its own properties.  The
    interface [MyPluginSettings] is erased; what [loadData()] delivers
    decides which properties there are and what they hold.  Properties are
    read by key; the place that JavaScript gives to keys that are array
    indices when it enumerates an object is not modelled. *)
Definition object_of (st : MyPluginSettings) : list (string * JsVal) :=
  [("settingWhisperIP", JStr (settingWhisperIP st));
   ("settingOllamaIP", JStr (settingOllamaIP st));
   ("settingOllamaToggle", JBool (settingOllamaToggle st));
   ("settingOllamaPrompt", JStr (settingOllamaPrompt st))].

(** The settings as the methods of the plugin read them: the addresses and
    the prompt through template literals (lines 189, 206, 212, 284), the toggle
    as the condition of an [if] (line 155). *)
Definition effective (fields : list (string * JsVal)) : MyPluginSettings :=
  {| settingWhisperIP := Js.toString (Js.assoc "settingWhisperIP" fields);
     settingOllamaIP := Js.toString (Js.assoc "settingOllamaIP" fields);
     settingOllamaToggle := Js.truthy (Js.assoc "settingOllamaToggle" fields);
     settingOllamaPrompt := Js.toString (Js.assoc "settingOllamaPrompt" fields) |}.

(** [obj[key] = v]: an existing property keeps its place. *)
Fixpoint set_prop (key : string) (v : JsVal) (fields : list (string * JsVal))
  : list (string * JsVal) :=
  match fields with
  | [] => [(key, v)]
  | (k, x) :: rest =>
      if String.eqb k key then (k, v) :: rest else (k, x) :: set_prop key v rest
  end.

(** The properties of an object given by its fields: of two fields with
    the same key the first is the property, as [Js.assoc] reads it.  (What
    [JSON.parse] and property assignment build has distinct keys.) *)
Fixpoint properties (fields : list (string * JsVal)) : list (string * JsVal) :=
  match fields with
  | [] => []
  | (k, v) :: rest =>
      (k, v) :: List.filter (fun kv => negb (String.eqb (fst kv) k)) (properties rest)
  end.

(** The index [i] as a property key. *)
Definition index_key (i : nat) : string :=
  DecimalString.NilZero.string_of_uint (Nat.to_uint i).

Fixpoint indexed {A : Type} (f : A -> JsVal) (i : nat) (l : list A) : list (string * JsVal) :=
  match l with
  | [] => []
  | x :: rest => (index_key i, f x) :: indexed f (S i) rest
  end.

(** The own enumerable properties that [Object.assign] copies from a
    source: none for [null], [undefined], booleans and numbers; the
    characters of a string and the items of an array under their
    indices. *)
Definition own_entries (source : JsVal) : list (string * JsVal) :=
  match source with
  | JObj fields => properties fields
  | JStr s => indexed (fun c => JStr (String c EmptyString)) 0 (list_ascii_of_string s)
  | JArr items => indexed (fun x => x) 0 items
  | _ => []
  end.

(** [Object.assign(target, ...sources)] *)
Definition Object_assign (target : list (string * JsVal)) (sources : list JsVal)
  : list (string * JsVal) :=
  fold_left
    (fun t source => fold_left (fun t kv => set_prop (fst kv) (snd kv) t) (own_entries source) t)
    sources target.

(** [loadSettings()], lines 295-297, given what [loadData()] resolves
    to ([null] when the plugin has no data file). *)
Definition loadSettings (data : JsVal) : list (string * JsVal) :=
  Object_assign [] [JObj (object_of DEFAULT_SETTINGS); data].

(** What [JSON.parse(JSON.stringify(v))] gives: properties that hold
    [undefined] are left out, [undefined] in an array and numbers that are
    not finite become [null]. *)
Fixpoint json_image (v : JsVal) : JsVal :=
  match v with
  | JNum shown =>
      if String.eqb shown "NaN" || String.eqb shown "Infinity" || String.eqb shown "-Infinity"
      then JNull else v
  | JArr items =>
      JArr (List.map (fun x => match x with
                               | JUndefined => JNull
                               | _ => json_image x
                               end) items)
  | JObj fields =>
      JObj (flat_map (fun kv => let '(k, x) := kv in
                                match x with
                                | JUndefined => []
                                | _ => [(k, json_image x)]
                                end) fields)
  | _ => v
  end.

(** The plugin's settings and its data file ([JNull]: no file). *)
Record Store : Type := {
  in_memory : list (string * JsVal);   (* this.settings *)
  data_json : JsVal                    (* what loadData() would resolve to *)
}.

(** [saveSettings()], lines 299-301: [saveData] writes the settings as
    JSON. *)
Definition saveSettings (p : Store) : Store :=
  {| in_memory := in_memory p; data_json := json_image (JObj (in_memory p)) |}.

(** The [onChange] handlers of the settings tab, lines 344-347, 355-358,
    367-370 and 379-382. *)
Inductive Change : Type :=
| WhisperAddress (value : string)
| EnableOllama (value : bool)
| OllamaAddress (value : string)
| OllamaPrompt (value : string).

Definition onChange (c : Change) (p : Store) : Store :=
  let assigned :=
    match c with
    | WhisperAddress value => set_prop "settingWhisperIP" (JStr value) (in_memory p)
    | EnableOllama value => set_prop "settingOllamaToggle" (JBool value) (in_memory p)
    | OllamaAddress value => set_prop "settingOllamaIP" (JStr value) (in_memory p)
    | OllamaPrompt value => set_prop "settingOllamaPrompt" (JStr value) (in_memory p)
    end in
  saveSettings {| in_memory := assigned; data_json := data_json p |}.

(** The same change on the settings as the job reads them. *)
Definition changed (c : Change) (st : MyPluginSettings) : MyPluginSettings :=
  match c with
  | WhisperAddress value =>
      {| settingWhisperIP := value; settingOllamaIP := settingOllamaIP st;
         settingOllamaToggle := settingOllamaToggle st;
         settingOllamaPrompt := settingOllamaPrompt st |}
  | EnableOllama value =>
      {| settingWhisperIP := settingWhisperIP st; settingOllamaIP := settingOllamaIP st;
         settingOllamaToggle := value; settingOllamaPrompt := settingOllamaPrompt st |}
  | OllamaAddress value =>
      {| settingWhisperIP := settingWhisperIP st; settingOllamaIP := value;
         settingOllamaToggle := settingOllamaToggle st;
         settingOllamaPrompt := settingOllamaPrompt st |}
  | OllamaPrompt value =>
      {| settingWhisperIP := settingWhisperIP st; settingOllamaIP := settingOllamaIP st;
         settingOllamaToggle := settingOllamaToggle st; settingOllamaPrompt := value |}
  end.

(** The object has the property [key]. *)
Definition has_property (key : string) (fields : list (string * JsVal)) : bool :=
  existsb (fun kv => String.eqb (fst kv) key) fields.

(** ** The requests of a job *)

(** The state in which the job resumes with the audio bytes (line 141)
    and goes on to call the recognition endpoint. *)
Definition audio_read (a : HTMLAudioElement) (o : Oracle) (s : Sys) : Sys :=
  let s0 := env_events (meanwhile o at_probe) (launched a s) in
  let s1 := env_events (meanwhile o at_audio)
              (emit (Notification "Transcription Request"
                       ("Transcribing: " ++ fileNameOf (src a))) s0) in
  env_events (meanwhile o at_audio_blob) s1.

(** The bytes that [response.blob()] delivers for the audio file. *)
Definition audio_bytes (o : Oracle) : string :=
  match net o at_audio with
  | Fulfilled r =>
      match payload r with
      | BodyBytes bytes _ => bytes
      | BodyBroken => EmptyString
      end
  | Rejected _ => EmptyString
  end.

(** Line 286 *)
Definition probe_request (st : MyPluginSettings) : Request :=
  FetchOf ("http://" ++ settingWhisperIP st) NoInit.

(** Lines 189-194, with the form of lines 142-145 *)
Definition upload_request (audioFileName bytes : string) (st : MyPluginSettings) : Request :=
  FetchOf ("http://" ++ settingWhisperIP st ++ "/asr?output=json")
    (PostForm {| field := "audio_file";
                 value := {| file_bytes := bytes; file_name := audioFileName;
                             file_type := "audio/mp3" |};
                 filename := audioFileName |}).

(** Lines 206-226 *)
Definition chat_request (transcription : JsVal) (st : MyPluginSettings) : Request :=
  FetchOf ("http://" ++ settingOllamaIP st ++ "/api/chat")
    (PostJson {| model := "llama3.2"; role := "user";
                 content := settingOllamaPrompt st ++ nl ++ nl ++ Js.toString transcription;
                 stream := false |}).

(** The requests of a job up to the transcript. *)
Definition transcription_requests (a : HTMLAudioElement) (o : Oracle) (s : Sys)
  : list Request :=
  [probe_request (settings s);
   FetchOf (src a) NoInit;
   BodyRead;
   upload_request (fileNameOf (src a)) (audio_bytes o) (settings (audio_read a o s));
   BodyRead].

Definition to_chat (q : Request) : bool :=
  match q with
  | FetchOf _ (PostJson _) => true
  | _ => false
  end.

Definition to_recognition (q : Request) : bool :=
  match q with
  | FetchOf _ (PostForm _) => true
  | _ => false
  end.

(** The editor after the inserter has put [text] below its cursor (lines
    273-279). *)
Definition inserted (text : string) (ed : Editor) : Editor :=
  {| cursor := {| line := line (cursor ed) + 1; ch := String.length text |};
     calls := calls ed ++
              [ReplaceRange text {| line := line (cursor ed) + 1; ch := 0 |};
               SetCursor {| line := line (cursor ed) + 1; ch := String.length text |}] |}.

(** ** Timers that are about to go *)

(** Of the timers that refer to [pid], only timeouts that remove it are
    left, each just registered. *)
Definition fresh_removals (pid : nat) (ts : list Timer) : Prop :=
  Forall (fun t => cb_pid (callback t) = pid ->
                   callback t = RemoveProgress pid /\ repeating t = false /\
                   remaining t = 3000) ts.

(** Of the timers that refer to [pid], only timeouts that remove it are
    left, each due within [k] milliseconds. *)
Definition expiring (pid k : nat) (ts : list Timer) : Prop :=
  Forall (fun t => cb_pid (callback t) = pid ->
                   callback t = RemoveProgress pid /\ repeating t = false /\
                   1 <= remaining t <= k) ts.

(** The timers that refer to [pid] are those with the identifier [id]. *)
Definition owned_by (pid id : nat) (sg : nat * nat * bool * bool * nat) : Prop :=
  sg.1.1.1.2 = pid -> sg.1.1.1.1 = id.

(** Both backends are up, but the recognition endpoint answers with a
    JSON object that has no [text]. *)
Definition reply_without_text : Oracle :=
  {| net := fun n =>
              match n with
              | 3 => Example.ok_json (JObj [("detail", JStr "no speech found")])
              | _ => Example.ok_json JNull
              end;
     meanwhile := fun _ => [Elapse 700] |}.

(** Every element of the tree is [bound]: a scan of any subtree would
    change nothing. *)
Definition fully_bound (d : Node) : Prop :=
  forall path el, node_at path d = Some el -> bound el.

(** The children that stay when the indicator [pid] is removed. *)
Definition without_indicator (pid : nat) (kids : list Node) : list Node :=
  flat_map (fun k => if Dom.is_progress pid k then [] else [remove_observed pid k]) kids.

(** The error that stops a job whose probe has succeeded and that gets no
    transcript: what the audio request or the recognition request is
    rejected with, a broken body, the error thrown on line 197 for a status
    that is not a success, a body that is not JSON, or the reading of
    [text] from [null]. *)
Definition failure_cause (o : Oracle) : Exn :=
  match net o at_audio with
  | Rejected e => e
  | Fulfilled r1 =>
      match payload r1 with
      | BodyBroken => NetworkError
      | BodyBytes _ _ =>
          match net o at_asr with
          | Rejected e => e
          | Fulfilled r3 =>
              if ok r3 then
                match payload r3 with
                | BodyBroken => NetworkError
                | BodyBytes _ None => SyntaxError
                | BodyBytes _ (Some _) => TypeError
                end
              else Error "Failed to fetch transcription"
          end
      end
  end.

(** The recognition endpoint answers with status 500. *)
Definition recognition_down : Oracle :=
  {| net := fun n =>
              match n with
              | 3 => Fulfilled {| status := 500; payload := BodyBroken |}
              | _ => Example.ok_json JNull
              end;
     meanwhile := fun _ => [Elapse 700] |}.

(** ** White space at the ends of a text *)

Definition starts_white (s : string) : bool :=
  match s with
  | String c _ => Str.is_white c
  | EmptyString => false
  end.

Fixpoint ends_white (s : string) : bool :=
  match s with
  | EmptyString => false
  | String c EmptyString => Str.is_white c
  | String _ rest => ends_white rest
  end.

(** As [Example.all_up], but the user enters another Whisper address in
    the settings tab while the audio file is being fetched. *)
Definition address_changed : Oracle :=
  {| net := net (Example.all_up JNull);
     meanwhile := fun n =>
                    match n with
                    | 1 => [UserChangesSettings
                              (changed (WhisperAddress "10.0.0.5:9000")
                                 Example.with_ollama)]
                    | _ => [Elapse 700]
                    end |}.

(** ** The interval that outlives the job *)

(** The label of the post-processing stage with [k] dots around [text]
    (lines 161 and 165). *)
Definition postprocessing_label (k : nat) (text : string) : string :=
  "Processing with Ollama" ++ Str.repeat "." k ++ " " ++ nl ++ " " ++ nl
  ++ " Whisper Transcription: " ++ nl ++ " " ++ text.

(** Of the timers that refer to [pid], each is a removal or an interval of
    the post-processing animation that reads [cell]. *)
Definition leaked_only (pid cell : nat) (ts : list Timer) : Prop :=
  Forall (fun t => cb_pid (callback t) = pid ->
                   callback t = RemoveProgress pid \/
                   exists k, callback t = OllamaDots pid cell k) ts.

(** The interval [id] of the post-processing animation is in the table
    and fires within [k] milliseconds. *)
Definition leaking (pid cell id k : nat) (ts : list Timer) : Prop :=
  Exists (fun t => tid t = id /\ (exists c, callback t = OllamaDots pid cell c) /\
                   repeating t = true /\ delay t = 500 /\
                   1 <= remaining t <= k) ts.

(** While the job runs: the timers that refer to [pid] are intervals of
    the post-processing animation that read [cell], and the interval [id]
    is one of them. *)
Definition dots_only (pid cell : nat) (ts : list Timer) : Prop :=
  Forall (fun t => cb_pid (callback t) = pid ->
                   exists k, callback t = OllamaDots pid cell k) ts.

Definition leak (pid cell id : nat) (ts : list Timer) : Prop :=
  dots_only pid cell ts /\ leaking pid cell id 500 ts.

(** No timer that removes [pid] fires within the next [k] milliseconds. *)
Definition removals_after (pid k : nat) (ts : list Timer) : Prop :=
  Forall (fun t => callback t = RemoveProgress pid -> k < remaining t) ts.

(** The indicator shows a label of the post-processing stage around the
    current value of [cell]. *)
Definition overwritten (pid cell : nat) (s : Sys) : Prop :=
  exists k, textContent s !! pid =
            Some (postprocessing_label k (Js.toString (readVar cell s))).

(** The texts on which a job is meant to end (lines 128, 175, 179). *)
Definition terminal_texts : list string :=
  ["Transcription Complete"; "Failed: Server Unavailable";
   "Failed: Transcription Error"]%string.
(** * Proofs *)

Local Open Scope list_scope.

(** ** Runs compose *)

Section Composition.

Context {A B : Type}.

Lemma glue_done (s : Sys) (x : Exn + A) (r : Run B) :
  glue {| final := s; outcome := x; requests := []; resumed := [] |} r = r.
Proof. destruct r. reflexivity. Qed.

Lemma exec_bind (m : Async A) (f : A -> Async B) (o : Oracle) (n : nat) (s : Sys) :
  exec (bind m f) o n s =
  match outcome (exec m o n s) with
  | inl e => halted (exec m o n s) e
  | inr a =>
      glue (exec m o n s)
        (exec (f a) o (n + List.length (requests (exec m o n s))) (final (exec m o n s)))
  end.
Proof.
  revert n s.
  induction m as [a|e|k IH|s' k IH|url init k IH|k IH]; intros n s;
    cbn [bind exec outcome final requests resumed suspended_on].
  - rewrite Nat.add_0_r, glue_done. reflexivity.
  - reflexivity.
  - apply IH.
  - apply IH.
  - rewrite IH. destruct (outcome (exec (k (net o n)) o (S n) _)); [reflexivity|].
    cbn [List.length]. rewrite Nat.add_succ_r. reflexivity.
  - rewrite IH. destruct (outcome (exec k o (S n) _)); [reflexivity|].
    cbn [List.length]. rewrite Nat.add_succ_r. reflexivity.
Qed.

End Composition.

Section Handlers.

Context {A : Type}.

Lemma exec_try_catch (body : Async A) (handler : Exn -> Async A)
    (o : Oracle) (n : nat) (s : Sys) :
  exec (try_catch body handler) o n s =
  match outcome (exec body o n s) with
  | inr _ => exec body o n s
  | inl e =>
      glue (exec body o n s)
        (exec (handler e) o (n + List.length (requests (exec body o n s)))
           (final (exec body o n s)))
  end.
Proof.
  revert n s.
  induction body as [a|e|k IH|s' k IH|url init k IH|k IH]; intros n s;
    cbn [try_catch exec outcome final requests resumed suspended_on].
  - reflexivity.
  - rewrite Nat.add_0_r.
    symmetry. apply glue_done.
  - apply IH.
  - apply IH.
  - rewrite IH. destruct (outcome (exec (k (net o n)) o (S n) _)); [|reflexivity].
    cbn [List.length]. rewrite Nat.add_succ_r. reflexivity.
  - rewrite IH. destruct (outcome (exec k o (S n) _)); [|reflexivity].
    cbn [List.length]. rewrite Nat.add_succ_r. reflexivity.
Qed.

Lemma exec_try_finally (body : Async A) (finalizer : Async unit)
    (o : Oracle) (n : nat) (s : Sys) :
  let r := exec body o n s in
  let rf := exec finalizer o (n + List.length (requests r)) (final r) in
  exec (try_finally body finalizer) o n s =
  {| final := final rf;
     outcome := match outcome rf with
                | inl e => inl e
                | inr _ => outcome r
                end;
     requests := requests r ++ requests rf;
     resumed := resumed r ++ resumed rf |}.
Proof.
  revert n s.
  induction body as [a|e|k IH|s' k IH|url init k IH|k IH]; intros n s;
    cbn [try_finally exec outcome final requests resumed suspended_on].
  - rewrite exec_bind, Nat.add_0_r.
    destruct (exec finalizer o n s) as [fs [e|[]] rq rs];
      unfold glue, halted; cbn; rewrite ?app_nil_r; reflexivity.
  - rewrite exec_bind, Nat.add_0_r.
    destruct (exec finalizer o n s) as [fs [e'|[]] rq rs];
      unfold glue, halted; cbn; rewrite ?app_nil_r; reflexivity.
  - apply IH.
  - apply IH.
  - cbv zeta in IH. rewrite IH. cbn [List.length]. rewrite Nat.add_succ_r. reflexivity.
  - cbv zeta in IH. rewrite IH. cbn [List.length]. rewrite Nat.add_succ_r. reflexivity.
Qed.



End Handlers.


(** ** Following a job along its path *)

Ltac run :=
  cbv beta delta [parentElement_of];
  cbn [exec bind try_catch try_finally transcribeAudio guarded try_block
       unavailable on_error at_last checkWhisperServerAvailability
       fetchTranscription processWithOllama displayTranscriptionResult
       createProgressIndicator
       appendChild_toParentOf setInterval setTimeout register clearInterval
       newVar assign read notification notice console_error set_textContent_of
       gets modify lift fetch json blob suspended_on final outcome requests
       resumed negb launched start fst snd List.last
       settings body detached textContent next_pid timers next_tid vars next_var
       activeEditor log set_settings set_body set_detached set_textContent set_next_pid
       set_timers set_next_tid set_vars set_next_var set_activeEditor set_log
       emit setText].

(** Case analysis on whatever the running job is waiting to learn. *)
Ltac branch :=
  match goal with
  | |- context [match net ?o ?n with _ => _ end] => destruct (net o n) eqn:?
  | |- context [negb (ok ?r)] => destruct (ok r) eqn:?
  | |- context [match payload ?r with _ => _ end] =>
      destruct (payload r) as [|? [?|]] eqn:?
  | |- context [lift (Js.prop ?v ?k)] => destruct (Js.prop v k) eqn:?
  | |- context [if settingOllamaToggle ?st then _ else _] =>
      destruct (settingOllamaToggle st) eqn:?
  | |- context [match option_bind ?A ?B ?f ?x with _ => _ end] =>
      lazymatch x with
      | context [@exec] => fail
      | _ => destruct (option_bind A B f x) eqn:?
      end
  | |- context [match activeEditor ?s with _ => _ end] =>
      lazymatch s with
      | context [@exec] => fail
      | _ => destruct (activeEditor s) eqn:?
      end
  | |- context [match Dom.parentElement_path ?p with _ => _ end] =>
      destruct (Dom.parentElement_path p) eqn:?
  | |- context [lift (Js.trim ?v)] => destruct (Js.trim v) eqn:?
  end.

(** Use what the case analysis has learnt. *)
Ltac know :=
  repeat match goal with
         | H : ?x = _ |- _ =>
             lazymatch x with
             | true => fail
             | false => fail
             | _ => progress (rewrite H)
             end
         end.

Lemma last_cons {A : Type} (x d : A) (l : list A) : List.last (x :: l) d = List.last l x.
Proof.
  revert x d. induction l as [|y l IH]; intros x d; [reflexivity|].
  change (List.last (x :: y :: l) d) with (List.last (y :: l) d).
  rewrite (IH y d), (IH y x). reflexivity.
Qed.

Lemma completion_time_suspended_on {A : Type} (q : Request) (s0 s : Sys) (r : Run A) :
  completion_time s0 (suspended_on q s r) = completion_time s r.
Proof. unfold completion_time. cbn [resumed suspended_on]. apply last_cons. Qed.

Lemma transcribeAudio_blocks (a : HTMLAudioElement) (o : Oracle) (s : Sys) :
  exec (transcribeAudio a) o 0 s =
  exec (guarded a (next_pid s) (next_tid s)) o 0 (launched a s).
Proof. reflexivity. Qed.

Lemma exec_transcribed (a : HTMLAudioElement) (o : Oracle) (s : Sys) (t : JsVal) :
  transcript o = Some t ->
  let r := exec (transcribeAudio a) o 0 s in
  let r' := exec (after_transcription a (next_pid s) (next_tid s) t) o 5 (transcribed a o s) in
  final r = final r' /\ outcome r = outcome r' /\
  completion_time s r = completion_time (transcribed a o s) r' /\
  nth_error (resumed r) at_asr_json = Some (transcribed a o s) /\
  skipn 5 (requests r) = requests r'.
Proof.
  unfold transcript, transcribed, at_probe, at_audio, at_asr, at_audio_blob, at_asr_json.
  intros H. cbv zeta. rewrite transcribeAudio_blocks.
  generalize (launched a s). intros s0.
  destruct (net o 0) as [e0|r0] eqn:N0; [discriminate|].
  destruct (net o 1) as [e1|r1] eqn:N1; [discriminate|].
  destruct (net o 3) as [e3|r3] eqn:N3; [discriminate|].
  destruct (payload r1) as [|b1 p1] eqn:P1; [discriminate|].
  destruct (payload r3) as [|b3 [v|]] eqn:P3; [discriminate| |discriminate].
  destruct (ok r0) eqn:K0; [|discriminate].
  destruct (ok r3) eqn:K3; [|discriminate].
  destruct (Js.prop v "text") as [|text] eqn:T; [discriminate|].
  injection H as ->.
  run. rewrite N0. run. rewrite K0. run. rewrite N1. run. rewrite P1. run.
  rewrite N3. run. rewrite K3. run. rewrite P3. run. rewrite T. run.
  rewrite !completion_time_suspended_on. repeat split.
Qed.

(** ** Backend clients *)

(** C9: [checkWhisperServerAvailability] issues one request, to
    [http://<settingWhisperIP>]; its promise is always fulfilled, never
    rejected, and it is fulfilled with [true] exactly when that request was
    answered with a success status. *)
Theorem checkAvailability_true_iff_success (o : Oracle) (n : nat) (s : Sys) :
  let r := exec checkWhisperServerAvailability o n s in
  requests r = [FetchOf ("http://" ++ settingWhisperIP (settings s))%string NoInit] /\
  exists available : bool,
    outcome r = inr available /\
    (available = true <->
     exists response, net o n = Fulfilled response /\ ok response = true).
Proof.
  run. destruct (net o n) as [e|response] eqn:N; run.
  - split; [reflexivity|]. exists false. split; [reflexivity|].
    split; [discriminate|]. intros (response & H & _). discriminate.
  - split; [reflexivity|]. exists (ok response). split; [reflexivity|]. split.
    + intros H. exists response. split; [reflexivity|assumption].
    + intros (response' & H & K). injection H as <-. assumption.
Qed.

(** ** Failure handling of the orchestrator *)









(** ** The DOM tree: induction and the progress indicators *)

Lemma Node_induction (P : Node -> Prop) :
  (forall a, P (Audio a)) ->
  (forall a, P (TranscribeButton a)) ->
  (forall pid, P (ProgressIndicator pid)) ->
  (forall kids, Forall P kids -> P (Elem kids)) ->
  forall n, P n.
Proof.
  intros HA HB HP HE.
  fix IH 1. intros [a|a|pid|kids].
  - apply HA.
  - apply HB.
  - apply HP.
  - apply HE. induction kids as [|k kids IHkids]; constructor.
    + apply IH.
    + exact IHkids.
Qed.

Lemma existsb_map {A B : Type} (f : B -> bool) (g : A -> B) (l : list A) :
  existsb f (List.map g l) = existsb (fun x => f (g x)) l.
Proof. induction l as [|x l IH]; cbn; [reflexivity|]. rewrite IH. reflexivity. Qed.

Lemma existsb_ext_Forall {A : Type} (f g : A -> bool) (l : list A) :
  Forall (fun x => f x = g x) l -> existsb f l = existsb g l.
Proof. induction 1 as [|x l H _ IH]; cbn; [reflexivity|]. rewrite H, IH. reflexivity. Qed.

Lemma occurs_addTranscribeButton (pid : nat) (a : HTMLAudioElement) (n : Node) :
  Dom.occurs pid (addTranscribeButton a n) = Dom.occurs pid n.
Proof.
  induction n as [| | |kids IH] using Node_induction; try reflexivity.
  cbn [addTranscribeButton].
  destruct (existsb (Dom.is_audio a) kids).
  - destruct (Dom.querySelector_button (Elem kids)); [reflexivity|].
    cbn [Dom.occurs]. rewrite existsb_app. cbn. rewrite !orb_false_r. reflexivity.
  - cbn [Dom.occurs]. rewrite existsb_map. apply existsb_ext_Forall, IH.
Qed.

Lemma occurs_scan (pid : nat) (n : Node) :
  Dom.occurs pid (addTranscribeButtonToAudio n) = Dom.occurs pid n.
Proof.
  unfold addTranscribeButtonToAudio.
  generalize (Dom.querySelectorAll_audio n). intros l. revert n.
  induction l as [|a l IH]; intros n; cbn [fold_left]; [reflexivity|].
  rewrite IH. apply occurs_addTranscribeButton.
Qed.

Lemma occurs_remove_observed (pid p : nat) (n : Node) :
  Dom.occurs pid (remove_observed p n) =
  match n with
  | Elem _ => if Nat.eqb p pid then false else Dom.occurs pid n
  | _ => Dom.occurs pid n
  end.
Proof.
  induction n as [| | |kids IH] using Node_induction; try reflexivity.
  cbn [remove_observed].
  set (kept := (fix without (ks : list Node) : list Node :=
                  match ks with
                  | [] => []
                  | k :: rest =>
                      if Dom.is_progress p k then without rest
                      else remove_observed p k :: without rest
                  end) kids).
  assert (K : existsb (Dom.occurs pid) kept =
              if Nat.eqb p pid then false else existsb (Dom.occurs pid) kids).
  { subst kept. induction IH as [|k kids Hk _ IHkids]; cbn.
    - destruct (Nat.eqb p pid); reflexivity.
    - destruct (Dom.is_progress p k) eqn:E.
      + rewrite IHkids. destruct k; try discriminate. cbn in E |- *.
        apply Nat.eqb_eq in E. subst.
        destruct (Nat.eqb p pid) eqn:E'; [reflexivity|]. cbn. reflexivity.
      + cbn [existsb]. rewrite IHkids, Hk.
        destruct k as [| |q|ks]; cbn [Dom.occurs]; cbn in E.
        * destruct (Nat.eqb p pid); reflexivity.
        * destruct (Nat.eqb p pid); reflexivity.
        * destruct (Nat.eqb p pid) eqn:E'; [|reflexivity].
          apply Nat.eqb_eq in E'. subst. rewrite E. reflexivity.
        * destruct (Nat.eqb p pid); reflexivity. }
  destruct (existsb (Dom.is_progress p) kids).
  - rewrite occurs_scan. exact K.
  - exact K.
Qed.

Lemma attached_occurs (pid : nat) (kids : list Node) :
  Dom.attached pid (Elem kids) = Dom.occurs pid (Elem kids).
Proof. reflexivity. Qed.

Lemma scan_Elem (n : Node) :
  (exists kids, n = Elem kids) ->
  exists kids', addTranscribeButtonToAudio n = Elem kids'.
Proof.
  unfold addTranscribeButtonToAudio.
  generalize (Dom.querySelectorAll_audio n). intros l. revert n.
  induction l as [|a l IH]; intros n [kids ->]; cbn [fold_left]; [eauto|].
  apply IH. cbn [addTranscribeButton].
  destruct (existsb (Dom.is_audio a) kids); [|eauto].
  destruct (Dom.querySelector_button (Elem kids)); eauto.
Qed.

Lemma remove_observed_shape (p : nat) (n : Node) :
  match n with
  | Elem _ => exists kids', remove_observed p n = Elem kids'
  | _ => remove_observed p n = n
  end.
Proof.
  destruct n as [| | |kids]; try reflexivity.
  cbn [remove_observed].
  destruct (existsb (Dom.is_progress p) kids); [|eauto].
  apply scan_Elem. eauto.
Qed.

(** Once removed, an indicator is not attached; removing another one does
    not matter. *)
Lemma attached_remove_observed (pid p : nat) (n : Node) :
  Dom.attached pid (remove_observed p n) =
  if Nat.eqb p pid then false else Dom.attached pid n.
Proof.
  pose proof (remove_observed_shape p n) as S.
  pose proof (occurs_remove_observed pid p n) as O.
  destruct n as [| | |kids].
  1-3: rewrite S; cbn; destruct (Nat.eqb p pid); reflexivity.
  destruct S as [kids' E]. rewrite E in *. exact O.
Qed.

(** ** Timers *)

Ltac fire_cases cb :=
  destruct cb as [?pid ?f ?c|?pid ?cell ?c|?p]; unfold fire;
  [ match goal with |- context [Nat.ltb ?c 5] => destruct (Nat.ltb c 5) end
  | match goal with |- context [Nat.ltb ?c 5] => destruct (Nat.ltb c 5) end
  | ]; unfold remove_indicator;
  cbn [fst snd cb_pid is_dots textContent body setText set_textContent set_body
       set_detached].

Lemma fire_cb_pid (cb : Callback) (s : Sys) : cb_pid (fst (fire cb s)) = cb_pid cb.
Proof. fire_cases cb; reflexivity. Qed.

Lemma fire_is_dots (cb : Callback) (s : Sys) : is_dots (fst (fire cb s)) = is_dots cb.
Proof. fire_cases cb; reflexivity. Qed.

Lemma fire_text_other (pid : nat) (cb : Callback) (s : Sys) :
  cb_pid cb <> pid ->
  textContent (snd (fire cb s)) !! pid = textContent s !! pid.
Proof.
  intros H. fire_cases cb; try reflexivity; apply lookup_insert_ne; exact H.
Qed.

Lemma fire_text_remove (pid p : nat) (s : Sys) :
  textContent (snd (fire (RemoveProgress p) s)) !! pid = textContent s !! pid.
Proof. reflexivity. Qed.

Lemma fire_attached (pid : nat) (cb : Callback) (s : Sys) :
  Dom.attached pid (body (snd (fire cb s))) =
  match cb with
  | RemoveProgress p => if Nat.eqb p pid then false else Dom.attached pid (body s)
  | _ => Dom.attached pid (body s)
  end.
Proof.
  fire_cases cb; try reflexivity. apply attached_remove_observed.
Qed.

Lemma fire_detached (pid : nat) (cb : Callback) (s : Sys) :
  Dom.attached pid (body s) = false ->
  Dom.attached pid (body (snd (fire cb s))) = false.
Proof.
  intros H. rewrite fire_attached, H. destruct cb; try reflexivity.
  destruct (Nat.eqb _ _); reflexivity.
Qed.


Lemma same_but_ui_refl (s : Sys) : same_but_ui s s.
Proof. repeat split. Qed.

Lemma same_but_ui_trans (s1 s2 s3 : Sys) :
  same_but_ui s1 s2 -> same_but_ui s2 s3 -> same_but_ui s1 s3.
Proof.
  unfold same_but_ui. intros (?&?&?&?&?&?&?) (?&?&?&?&?&?&?).
  repeat split; congruence.
Qed.

Lemma fire_same_but_ui (cb : Callback) (s : Sys) : same_but_ui s (snd (fire cb s)).
Proof. fire_cases cb; repeat split. Qed.

Lemma run_timers_cons (t : Timer) (rest : list Timer) (s : Sys) :
  run_timers (t :: rest) s =
  if Nat.leb (remaining t) 1 then
    (((if repeating t
       then [{| tid := tid t; delay := delay t; remaining := delay t;
                repeating := true; callback := fst (fire (callback t) s) |}]
       else []) ++ fst (run_timers rest (snd (fire (callback t) s)))),
     snd (run_timers rest (snd (fire (callback t) s))))
  else (countdown t :: fst (run_timers rest s), snd (run_timers rest s)).
Proof.
  cbn [run_timers]. destruct (Nat.leb (remaining t) 1).
  - destruct (fire (callback t) s) as [cb s1]. cbn [fst snd].
    destruct (run_timers rest s1). reflexivity.
  - destruct (run_timers rest s). reflexivity.
Qed.

Lemma run_timers_same_but_ui (ts : list Timer) (s : Sys) :
  same_but_ui s (snd (run_timers ts s)).
Proof.
  revert s. induction ts as [|t ts IH]; intros s; [apply same_but_ui_refl|].
  rewrite run_timers_cons. destruct (Nat.leb (remaining t) 1); cbn [snd].
  - eapply same_but_ui_trans; [apply fire_same_but_ui|apply IH].
  - apply IH.
Qed.

Lemma run_timers_detached (pid : nat) (ts : list Timer) (s : Sys) :
  Dom.attached pid (body s) = false ->
  Dom.attached pid (body (snd (run_timers ts s))) = false.
Proof.
  revert s. induction ts as [|t ts IH]; intros s H; [exact H|].
  rewrite run_timers_cons. destruct (Nat.leb (remaining t) 1); cbn [snd].
  - apply IH, fire_detached, H.
  - apply IH, H.
Qed.

Lemma run_timers_removes (pid : nat) (ts : list Timer) (s : Sys) (t : Timer) :
  In t ts -> remaining t <= 1 -> callback t = RemoveProgress pid ->
  Dom.attached pid (body (snd (run_timers ts s))) = false.
Proof.
  revert s. induction ts as [|t' ts IH]; intros s Hin Hdue Hcb; [destruct Hin|].
  destruct Hin as [->|Hin].
  - rewrite run_timers_cons.
    apply Nat.leb_le in Hdue. rewrite Hdue. cbn [snd].
    apply run_timers_detached. rewrite fire_attached, Hcb, Nat.eqb_refl. reflexivity.
  - rewrite run_timers_cons. destruct (Nat.leb (remaining t') 1); cbn [snd];
      eapply IH; eassumption.
Qed.

Lemma run_timers_countdown (ts : list Timer) (s : Sys) (t : Timer) :
  In t ts -> 1 < remaining t -> In (countdown t) (fst (run_timers ts s)).
Proof.
  revert s. induction ts as [|t' ts IH]; intros s Hin Hlate; [destruct Hin|].
  destruct Hin as [->|Hin].
  - rewrite run_timers_cons.
    destruct (Nat.leb (remaining t) 1) eqn:E; [apply Nat.leb_le in E; lia|].
    left. reflexivity.
  - rewrite run_timers_cons. destruct (Nat.leb (remaining t') 1); cbn [fst].
    + apply in_or_app. right. apply IH; assumption.
    + right. apply IH; assumption.
Qed.

Lemma timers_tick (s : Sys) : timers (tick s) = fst (run_timers (timers s) s).
Proof. unfold tick. destruct (run_timers (timers s) s). reflexivity. Qed.

Lemma body_tick (s : Sys) : body (tick s) = body (snd (run_timers (timers s) s)).
Proof. unfold tick. destruct (run_timers (timers s) s). reflexivity. Qed.

Lemma textContent_tick (s : Sys) :
  textContent (tick s) = textContent (snd (run_timers (timers s) s)).
Proof. unfold tick. destruct (run_timers (timers s) s). reflexivity. Qed.

Lemma tick_same_but_ui (s : Sys) : same_but_ui s (tick s).
Proof.
  pose proof (run_timers_same_but_ui (timers s) s) as H.
  unfold tick. destruct (run_timers (timers s) s). exact H.
Qed.

Lemma elapse_S (k : nat) (s : Sys) : elapse (S k) s = elapse k (tick s).
Proof. apply Nat.iter_succ_r. Qed.

Lemma elapse_add (j k : nat) (s : Sys) : elapse (j + k) s = elapse k (elapse j s).
Proof.
  revert s. induction j as [|j IH]; intros s; [reflexivity|].
  change (S j + k) with (S (j + k)). rewrite !elapse_S. apply IH.
Qed.

Lemma elapse_same_but_ui (k : nat) (s : Sys) : same_but_ui s (elapse k s).
Proof.
  revert s. induction k as [|k IH]; intros s; [apply same_but_ui_refl|].
  rewrite elapse_S. eapply same_but_ui_trans; [apply tick_same_but_ui|apply IH].
Qed.

Lemma elapse_detached (pid : nat) (k : nat) (s : Sys) :
  Dom.attached pid (body s) = false ->
  Dom.attached pid (body (elapse k s)) = false.
Proof.
  revert s. induction k as [|k IH]; intros s H; [exact H|].
  rewrite elapse_S. apply IH. rewrite body_tick. apply run_timers_detached, H.
Qed.

(** A removal that is armed takes the indicator out of the document when
    its delay has passed, and the indicator stays out. *)
Lemma removal_due (pid : nat) (k : nat) (s : Sys) (t : Timer) :
  In t (timers s) -> callback t = RemoveProgress pid ->
  remaining t <= k -> 1 <= k ->
  Dom.attached pid (body (elapse k s)) = false.
Proof.
  revert s t. induction k as [|k IH]; intros s t Hin Hcb Hk H1; [lia|].
  rewrite elapse_S.
  destruct (Nat.le_gt_cases (remaining t) 1) as [Hdue|Hlate].
  - apply elapse_detached. rewrite body_tick.
    eapply run_timers_removes; eassumption.
  - apply (IH (tick s) (countdown t)).
    + rewrite timers_tick. apply run_timers_countdown; assumption.
    + exact Hcb.
    + cbn. lia.
    + lia.
Qed.


Lemma run_timers_signature (Q : nat * nat * bool * bool * nat -> Prop)
    (ts : list Timer) (s : Sys) :
  Forall (fun t => Q (signature t)) ts ->
  Forall (fun t => Q (signature t)) (fst (run_timers ts s)).
Proof.
  revert s. induction ts as [|t ts IH]; intros s H; [constructor|].
  inversion H as [|? ? Ht Hts]; subst.
  rewrite run_timers_cons. destruct (Nat.leb (remaining t) 1); cbn [fst].
  - apply Forall_app. split; [|apply IH, Hts].
    destruct (repeating t) eqn:R; constructor; [|constructor].
    unfold signature in *. cbn [tid callback repeating delay].
    rewrite fire_cb_pid, fire_is_dots, <- R. exact Ht.
  - constructor; [exact Ht|apply IH, Hts].
Qed.

Lemma elapse_signature (Q : nat * nat * bool * bool * nat -> Prop) (k : nat) (s : Sys) :
  Forall (fun t => Q (signature t)) (timers s) ->
  Forall (fun t => Q (signature t)) (timers (elapse k s)).
Proof.
  revert s. induction k as [|k IH]; intros s H; [exact H|].
  rewrite elapse_S. apply IH. rewrite timers_tick. apply run_timers_signature, H.
Qed.

Lemma env_event_signature (Q : nat * nat * bool * bool * nat -> Prop)
    (e : EnvEvent) (s : Sys) :
  Forall (fun t => Q (signature t)) (timers s) ->
  Forall (fun t => Q (signature t)) (timers (env_event e s)).
Proof.
  destruct e; cbn [env_event]; try (intros H; exact H).
  - apply elapse_signature.
  - destruct (activeEditor s); intros H; exact H.
Qed.

Lemma env_events_signature (Q : nat * nat * bool * bool * nat -> Prop)
    (es : list EnvEvent) (s : Sys) :
  Forall (fun t => Q (signature t)) (timers s) ->
  Forall (fun t => Q (signature t)) (timers (env_events es s)).
Proof.
  revert s. induction es as [|e es IH]; intros s H; [exact H|].
  apply IH, env_event_signature, H.
Qed.

Lemma env_event_next_tid (e : EnvEvent) (s : Sys) : next_tid (env_event e s) = next_tid s.
Proof.
  destruct e; cbn [env_event]; try reflexivity.
  - apply (elapse_same_but_ui ms s).
  - destruct (activeEditor s); reflexivity.
Qed.

Lemma env_events_next_tid (es : list EnvEvent) (s : Sys) :
  next_tid (env_events es s) = next_tid s.
Proof.
  revert s. induction es as [|e es IH]; intros s; [reflexivity|].
  cbn [env_events fold_left]. fold (env_events es (env_event e s)).
  rewrite IH. apply env_event_next_tid.
Qed.

(** While only removals that are not yet due refer to an indicator, a
    millisecond changes neither its text nor whether it is attached. *)
Lemma run_timers_quiet (pid k : nat) (ts : list Timer) (s : Sys) :
  only_removals_after pid (S k) ts ->
  only_removals_after pid k (fst (run_timers ts s)) /\
  textContent (snd (run_timers ts s)) !! pid = textContent s !! pid /\
  Dom.attached pid (body (snd (run_timers ts s))) = Dom.attached pid (body s).
Proof.
  unfold only_removals_after.
  revert s. induction ts as [|t ts IH]; intros s H; [repeat split; constructor|].
  inversion H as [|? ? Ht Hts]; subst.
  rewrite run_timers_cons. destruct (Nat.leb (remaining t) 1) eqn:E; cbn [fst snd].
  - apply Nat.leb_le in E.
    assert (N : cb_pid (callback t) <> pid) by (intros T; destruct (Ht T); lia).
    destruct (IH (snd (fire (callback t) s)) Hts) as (F & T & B).
    split; [|split].
    + apply Forall_app. split; [|exact F].
      destruct (repeating t); constructor; [|constructor].
      cbn [callback]. rewrite fire_cb_pid. intros X. contradiction.
    + rewrite T. apply fire_text_other, N.
    + rewrite B, fire_attached. destruct (callback t) as [| |p]; try reflexivity.
      cbn in N. destruct (Nat.eqb p pid) eqn:P; [|reflexivity].
      apply Nat.eqb_eq in P. contradiction.
  - destruct (IH s Hts) as (F & T & B).
    split; [|split; assumption].
    constructor; [|exact F].
    cbn [countdown callback remaining]. intros X. destruct (Ht X). split; [assumption|lia].
Qed.

Lemma elapse_quiet (pid k : nat) (s : Sys) :
  only_removals_after pid k (timers s) ->
  textContent (elapse k s) !! pid = textContent s !! pid /\
  Dom.attached pid (body (elapse k s)) = Dom.attached pid (body s).
Proof.
  revert s. induction k as [|k IH]; intros s H; [split; reflexivity|].
  rewrite elapse_S.
  destruct (run_timers_quiet pid k (timers s) s H) as (F & T & B).
  destruct (IH (tick s)) as (T' & B').
  - rewrite timers_tick. exact F.
  - rewrite T', B', textContent_tick, body_tick. split; assumption.
Qed.

Lemma only_removals_weaken (pid j k : nat) (ts : list Timer) :
  j <= k -> only_removals_after pid k ts -> only_removals_after pid j ts.
Proof.
  intros L. apply Forall_impl. intros t H X. destruct (H X). split; [assumption|lia].
Qed.

(** ** The probe fails *)

Lemma launched_eq (a : HTMLAudioElement) (s : Sys) :
  launched a s =
  set_next_tid (S (next_tid s))
    (set_timers
       (timers s ++
        [{| tid := next_tid s; delay := 500; remaining := 500; repeating := true;
            callback := TranscribingDots (next_pid s) (fileNameOf (src a)) 0 |}])
       (appendChild_toParent a (ProgressIndicator (next_pid s))
          (set_next_pid (S (next_pid s))
             (setText (next_pid s) ("Transcribing: " ++ fileNameOf (src a))%string s)))).
Proof. reflexivity. Qed.

Lemma exec_unavailable (a : HTMLAudioElement) (pid id : nat) (o : Oracle) (s0 : Sys) :
  probe_fails o = true ->
  let r := exec (guarded a pid id) o 0 s0 in
  let c := env_events (meanwhile o at_probe) s0 in
  outcome r = inr tt /\
  requests r = [FetchOf ("http://" ++ settingWhisperIP (settings s0))%string NoInit] /\
  In (Notification "Whisper Server Unavailable"
        "The local Whisper server is not available. Please ensure it is running on port 9000.")
     (log (final r)) /\
  textContent (final r) !! pid = Some "Failed: Server Unavailable"%string /\
  body (final r) = body c /\
  timers (final r) =
    cleared id (cleared id (timers c) ++ [removal (next_tid c) pid])
    ++ [removal (S (next_tid c)) pid].
Proof.
  unfold probe_fails, at_probe. intros H. cbv zeta. run.
  destruct (net o 0) as [e|response] eqn:N; run.
  - repeat split.
    + apply in_or_app. right. left. reflexivity.
    + apply lookup_insert_eq.
  - rewrite H. run. repeat split.
    + apply in_or_app. right. left. reflexivity.
    + apply lookup_insert_eq.
Qed.

Lemma cleared_quiet (pid id k : nat) (ts : list Timer) :
  Forall (fun t => cb_pid (callback t) = pid -> tid t = id) ts ->
  only_removals_after pid k (cleared id ts).
Proof.
  intros H. unfold only_removals_after, cleared.
  apply Forall_forall. intros t Hin X.
  apply filter_In in Hin. destruct Hin as [Hin Hne].
  rewrite Forall_forall in H. apply H in Hin; [|exact X].
  rewrite Hin, Nat.eqb_refl in Hne. discriminate.
Qed.

Lemma cleared_removal_quiet (pid id x k : nat) (ts : list Timer) :
  k < 3000 ->
  only_removals_after pid k ts ->
  only_removals_after pid k (cleared id (ts ++ [removal x pid])).
Proof.
  intros K H. unfold only_removals_after, cleared in *.
  apply Forall_forall. intros t Hin.
  apply filter_In in Hin. destruct Hin as [Hin _].
  apply in_app_or in Hin. destruct Hin as [Hin|[<-|[]]].
  - rewrite Forall_forall in H. apply H, Hin.
  - intros _. split; [reflexivity|exact K].
Qed.

Lemma launched_targets (a : HTMLAudioElement) (s : Sys) :
  untargeted (next_pid s) (timers s) ->
  Forall (fun t => (fun sg => sg.1.1.1.2 = next_pid s -> sg.1.1.1.1 = next_tid s)
                     (signature t))
         (timers (launched a s)).
Proof.
  intros H. rewrite launched_eq. cbn [timers set_next_tid set_timers].
  apply Forall_app. split.
  - eapply Forall_impl; [|exact H]. intros t N X. cbn in X. contradiction.
  - constructor; [|constructor]. intros _. reflexivity.
Qed.

(** C4: when the availability probe fails, the job's promise is fulfilled,
    the probe is the only request the job has made (the recognition
    endpoint is not called), the user is notified, and the indicator shows
    the failure text; no timer changes that text or detaches the indicator
    for 3000 ms, and from 3000 ms on the indicator is out of the
    document. *)
Theorem unavailable_backend_fails_the_job
    (a : HTMLAudioElement) (o : Oracle) (s : Sys) :
  probe_fails o = true ->
  untargeted (next_pid s) (timers s) ->
  let r := exec (transcribeAudio a) o 0 s in
  let pid := next_pid s in
  outcome r = inr tt /\
  requests r = [FetchOf ("http://" ++ settingWhisperIP (settings s))%string NoInit] /\
  In (Notification "Whisper Server Unavailable"
        "The local Whisper server is not available. Please ensure it is running on port 9000.")
     (log (final r)) /\
  textContent (final r) !! pid = Some "Failed: Server Unavailable"%string /\
  (forall ms, ms < 3000 ->
     textContent (elapse ms (final r)) !! pid = Some "Failed: Server Unavailable"%string /\
     Dom.attached pid (body (elapse ms (final r))) = Dom.attached pid (body (final r))) /\
  (forall ms, 3000 <= ms -> Dom.attached pid (body (elapse ms (final r))) = false).
Proof.
  intros Hp Hfresh. cbv zeta. rewrite transcribeAudio_blocks.
  destruct (exec_unavailable a (next_pid s) (next_tid s) o (launched a s) Hp)
    as (O & R & L & T & _ & Tm).
  set (r := exec _ _ _ _) in *. set (c := env_events _ _) in *.
  refine (conj O (conj R (conj L (conj T (conj _ _))))).
  - intros ms Hms.
    assert (Q : only_removals_after (next_pid s) ms (timers (final r))).
    { apply only_removals_weaken with (k := 2999); [lia|].
      rewrite Tm. apply Forall_app. split.
      - apply cleared_removal_quiet; [lia|]. apply cleared_quiet.
        apply (env_events_signature
                 (fun sg => sg.1.1.1.2 = next_pid s -> sg.1.1.1.1 = next_tid s)).
        apply launched_targets, Hfresh.
      - constructor; [|constructor]. intros _. split; [reflexivity|cbn; lia]. }
    destruct (elapse_quiet _ _ _ Q) as [Tx Bx].
    split; [rewrite Tx; exact T|exact Bx].
  - intros ms Hms.
    apply removal_due with (t := removal (S (next_tid c)) (next_pid s)).
    + rewrite Tm. apply in_or_app. right. left. reflexivity.
    + reflexivity.
    + cbn. exact Hms.
    + lia.
Qed.

Lemma unavailable_backend_fails_the_job_witness :
  let r := exec (transcribeAudio Example.memo) Example.whisper_down 0
             (Example.sys0 Example.DEFAULT_SETTINGS) in
  outcome r = inr tt /\
  requests r = [FetchOf "http://192.168.1.10:9000" NoInit] /\
  textContent (final r) !! 0 = Some "Failed: Server Unavailable"%string /\
  Dom.attached 0 (body (elapse 2999 (final r))) = true /\
  Dom.attached 0 (body (elapse 3000 (final r))) = false.
Proof.
  destruct (unavailable_backend_fails_the_job Example.memo Example.whisper_down
              (Example.sys0 Example.DEFAULT_SETTINGS))
    as (O & R & _ & T & Q & D).
  - reflexivity.
  - constructor.
  - refine (conj O (conj R (conj T (conj _ (D 3000 _))))).
    + destruct (Q 2999) as [_ B]; [lia|]. refine (eq_trans B _). vm_compute. reflexivity.
    + lia.
Defined.

(** ** Completion *)

Lemma first_button_below (kids : list Node) (p : list nat) :
  Dom.first_button (Elem kids) = Some p -> p <> [].
Proof.
  cbn [Dom.first_button]. generalize 0.
  induction kids as [|k kids IH]; intros i; [discriminate|].
  destruct (Dom.first_button k); [intros [= <-]; discriminate|apply IH].
Qed.

(** The element that [querySelector] finds below another has a parent. *)
Lemma found_button_has_parent (x : option Node) (p : list nat) :
  option_bind _ _ Dom.querySelector_button x = Some p ->
  Dom.parentElement_path p = None -> False.
Proof.
  destruct x as [[| | |kids]|]; try discriminate.
  cbn [option_bind Dom.querySelector_button]. intros H.
  apply first_button_below in H. destruct p; [contradiction|discriminate].
Qed.


(** The state in which the job resumes from its n-th suspension, whatever
    it is. *)
Ltac forget_env n :=
  match goal with
  | |- context [env_events (meanwhile ?o n) ?x] =>
      generalize (env_events (meanwhile o n) x); intro
  end.

(** Keep what is to be shown of a run aside while the run is followed. *)
Ltac focus_run :=
  match goal with
  | |- context [exec ?p ?o ?n ?s] =>
      pattern (exec p o n s);
      match goal with
      | |- ?P _ => let Q := fresh "Q" in set (Q := P)
      end
  end.

Ltac conclude :=
  match goal with
  | Q := _ |- _ => subst Q; cbv beta; run
  end.

Ltac run_all :=
  unfold after_transcription, completion; run.


(** When the job completes and no markdown view is active, or no control
    is found below the parent of the audio element, a notice is shown, no
    call is made on any editor, the promise is fulfilled and line 175 sets
    the completion text. *)
Lemma missing_target_run
    (a : HTMLAudioElement) (o : Oracle) (s : Sys) (t : JsVal) :
  transcript o = Some t ->
  let r := exec (transcribeAudio a) o 0 s in
  let c := completion_time s r in
  activeEditor c = None \/
  anchor a c = None ->
  outcome r = inr tt /\
  textContent (final r) !! next_pid s = Some "Transcription Complete"%string /\
  activeEditor (final r) = activeEditor c /\
  exists earlier message, log (final r) = log c ++ earlier ++ [Notice message].
Proof.
  intros T. cbv zeta.
  destruct (exec_transcribed a o s t T) as (-> & -> & -> & _).
  generalize (transcribed a o s). intros s4.
  unfold anchor, parentElement_of, completion_time. focus_run.
  run_all. branch; run.
  1: forget_env 5; branch; run.
  2: branch; run.
  2: forget_env 6; branch; run.
  4: branch; run.
  all: repeat (branch; run);
    try (exfalso; eapply found_button_has_parent; eassumption).
  all: conclude; know.
  all: intros [H|H]; try discriminate H.
  all: refine (conj eq_refl (conj _ (conj eq_refl _))); [apply lookup_insert_eq|].
  all: try (eexists [], _; reflexivity).
  all: try (eexists [_], _; rewrite <- app_assoc; reflexivity).
Qed.

(** ** The interval of the post-processing stage *)

Lemma run_timers_keeps (sg : nat * nat * bool * bool * nat) (ts : list Timer) (s : Sys) :
  sg.1.2 = true ->
  (exists t, In t ts /\ signature t = sg) ->
  exists t, In t (fst (run_timers ts s)) /\ signature t = sg.
Proof.
  intros R. revert s. induction ts as [|t' ts IH]; intros s (t & Hin & Hsg);
    [destruct Hin|].
  rewrite run_timers_cons. destruct Hin as [->|Hin].
  - destruct (Nat.leb (remaining t) 1); cbn [fst].
    + assert (Rt : repeating t = true) by (rewrite <- Hsg in R; exact R).
      rewrite Rt. eexists. split; [left; reflexivity|].
      rewrite <- Hsg. unfold signature. cbn [tid callback repeating delay].
      rewrite fire_cb_pid, fire_is_dots, Rt. reflexivity.
    + exists (countdown t). split; [left; reflexivity|exact Hsg].
  - destruct (Nat.leb (remaining t') 1); cbn [fst].
    + destruct (IH (snd (fire (callback t') s))) as (u & Hu & Su); [eauto|].
      exists u. split; [apply in_or_app; right; exact Hu|exact Su].
    + destruct (IH s) as (u & Hu & Su); [eauto|].
      exists u. split; [right; exact Hu|exact Su].
Qed.

Lemma elapse_keeps (sg : nat * nat * bool * bool * nat) (k : nat) (s : Sys) :
  sg.1.2 = true -> active sg s -> active sg (elapse k s).
Proof.
  intros R. revert s. induction k as [|k IH]; intros s H; [exact H|].
  rewrite elapse_S. apply IH. unfold active. rewrite timers_tick.
  apply run_timers_keeps; assumption.
Qed.

Lemma env_event_keeps (sg : nat * nat * bool * bool * nat) (e : EnvEvent) (s : Sys) :
  sg.1.2 = true -> active sg s -> active sg (env_event e s).
Proof.
  intros R H. destruct e; cbn [env_event]; try exact H.
  - apply elapse_keeps; assumption.
  - destruct (activeEditor s); exact H.
Qed.

(** An interval stays in the table whatever the host and the user do. *)
Lemma env_events_keeps (sg : nat * nat * bool * bool * nat) (es : list EnvEvent) (s : Sys) :
  sg.1.2 = true -> active sg s -> active sg (env_events es s).
Proof.
  intros R. revert s. induction es as [|e es IH]; intros s H; [exact H|].
  apply IH, env_event_keeps; assumption.
Qed.

Lemma cleared_keeps (sg : nat * nat * bool * bool * nat) (id : nat) (ts : list Timer) :
  sg.1.1.1.1 <> id ->
  (exists t, In t ts /\ signature t = sg) ->
  exists t, In t (cleared id ts) /\ signature t = sg.
Proof.
  intros N (t & Hin & Hsg). exists t. split; [|exact Hsg].
  apply filter_In. split; [exact Hin|].
  rewrite <- Hsg in N. cbn in N.
  apply negb_true_iff, Nat.eqb_neq, N.
Qed.

Lemma transcribed_next_tid (a : HTMLAudioElement) (o : Oracle) (s : Sys) :
  next_tid (transcribed a o s) = S (next_tid s).
Proof.
  unfold transcribed. rewrite !env_events_next_tid.
  cbn [emit next_tid set_log]. rewrite env_events_next_tid. reflexivity.
Qed.

Lemma still_active_at_the_end (sg : nat * nat * bool * bool * nat) (id : nat)
    (c : Sys) (ts : list Timer) :
  sg.1.1.1.1 <> id ->
  active sg c ->
  exists t, In t (cleared id (cleared id (timers c)) ++ ts) /\ signature t = sg.
Proof.
  intros N H.
  destruct (cleared_keeps sg id _ N (cleared_keeps sg id _ N H)) as (t & Hin & Hsg).
  exists t. split; [apply in_or_app; left; exact Hin|exact Hsg].
Qed.

(** C5 fails on the code: with post-processing enabled when the transcript
    arrives, the interval registered on line 159 is still in the timer
    table when the job's promise settles, it stays there whatever happens
    next, and 3000 ms later the progress indicator it writes to is out of
    the document. *)
Theorem ollama_interval_is_never_cleared
    (a : HTMLAudioElement) (o : Oracle) (s : Sys) (t : JsVal) :
  transcript o = Some t ->
  settingOllamaToggle (settings (transcribed a o s)) = true ->
  let r := exec (transcribeAudio a) o 0 s in
  let second := (S (next_tid s), next_pid s, true, true, 500) in
  (forall es, active second (env_events es (final r))) /\
  (forall ms, 3000 <= ms ->
     Dom.attached (next_pid s) (body (elapse ms (final r))) = false).
Proof.
  intros T G. cbv zeta.
  destruct (exec_transcribed a o s t T) as (-> & _).
  rewrite <- (transcribed_next_tid a o s).
  assert (N : next_tid (transcribed a o s) <> next_tid s)
    by (rewrite transcribed_next_tid; lia).
  revert G N. generalize (transcribed a o s). intros s4 G N.
  focus_run. run_all. rewrite G. run.
  match goal with
  | |- context [env_events (meanwhile o 5) ?x] =>
      assert (A5 : active (next_tid s4, next_pid s, true, true, 500)
                     (env_events (meanwhile o 5) x))
        by (apply env_events_keeps; [reflexivity|]; unfold active; run;
            eexists; split; [apply in_or_app; right; left; reflexivity|reflexivity]);
      revert A5; generalize (env_events (meanwhile o 5) x); intros s5 A5
  end.
  branch; run.
  2: branch; run.
  2: match goal with
     | |- context [env_events (meanwhile o 6) ?x] =>
         assert (A6 : active (next_tid s4, next_pid s, true, true, 500)
                        (env_events (meanwhile o 6) x))
           by (apply env_events_keeps; [reflexivity|exact A5]);
         revert A6; generalize (env_events (meanwhile o 6) x); intros s6 A6
     end; branch; run.
  4: branch; run.
  all: repeat (branch; run).
  all: conclude.
  all: split;
    [ intros es; apply env_events_keeps; [reflexivity|];
      unfold active; run;
      apply still_active_at_the_end; [exact N|assumption]
    | intros ms Hms;
      eapply removal_due;
      [ run; apply in_or_app; right; left; reflexivity
      | reflexivity | exact Hms | lia ] ].
Qed.

Lemma ollama_interval_is_never_cleared_witness :
  let s := Example.sys0 Example.with_ollama in
  let r := exec (transcribeAudio Example.memo)
             (Example.all_up (Example.reply "- hello world")) 0 s in
  active (S (next_tid s), next_pid s, true, true, 500)
    (env_events [Elapse 3000] (final r)) /\
  Dom.attached (next_pid s) (body (elapse 3000 (final r))) = false /\
  timers (elapse 3000 (final r)) =
    [{| tid := 2; delay := 500; remaining := 100; repeating := true;
        callback := OllamaDots 0 0 2 |}].
Proof.
  assert (W1 : transcript (Example.all_up (Example.reply "- hello world")) =
               Some (JStr " hello world ")) by reflexivity.
  assert (W2 : settingOllamaToggle
                 (settings (transcribed Example.memo
                              (Example.all_up (Example.reply "- hello world"))
                              (Example.sys0 Example.with_ollama))) = true)
    by (vm_compute; reflexivity).
  pose proof (ollama_interval_is_never_cleared Example.memo
                (Example.all_up (Example.reply "- hello world"))
                (Example.sys0 Example.with_ollama) (JStr " hello world ") W1 W2) as H.
  cbv zeta in H. destruct H as (K & D).
  cbv zeta. split; [exact (K [Elapse 3000])|]. split; [apply D; lia|].
  vm_compute. reflexivity.
Defined.

(** ** Result inserter *)

(** With the control and an active editor in place, the trimmed text is
    inserted at the start of the line below the cursor the editor reports
    when the inserter runs, and the cursor is then set to that line, at the
    column given by the length of the trimmed text. *)
Lemma insertion_below_current_cursor
    (a : HTMLAudioElement) (text : string) (s : Sys) (ed : Editor) (p : list nat) :
  anchor a s = Some p ->
  activeEditor s = Some ed ->
  start (displayTranscriptionResult a (JStr text)) s =
  (set_activeEditor
     (Some {| cursor := {| line := line (cursor ed) + 1;
                           ch := String.length (Str.trim text) |};
              calls := calls ed ++
                       [ReplaceRange (Str.trim text)
                          {| line := line (cursor ed) + 1; ch := 0 |};
                        SetCursor {| line := line (cursor ed) + 1;
                                     ch := String.length (Str.trim text) |}] |}) s,
   Ret tt).
Proof.
  intros B E. unfold anchor, parentElement_of in B.
  unfold displayTranscriptionResult. run. rewrite B, E.
  destruct (Dom.parentElement_path p) eqn:P;
    [|exfalso; eapply found_button_has_parent; eassumption].
  cbn [Js.trim lift bind start modify]. unfold Editor_setCursor, Editor_replaceRange.
  cbn [calls cursor]. rewrite <- app_assoc. reflexivity.
Qed.

(** For a text without a line feed, that column is the end of the inserted
    text. *)
Lemma cursor_at_end_of_single_line (from : EditorPosition) (text : string) :
  single_line text ->
  ch from = 0 ->
  end_of_inserted_text from text = {| line := line from; ch := String.length text |}.
Proof.
  unfold single_line, end_of_inserted_text. intros H Z.
  destruct (Str.split Str.newline text) as [|first [|second more]]; try discriminate.
  rewrite Z. reflexivity.
Qed.

(** C2 fails on the code for a text of several lines: the inserter puts the
    text ["# Memo\n- call Ann"] at line 5, column 0 (the cursor being on
    line 4), so the inserted text ends at line 6, column 10, and it sets
    the cursor to line 5, column 17. *)
Theorem cursor_not_at_end_of_multiline_text :
  let s := Example.sys0 Example.DEFAULT_SETTINGS in
  let s' := fst (start (displayTranscriptionResult Example.memo
                          (JStr Example.two_lines)) s) in
  let from := {| line := 5; ch := 0 |} in
  exists ed,
    activeEditor s' = Some ed /\
    calls ed = [ReplaceRange Example.two_lines from;
                SetCursor {| line := 5; ch := 17 |}] /\
    end_of_inserted_text from Example.two_lines = {| line := 6; ch := 10 |} /\
    cursor ed <> end_of_inserted_text from Example.two_lines.
Proof.
  eexists. split; [vm_compute; reflexivity|].
  split; [reflexivity|]. split; [reflexivity|].
  vm_compute. discriminate.
Qed.

(** ** Activations *)

Lemma start_transcribeAudio (a : HTMLAudioElement) (s : Sys) :
  is_suspended (snd (start (transcribeAudio a) s)) = true /\
  fst (start (transcribeAudio a) s) = launched a s.
Proof. split; reflexivity. Qed.

(** C7 as the code has it: a click on a control always starts a job for its
    audio element, whether or not jobs of that element are already active;
    each job gets a progress indicator and an interval of its own. *)
Theorem every_click_starts_a_job (a : HTMLAudioElement) (m : Machine) :
  active_jobs a (click a m) = S (active_jobs a m) /\
  next_pid (sys (click a m)) = S (next_pid (sys m)) /\
  next_tid (sys (click a m)) = S (next_tid (sys m)) /\
  exists t, timers (sys (click a m)) = timers (sys m) ++ [t] /\
            tid t = next_tid (sys m) /\ cb_pid (callback t) = next_pid (sys m).
Proof.
  unfold click, active_jobs.
  destruct (start (transcribeAudio a) (sys m)) as [s' p] eqn:E.
  pose proof (start_transcribeAudio a (sys m)) as [P S'].
  rewrite E in P, S'. cbn [fst snd] in P, S'. subst s'.
  cbn [sys jobs]. split; [|split; [reflexivity|split; [reflexivity|]]].
  - rewrite filter_app, length_app. cbn [List.filter element rest].
    rewrite Nat.eqb_refl, P. cbn. lia.
  - eexists. rewrite launched_eq. cbn [timers set_next_tid set_timers].
    split; [reflexivity|]. split; reflexivity.
Qed.

(** C7 fails on the code: with one job of the audio element active, a
    second click is not without effect and leaves two active jobs. *)
Lemma second_click_starts_second_job :
  let m0 := {| sys := Example.sys0 Example.DEFAULT_SETTINGS; jobs := [] |} in
  let m1 := click Example.memo m0 in
  active_jobs Example.memo m1 = 1 /\
  active_jobs Example.memo (click Example.memo m1) = 2 /\
  click Example.memo m1 <> m1.
Proof.
  split; [reflexivity|]. split; [reflexivity|].
  intros E. apply (f_equal (active_jobs Example.memo)) in E.
  vm_compute in E. discriminate.
Qed.

(** ** The dot animation *)

Lemma append_empty_r (s : string) : (s ++ EmptyString)%string = s.
Proof.
  induction s as [|c s IH]; [reflexivity|].
  change (String c (s ++ EmptyString)%string = String c s). rewrite IH. reflexivity.
Qed.

Lemma fire_dots (cb : Callback) (k : nat) (s : Sys) :
  is_dots cb = true ->
  fire (with_dotCount cb k) s =
  (with_dotCount cb (next_dotCount k),
   setText (cb_pid cb) (shown cb (next_dotCount k) s) s).
Proof.
  destruct cb as [pid f c|pid cell c|p]; [| |discriminate]; intros _;
    unfold fire, with_dotCount, next_dotCount, shown, cb_pid;
    destruct (Nat.ltb k 5); try reflexivity.
  cbn [Str.repeat]. rewrite append_empty_r. reflexivity.
Qed.




Section Dots.

Variables (pid id : nat) (cb : Callback).
Hypothesis cb_targets : cb_pid cb = pid.
Hypothesis cb_dots : is_dots cb = true.







End Dots.





(** ** Element watcher *)

Lemma querySelector_button_None (kids : list Node) :
  Dom.querySelector_button (Elem kids) = None <-> existsb Dom.has_button kids = false.
Proof.
  cbn [Dom.querySelector_button Dom.first_button]. generalize 0.
  assert (H : forall n, Dom.first_button n = None <-> Dom.has_button n = false).
  { induction n as [| | |ks IH] using Node_induction; cbn [Dom.first_button Dom.has_button];
      try (split; [reflexivity|reflexivity]); try (split; discriminate).
    generalize 0. induction IH as [|k ks Hk _ IHks]; intros i; cbn [existsb].
    - split; reflexivity.
    - destruct (Dom.first_button k) eqn:E.
      + split; [discriminate|]. intros H. apply orb_false_iff in H.
        destruct H as [H _]. apply Hk in H. discriminate.
      + destruct Hk as [Hk _]. rewrite (Hk eq_refl). cbn [orb]. apply IHks. }
  induction kids as [|k kids IH]; intros i; cbn [existsb].
  - split; reflexivity.
  - destruct (Dom.first_button k) eqn:E.
    + split; [discriminate|]. intros X. apply orb_false_iff in X.
      destruct X as [X _]. apply H in X. rewrite X in E. discriminate.
    + apply H in E. rewrite E. cbn [orb]. apply IH.
Qed.

Lemma is_audio_add (a b : HTMLAudioElement) (n : Node) :
  Dom.is_audio a (addTranscribeButton b n) = Dom.is_audio a n.
Proof.
  destruct n as [| | |kids]; try reflexivity.
  cbn [addTranscribeButton].
  destruct (existsb (Dom.is_audio b) kids); [|reflexivity].
  destruct (Dom.querySelector_button (Elem kids)); reflexivity.
Qed.

Lemma existsb_is_audio_add (a b : HTMLAudioElement) (kids : list Node) :
  existsb (Dom.is_audio a) (List.map (addTranscribeButton b) kids) =
  existsb (Dom.is_audio a) kids.
Proof.
  rewrite existsb_map. apply existsb_ext_Forall, Forall_forall.
  intros k _. apply is_audio_add.
Qed.

Lemma map_id_Forall {A : Type} (f : A -> A) (l : list A) :
  Forall (fun x => f x = x) l -> List.map f l = l.
Proof. induction 1 as [|x l H _ IH]; cbn; [reflexivity|]. rewrite H, IH. reflexivity. Qed.

Lemma existsb_false_Forall {A : Type} (f : A -> bool) (l : list A) :
  existsb f l = false <-> Forall (fun x => f x = false) l.
Proof.
  induction l as [|x l IH]; cbn [existsb].
  - split; [constructor|reflexivity].
  - rewrite orb_false_iff, IH. split.
    + intros [H1 H2]. constructor; assumption.
    + intros H. inversion H; subst. split; assumption.
Qed.

(** A marked parent makes [addTranscribeButton] do nothing. *)
Lemma add_marked (a : HTMLAudioElement) (n : Node) :
  unmarked a n = false -> addTranscribeButton a n = n.
Proof.
  induction n as [| | |kids IH] using Node_induction; try reflexivity.
  cbn [unmarked addTranscribeButton].
  destruct (existsb (Dom.is_audio a) kids).
  - intros H. apply negb_false_iff in H.
    destruct (Dom.querySelector_button (Elem kids)) eqn:Q; [reflexivity|].
    apply querySelector_button_None in Q. congruence.
  - intros H. f_equal. apply map_id_Forall.
    apply existsb_false_Forall in H.
    rewrite Forall_forall in IH, H |- *. intros k Hk. apply IH; [exact Hk|apply H, Hk].
Qed.

Lemma add_marks (a : HTMLAudioElement) (n : Node) :
  unmarked a (addTranscribeButton a n) = false.
Proof.
  induction n as [| | |kids IH] using Node_induction; try reflexivity.
  cbn [addTranscribeButton].
  destruct (existsb (Dom.is_audio a) kids) eqn:D.
  - destruct (Dom.querySelector_button (Elem kids)) eqn:Q.
    + cbn [unmarked]. rewrite D. apply negb_false_iff.
      destruct (existsb Dom.has_button kids) eqn:B; [reflexivity|].
      apply querySelector_button_None in B. congruence.
    + cbn [unmarked]. rewrite !existsb_app, D. cbn. rewrite orb_true_r. reflexivity.
  - cbn [unmarked]. rewrite existsb_is_audio_add, D. rewrite existsb_map.
    apply existsb_false_Forall. exact IH.
Qed.

Lemma has_button_add (b : HTMLAudioElement) (n : Node) :
  Dom.has_button n = true -> Dom.has_button (addTranscribeButton b n) = true.
Proof.
  induction n as [| | |kids IH] using Node_induction; try (intros H; exact H).
  cbn [addTranscribeButton]. intros H.
  destruct (existsb (Dom.is_audio b) kids).
  - destruct (Dom.querySelector_button (Elem kids)); [exact H|].
    cbn [Dom.has_button] in *. rewrite existsb_app, H. reflexivity.
  - cbn [Dom.has_button] in *. rewrite existsb_map.
    apply existsb_exists in H. destruct H as (k & Hk & Bk).
    apply existsb_exists. exists k. split; [exact Hk|].
    rewrite Forall_forall in IH. apply IH; assumption.
Qed.

(** A control appended for another audio element leaves marked parents
    marked. *)
Lemma add_keeps_marked (a b : HTMLAudioElement) (n : Node) :
  unmarked a n = false -> unmarked a (addTranscribeButton b n) = false.
Proof.
  induction n as [| | |kids IH] using Node_induction; try (intros H; exact H).
  cbn [addTranscribeButton]. intros H.
  destruct (existsb (Dom.is_audio b) kids) eqn:Db.
  - destruct (Dom.querySelector_button (Elem kids)); [exact H|].
    cbn [unmarked] in *. rewrite !existsb_app. cbn [existsb Dom.is_audio Dom.has_button unmarked].
    rewrite !orb_false_r.
    destruct (existsb (Dom.is_audio a) kids); [|exact H].
    rewrite orb_true_r. reflexivity.
  - cbn [unmarked] in *. rewrite existsb_is_audio_add.
    destruct (existsb (Dom.is_audio a) kids).
    + apply negb_false_iff in H. apply negb_false_iff.
      rewrite existsb_map.
      apply existsb_exists in H. destruct H as (k & Hk & Bk).
      apply existsb_exists. exists k. split; [exact Hk|apply has_button_add, Bk].
    + rewrite existsb_map. apply existsb_false_Forall.
      apply existsb_false_Forall in H.
      rewrite Forall_forall in IH, H |- *. intros k Hk. apply IH; [exact Hk|apply H, Hk].
Qed.

Lemma audios_add (b : HTMLAudioElement) (n : Node) :
  Dom.audios (addTranscribeButton b n) = Dom.audios n.
Proof.
  induction n as [| | |kids IH] using Node_induction; try reflexivity.
  cbn [addTranscribeButton].
  destruct (existsb (Dom.is_audio b) kids).
  - destruct (Dom.querySelector_button (Elem kids)); [reflexivity|].
    cbn [Dom.audios]. rewrite flat_map_app. cbn. apply app_nil_r.
  - cbn [Dom.audios]. induction IH as [|k kids Hk _ IHkids]; [reflexivity|].
    cbn [List.map flat_map]. rewrite Hk, IHkids. reflexivity.
Qed.

Lemma querySelectorAll_audio_audios (n : Node) :
  Dom.querySelectorAll_audio n = match n with Elem _ => Dom.audios n | _ => [] end.
Proof. destruct n; reflexivity. Qed.

Lemma add_shape (b : HTMLAudioElement) (n : Node) :
  match n with
  | Elem _ => exists kids, addTranscribeButton b n = Elem kids
  | _ => addTranscribeButton b n = n
  end.
Proof.
  destruct n as [| | |kids]; try reflexivity. cbn [addTranscribeButton].
  destruct (existsb (Dom.is_audio b) kids); [|eauto].
  destruct (Dom.querySelector_button (Elem kids)); eauto.
Qed.

Lemma querySelectorAll_audio_add (b : HTMLAudioElement) (n : Node) :
  Dom.querySelectorAll_audio (addTranscribeButton b n) = Dom.querySelectorAll_audio n.
Proof.
  pose proof (add_shape b n) as S. pose proof (audios_add b n) as E.
  destruct n as [| | |kids]; try (rewrite S; reflexivity).
  destruct S as [kids' S]. rewrite S in *. exact E.
Qed.


Lemma visit_marks (l : list HTMLAudioElement) (n : Node) (a : HTMLAudioElement) :
  In a l -> unmarked a (visit l n) = false.
Proof.
  assert (K : forall l n, unmarked a n = false -> unmarked a (visit l n) = false).
  { clear. induction l as [|b l IH]; intros n H; [exact H|].
    apply IH, add_keeps_marked, H. }
  revert n. induction l as [|b l IH]; intros n Hin; [destruct Hin|].
  cbn [visit fold_left]. fold (visit l (addTranscribeButton b n)).
  destruct Hin as [->|Hin].
  - apply K, add_marks.
  - apply IH, Hin.
Qed.

Lemma visit_marked (l : list HTMLAudioElement) (n : Node) :
  Forall (fun a => unmarked a n = false) l -> visit l n = n.
Proof.
  induction 1 as [|a l H _ IH]; [reflexivity|].
  cbn [visit fold_left]. rewrite (add_marked a n H). exact IH.
Qed.

Lemma querySelectorAll_audio_visit (l : list HTMLAudioElement) (n : Node) :
  Dom.querySelectorAll_audio (visit l n) = Dom.querySelectorAll_audio n.
Proof.
  revert n. induction l as [|b l IH]; intros n; [reflexivity|].
  cbn [visit fold_left]. fold (visit l (addTranscribeButton b n)).
  rewrite IH. apply querySelectorAll_audio_add.
Qed.

(** After a scan, the parent of every audio element below the root holds a
    control. *)
Lemma scan_marks (d : Node) (a : HTMLAudioElement) :
  In a (Dom.querySelectorAll_audio d) ->
  unmarked a (addTranscribeButtonToAudio d) = false.
Proof. apply visit_marks. Qed.

(** A second scan changes nothing. *)
Lemma scan_idempotent (d : Node) :
  addTranscribeButtonToAudio (addTranscribeButtonToAudio d) = addTranscribeButtonToAudio d.
Proof.
  unfold addTranscribeButtonToAudio at 1. fold (visit (Dom.querySelectorAll_audio d) d).
  fold (addTranscribeButtonToAudio d).
  change (visit (Dom.querySelectorAll_audio (addTranscribeButtonToAudio d))
            (addTranscribeButtonToAudio d) = addTranscribeButtonToAudio d).
  apply visit_marked, Forall_forall. intros a Hin. apply scan_marks.
  unfold addTranscribeButtonToAudio in Hin.
  fold (visit (Dom.querySelectorAll_audio d) d) in Hin.
  rewrite querySelectorAll_audio_visit in Hin. exact Hin.
Qed.

Lemma parentElement_Elem (a : HTMLAudioElement) (kids : list Node) :
  Dom.parentElement a (Elem kids) =
  if existsb (Dom.is_audio a) kids then Some (Elem kids)
  else first_of (Dom.parentElement a) kids.
Proof.
  cbn [Dom.parentElement]. destruct (existsb (Dom.is_audio a) kids); [reflexivity|].
  induction kids as [|k kids IH]; [reflexivity|].
  cbn [first_of]. destruct (Dom.parentElement a k); [reflexivity|exact IH].
Qed.

Lemma first_of_Some {A B : Type} (f : A -> option B) (l : list A) (y : B) :
  first_of f l = Some y -> exists x, In x l /\ f x = Some y.
Proof.
  induction l as [|x l IH]; [discriminate|]. cbn [first_of].
  destruct (f x) eqn:E.
  - intros [= ->]. exists x. split; [left; reflexivity|exact E].
  - intros H. destruct (IH H) as (x' & Hin & Hx). exists x'. split; [right|]; assumption.
Qed.

Lemma first_of_exists {A B : Type} (f : A -> option B) (l : list A) (x : A) :
  In x l -> f x <> None -> first_of f l <> None.
Proof.
  induction l as [|x' l IH]; intros Hin N; [destruct Hin|].
  cbn [first_of]. destruct (f x') eqn:E; [discriminate|].
  destruct Hin as [->|Hin]; [congruence|]. apply IH; assumption.
Qed.

Lemma is_audio_In (a : HTMLAudioElement) (kids : list Node) :
  In a (flat_map Dom.audios kids) ->
  existsb (Dom.is_audio a) kids = false ->
  exists ks, In (Elem ks) kids /\ In a (Dom.audios (Elem ks)).
Proof.
  intros Hin D. apply in_flat_map in Hin. destruct Hin as (k & Hk & Ha).
  destruct k as [x| | |ks].
  - destruct Ha as [->|[]].
    apply existsb_false_Forall in D. rewrite Forall_forall in D.
    specialize (D _ Hk). cbn in D. rewrite Nat.eqb_refl in D. discriminate.
  - destruct Ha.
  - destruct Ha.
  - exists ks. split; assumption.
Qed.

Lemma parentElement_exists (a : HTMLAudioElement) (n : Node) :
  In a (Dom.querySelectorAll_audio n) -> Dom.parentElement a n <> None.
Proof.
  induction n as [| | |kids IH] using Node_induction; try (intros []).
  cbn [Dom.querySelectorAll_audio]. intros Hin. rewrite parentElement_Elem.
  destruct (existsb (Dom.is_audio a) kids) eqn:D; [discriminate|].
  destruct (is_audio_In a kids Hin D) as (ks & Hk & Ha).
  apply (first_of_exists _ _ (Elem ks) Hk).
  rewrite Forall_forall in IH. apply (IH _ Hk). exact Ha.
Qed.

Lemma marked_parent_has_button (a : HTMLAudioElement) (n P : Node) :
  Dom.parentElement a n = Some P -> unmarked a n = false ->
  Dom.querySelector_button P <> None.
Proof.
  revert P. induction n as [| | |kids IH] using Node_induction; try discriminate.
  intros P. rewrite parentElement_Elem. cbn [unmarked].
  destruct (existsb (Dom.is_audio a) kids).
  - intros [= <-] H Q. apply negb_false_iff in H.
    apply querySelector_button_None in Q. congruence.
  - intros F H. apply first_of_Some in F. destruct F as (k & Hk & Pk).
    apply existsb_false_Forall in H. rewrite Forall_forall in IH, H.
    apply (IH _ Hk _ Pk). apply H, Hk.
Qed.

(** *** Counting the controls of one audio element *)

Lemma list_sum_cons (x : nat) (l : list nat) : list_sum (x :: l) = x + list_sum l.
Proof. reflexivity. Qed.

Lemma controls_add_other (a b : HTMLAudioElement) (n : Node) :
  aid b <> aid a -> Dom.controls a (addTranscribeButton b n) = Dom.controls a n.
Proof.
  intros N. induction n as [| | |kids IH] using Node_induction; try reflexivity.
  cbn [addTranscribeButton].
  destruct (existsb (Dom.is_audio b) kids).
  - destruct (Dom.querySelector_button (Elem kids)); [reflexivity|].
    cbn [Dom.controls]. rewrite List.map_app, list_sum_app.
    cbn [List.map Dom.controls list_sum fold_right].
    apply Nat.eqb_neq in N. rewrite N. lia.
  - cbn [Dom.controls]. f_equal. rewrite map_map.
    induction IH as [|k kids Hk _ IHkids]; [reflexivity|].
    cbn [List.map]. rewrite Hk, IHkids. reflexivity.
Qed.

Lemma visit_controls_other (a : HTMLAudioElement) (l : list HTMLAudioElement) (n : Node) :
  Forall (fun b => aid b <> aid a) l ->
  Dom.controls a (visit l n) = Dom.controls a n.
Proof.
  intros H. revert n. induction H as [|b l Hb _ IH]; intros n; [reflexivity|].
  cbn [visit fold_left]. fold (visit l (addTranscribeButton b n)).
  rewrite IH. apply controls_add_other, Hb.
Qed.

Lemma unmarked_occurs (a : HTMLAudioElement) (n : Node) :
  unmarked a n = true -> In (aid a) (List.map aid (Dom.audios n)).
Proof.
  induction n as [| | |kids IH] using Node_induction; try discriminate.
  cbn [unmarked Dom.audios]. destruct (existsb (Dom.is_audio a) kids) eqn:D.
  - intros _. apply existsb_exists in D. destruct D as (k & Hk & Ak).
    destruct k as [x| | |]; try discriminate. cbn in Ak. apply Nat.eqb_eq in Ak.
    rewrite <- Ak. apply in_map, in_flat_map. exists (Audio x). split; [exact Hk|left; reflexivity].
  - intros H. apply existsb_exists in H. destruct H as (k & Hk & Uk).
    rewrite Forall_forall in IH. specialize (IH _ Hk Uk).
    apply in_map_iff in IH. destruct IH as (x & Ex & Hx).
    apply in_map_iff. exists x. split; [exact Ex|].
    apply in_flat_map. exists k. split; assumption.
Qed.

Lemma distinct_audios_kids (k : Node) (kids : list Node) :
  distinct_audios (Elem (k :: kids)) ->
  distinct_audios k /\ distinct_audios (Elem kids) /\
  forall x, In x (List.map aid (Dom.audios k)) ->
            In x (List.map aid (Dom.audios (Elem kids))) -> False.
Proof.
  unfold distinct_audios. cbn [Dom.audios flat_map]. rewrite map_app.
  intros H. split; [|split].
  - apply NoDup_app_remove_r in H. exact H.
  - apply NoDup_app_remove_l in H. exact H.
  - intros x H1 H2. revert H H1 H2. generalize (List.map aid (Dom.audios k)).
    generalize (List.map aid (flat_map Dom.audios kids)). clear.
    intros l2 l1. induction l1 as [|y l1 IH]; intros H H1 H2; [destruct H1|].
    cbn in H. inversion H as [|? ? Hy Hl]; subst.
    destruct H1 as [->|H1].
    + apply Hy, in_or_app. right. exact H2.
    + apply IH; assumption.
Qed.

Lemma distinct_audios_kid (kids : list Node) (k : Node) :
  distinct_audios (Elem kids) -> In k kids -> distinct_audios k.
Proof.
  induction kids as [|k' kids IH]; intros H Hin; [destruct Hin|].
  destruct (distinct_audios_kids _ _ H) as (Hk & Hks & _).
  destruct Hin as [->|Hin]; [exact Hk|apply IH; assumption].
Qed.

(** What [addTranscribeButton(audio)] adds to the controls of [audio]. *)
Lemma controls_add_same (a b : HTMLAudioElement) (n : Node) :
  aid b = aid a -> distinct_audios n ->
  Dom.controls a (addTranscribeButton b n) =
  Dom.controls a n + (if unmarked b n then 1 else 0).
Proof.
  intros E. induction n as [| | |kids IH] using Node_induction;
    try (intros _; cbn; lia).
  intros N. cbn [addTranscribeButton unmarked].
  destruct (existsb (Dom.is_audio b) kids).
  - destruct (Dom.querySelector_button (Elem kids)) eqn:Q.
    + destruct (existsb Dom.has_button kids) eqn:B; [cbn; lia|].
      apply querySelector_button_None in B. congruence.
    + apply querySelector_button_None in Q. rewrite Q. cbn [negb Dom.controls].
      rewrite List.map_app, list_sum_app. cbn [List.map Dom.controls list_sum fold_right].
      apply Nat.eqb_eq in E. rewrite E. lia.
  - cbn [Dom.controls]. rewrite map_map.
    induction IH as [|k kids Hk _ IHkids]; [reflexivity|].
    destruct (distinct_audios_kids _ _ N) as (Nk & Nks & Disj).
    cbn [List.map existsb]. rewrite !list_sum_cons, (Hk Nk), (IHkids Nks).
    destruct (unmarked b k) eqn:Uk; cbn [orb]; [|lia].
    destruct (existsb (unmarked b) kids) eqn:Uks; [|lia].
    exfalso. apply existsb_exists in Uks. destruct Uks as (k' & Hk' & Uk').
    apply (Disj (aid b)); [apply unmarked_occurs, Uk|].
    apply unmarked_occurs in Uk'.
    apply in_map_iff in Uk'. destruct Uk' as (x & Ex & Hx).
    apply in_map_iff. exists x. split; [exact Ex|].
    cbn [Dom.audios]. apply in_flat_map. exists k'. split; assumption.
Qed.

Lemma distinct_audios_add (b : HTMLAudioElement) (n : Node) :
  distinct_audios n -> distinct_audios (addTranscribeButton b n).
Proof. unfold distinct_audios. rewrite audios_add. intros H. exact H. Qed.

Lemma distinct_audios_visit (l : list HTMLAudioElement) (n : Node) :
  distinct_audios n -> distinct_audios (visit l n).
Proof.
  revert n. induction l as [|b l IH]; intros n H; [exact H|].
  apply IH, distinct_audios_add, H.
Qed.

(** Distinct audio elements, visited once each, get at most one more
    control each. *)
Lemma visit_controls_le (a : HTMLAudioElement) (l : list HTMLAudioElement) (n : Node) :
  NoDup (List.map aid l) -> distinct_audios n ->
  Dom.controls a (visit l n) <= S (Dom.controls a n).
Proof.
  revert n. induction l as [|b l IH]; intros n D N; [cbn; lia|].
  cbn [List.map] in D. inversion D as [|? ? Hb Hl]; subst.
  cbn [visit fold_left]. fold (visit l (addTranscribeButton b n)).
  destruct (Nat.eq_dec (aid b) (aid a)) as [E|E].
  - rewrite visit_controls_other.
    + rewrite (controls_add_same a b n E N). destruct (unmarked b n); lia.
    + apply Forall_forall. intros x Hx X. apply Hb. rewrite E, <- X.
      apply in_map, Hx.
  - etransitivity; [apply IH; [exact Hl|apply distinct_audios_add, N]|].
    rewrite controls_add_other by exact E. lia.
Qed.

Lemma controls_le_buttons (a : HTMLAudioElement) (n : Node) :
  Dom.controls a n <= Dom.buttons n.
Proof.
  induction n as [| | |kids IH] using Node_induction;
    cbn [Dom.controls Dom.buttons]; try lia.
  - destruct (Nat.eqb _ _); lia.
  - induction IH as [|k kids Hk _ IHkids]; [reflexivity|].
    cbn [List.map]. rewrite !list_sum_cons. lia.
Qed.

(** *** An audio element alone in its parent *)

Lemma occurs_audio_add (b c : HTMLAudioElement) (n : Node) :
  occurs_audio b (addTranscribeButton c n) = occurs_audio b n.
Proof. unfold occurs_audio. rewrite audios_add. reflexivity. Qed.

Lemma cohabit_add (a b c : HTMLAudioElement) (n : Node) :
  cohabit a b (addTranscribeButton c n) = cohabit a b n.
Proof.
  induction n as [| | |kids IH] using Node_induction; try reflexivity.
  cbn [addTranscribeButton].
  destruct (existsb (Dom.is_audio c) kids).
  - destruct (Dom.querySelector_button (Elem kids)); [reflexivity|].
    cbn [cohabit]. rewrite !existsb_app. cbn [existsb Dom.is_audio cohabit].
    unfold occurs_audio at 2. cbn [Dom.audios existsb]. rewrite !orb_false_r.
    reflexivity.
  - cbn [cohabit]. rewrite existsb_is_audio_add, !existsb_map.
    destruct (existsb (Dom.is_audio a) kids).
    + apply existsb_ext_Forall, Forall_forall. intros k _. apply occurs_audio_add.
    + apply existsb_ext_Forall, IH.
Qed.

Lemma occurs_audio_In (b : HTMLAudioElement) (n : Node) :
  occurs_audio b n = true <-> In (aid b) (List.map aid (Dom.audios n)).
Proof.
  unfold occurs_audio. rewrite existsb_exists, in_map_iff. split.
  - intros (x & Hx & E). apply Nat.eqb_eq in E. exists x. split; assumption.
  - intros (x & E & Hx). exists x. split; [exact Hx|apply Nat.eqb_eq, E].
Qed.

Lemma no_occurrence_add (b : HTMLAudioElement) (n : Node) :
  occurs_audio b n = false -> addTranscribeButton b n = n.
Proof.
  intros H. apply add_marked. destruct (unmarked b n) eqn:U; [|reflexivity].
  apply unmarked_occurs, occurs_audio_In in U. congruence.
Qed.

Lemma is_audio_occurs (b : HTMLAudioElement) (k : Node) :
  Dom.is_audio b k = true -> occurs_audio b k = true.
Proof.
  destruct k as [x| | |]; try discriminate. cbn. intros ->. reflexivity.
Qed.

(** A control appended for an audio element that lives elsewhere leaves
    the parent of [a] without a control. *)
Lemma unmarked_add_other (a b : HTMLAudioElement) (n : Node) :
  cohabit a b n = false -> unmarked a n = true ->
  unmarked a (addTranscribeButton b n) = true.
Proof.
  induction n as [| | |kids IH] using Node_induction; try discriminate.
  cbn [cohabit unmarked]. destruct (existsb (Dom.is_audio a) kids) eqn:Da.
  - intros C U.
    assert (E : addTranscribeButton b (Elem kids) = Elem kids).
    { apply no_occurrence_add. unfold occurs_audio. cbn [Dom.audios].
      destruct (existsb _ (flat_map Dom.audios kids)) eqn:X; [|reflexivity].
      apply existsb_exists in X. destruct X as (x & Hx & Ex).
      apply in_flat_map in Hx. destruct Hx as (k & Hk & Hx).
      apply existsb_false_Forall in C. rewrite Forall_forall in C.
      specialize (C k Hk). unfold occurs_audio in C.
      apply existsb_false_Forall in C. rewrite Forall_forall in C.
      rewrite (C x Hx) in Ex. discriminate. }
    rewrite E. cbn [unmarked]. rewrite Da. exact U.
  - intros C U. cbn [addTranscribeButton].
    destruct (existsb (Dom.is_audio b) kids).
    + destruct (Dom.querySelector_button (Elem kids)); cbn [unmarked].
      * rewrite Da. exact U.
      * rewrite !existsb_app, Da, U. reflexivity.
    + cbn [unmarked]. rewrite existsb_is_audio_add, Da, existsb_map.
      apply existsb_exists in U. destruct U as (k & Hk & Uk).
      apply existsb_exists. exists k. split; [exact Hk|].
      apply existsb_false_Forall in C. rewrite Forall_forall in IH, C.
      apply IH; [exact Hk|apply C, Hk|exact Uk].
Qed.

Lemma visit_keeps_unmarked (a : HTMLAudioElement) (l : list HTMLAudioElement) (n : Node) :
  Forall (fun b => cohabit a b n = false) l -> unmarked a n = true ->
  unmarked a (visit l n) = true.
Proof.
  revert n. induction l as [|b l IH]; intros n F U; [exact U|].
  inversion F as [|? ? Hb Hl]; subst.
  cbn [visit fold_left]. fold (visit l (addTranscribeButton b n)).
  apply IH.
  - eapply Forall_impl; [|exact Hl]. intros x Hx. rewrite cohabit_add. exact Hx.
  - apply unmarked_add_other; assumption.
Qed.

Lemma first_of_None {A B : Type} (f : A -> option B) (l : list A) :
  first_of f l = None -> Forall (fun x => f x = None) l.
Proof.
  induction l as [|x l IH]; [constructor|]. cbn [first_of].
  destruct (f x) eqn:E; [discriminate|]. intros H. constructor; [exact E|apply IH, H].
Qed.

Lemma parentElement_None_cohabit (a b : HTMLAudioElement) (n : Node) :
  Dom.parentElement a n = None -> cohabit a b n = false.
Proof.
  induction n as [| | |kids IH] using Node_induction; try reflexivity.
  rewrite parentElement_Elem. cbn [cohabit].
  destruct (existsb (Dom.is_audio a) kids); [discriminate|].
  intros H. apply first_of_None in H. apply existsb_false_Forall.
  rewrite Forall_forall in IH, H |- *. intros k Hk. apply IH; [exact Hk|apply H, Hk].
Qed.

Lemma parent_occurs (a : HTMLAudioElement) (n P : Node) :
  Dom.parentElement a n = Some P -> In (aid a) (List.map aid (Dom.audios n)).
Proof.
  revert P. induction n as [| | |kids IH] using Node_induction; try discriminate.
  intros P. rewrite parentElement_Elem.
  destruct (existsb (Dom.is_audio a) kids) eqn:D.
  - intros _. apply existsb_exists in D. destruct D as (k & Hk & Ak).
    apply is_audio_occurs, occurs_audio_In in Ak.
    apply in_map_iff in Ak. destruct Ak as (x & Ex & Hx).
    apply in_map_iff. exists x. split; [exact Ex|].
    cbn [Dom.audios]. apply in_flat_map. exists k. split; assumption.
  - intros F. apply first_of_Some in F. destruct F as (k & Hk & Pk).
    rewrite Forall_forall in IH. specialize (IH _ Hk _ Pk).
    apply in_map_iff in IH. destruct IH as (x & Ex & Hx).
    apply in_map_iff. exists x. split; [exact Ex|].
    cbn [Dom.audios]. apply in_flat_map. exists k. split; assumption.
Qed.

Lemma cohabit_has_parent (a b : HTMLAudioElement) (n : Node) :
  cohabit a b n = true -> Dom.parentElement a n <> None.
Proof.
  intros C N. rewrite (parentElement_None_cohabit a b n N) in C. discriminate.
Qed.

Lemma existsb_flat_map {A B : Type} (f : B -> bool) (g : A -> list B) (l : list A) :
  existsb f (flat_map g l) = existsb (fun x => existsb f (g x)) l.
Proof.
  induction l as [|x l IH]; [reflexivity|].
  cbn [flat_map existsb]. rewrite existsb_app, IH. reflexivity.
Qed.

(** With distinct audio elements, the elements that live with [a] are the
    ones below its parent. *)
Lemma cohabit_parent (a b : HTMLAudioElement) (n P : Node) :
  distinct_audios n -> Dom.parentElement a n = Some P ->
  cohabit a b n = occurs_audio b P.
Proof.
  revert P. induction n as [| | |kids IH] using Node_induction; try discriminate.
  intros P N. rewrite parentElement_Elem. cbn [cohabit].
  destruct (existsb (Dom.is_audio a) kids).
  - intros [= <-]. unfold occurs_audio at 2. cbn [Dom.audios].
    rewrite existsb_flat_map. reflexivity.
  - induction IH as [|k kids Hk _ IHkids]; [discriminate|].
    destruct (distinct_audios_kids _ _ N) as (Nk & Nks & Disj).
    cbn [first_of existsb]. destruct (Dom.parentElement a k) as [P'|] eqn:Pk.
    + intros [= ->]. rewrite (Hk P Nk eq_refl).
      destruct (existsb (cohabit a b) kids) eqn:X; [|apply orb_false_r].
      exfalso. apply existsb_exists in X. destruct X as (k' & Hk' & Ck').
      apply (Disj (aid a)); [eapply parent_occurs; exact Pk|].
      destruct (Dom.parentElement a k') as [P''|] eqn:Pk'.
      * apply parent_occurs in Pk'.
        apply in_map_iff in Pk'. destruct Pk' as (x & Ex & Hx).
        apply in_map_iff. exists x. split; [exact Ex|].
        cbn [Dom.audios]. apply in_flat_map. exists k'. split; assumption.
      * rewrite (parentElement_None_cohabit a b k' Pk') in Ck'. discriminate.
    + intros F. rewrite (parentElement_None_cohabit a b k Pk). cbn [orb].
      apply IHkids; assumption.
Qed.

Lemma buttons_zero (n : Node) : Dom.buttons n = 0 -> Dom.has_button n = false.
Proof.
  induction n as [| | |kids IH] using Node_induction; try reflexivity; try discriminate.
  cbn [Dom.buttons Dom.has_button]. intros H. apply existsb_false_Forall.
  induction IH as [|k kids Hk _ IHkids]; [constructor|].
  cbn [List.map] in H. rewrite list_sum_cons in H.
  constructor; [apply Hk; lia|apply IHkids; lia].
Qed.

Lemma buttons_zero_kid (kids : list Node) (k : Node) :
  Dom.buttons (Elem kids) = 0 -> In k kids -> Dom.buttons k = 0.
Proof.
  cbn [Dom.buttons]. induction kids as [|k' kids IH]; intros H Hin; [destruct Hin|].
  cbn [List.map] in H. rewrite list_sum_cons in H.
  destruct Hin as [->|Hin]; [lia|apply IH; [lia|exact Hin]].
Qed.

Lemma unmarked_without_buttons (a : HTMLAudioElement) (n P : Node) :
  Dom.buttons n = 0 -> Dom.parentElement a n = Some P -> unmarked a n = true.
Proof.
  revert P. induction n as [| | |kids IH] using Node_induction; try discriminate.
  intros P B. rewrite parentElement_Elem. cbn [unmarked].
  destruct (existsb (Dom.is_audio a) kids).
  - intros _. apply negb_true_iff. apply (buttons_zero (Elem kids) B).
  - intros F. apply first_of_Some in F. destruct F as (k & Hk & Pk).
    apply existsb_exists. exists k. split; [exact Hk|].
    rewrite Forall_forall in IH. apply (IH _ Hk P); [|exact Pk].
    apply (buttons_zero_kid kids); assumption.
Qed.

Lemma NoDup_map_split {A : Type} (f : A -> nat) (l1 l2 : list A) (x : A) :
  NoDup (List.map f (l1 ++ x :: l2)) ->
  Forall (fun y => f y <> f x) l1 /\ Forall (fun y => f y <> f x) l2 /\
  NoDup (List.map f l1).
Proof.
  rewrite List.map_app. cbn [List.map]. intros H.
  pose proof (NoDup_remove_2 _ _ _ H) as N.
  split; [|split].
  - apply Forall_forall. intros y Hy E. apply N, in_or_app. left.
    rewrite <- E. apply in_map, Hy.
  - apply Forall_forall. intros y Hy E. apply N, in_or_app. right.
    rewrite <- E. apply in_map, Hy.
  - apply NoDup_app_remove_r in H. exact H.
Qed.

Lemma visit_app (l1 l2 : list HTMLAudioElement) (n : Node) :
  visit (l1 ++ l2) n = visit l2 (visit l1 n).
Proof. apply fold_left_app. Qed.

(** A scan of a tree without controls binds exactly one control to an
    audio element that is the only one below its parent. *)
Lemma scan_binds_one (d P : Node) (a : HTMLAudioElement) :
  distinct_audios d -> Dom.buttons d = 0 ->
  In a (Dom.querySelectorAll_audio d) ->
  Dom.parentElement a d = Some P -> Dom.audios P = [a] ->
  Dom.controls a (addTranscribeButtonToAudio d) = 1.
Proof.
  intros N B Hin HP HA.
  unfold addTranscribeButtonToAudio. fold (visit (Dom.querySelectorAll_audio d) d).
  assert (Q : Dom.querySelectorAll_audio d = Dom.audios d)
    by (destruct d; try destruct Hin; reflexivity).
  rewrite Q in *. destruct (in_split _ _ Hin) as (l1 & l2 & E).
  unfold distinct_audios in N. rewrite E in N |- *.
  destruct (NoDup_map_split aid l1 l2 a N) as (F1 & F2 & _).
  change (a :: l2) with ([a] ++ l2). rewrite !visit_app.
  rewrite (visit_controls_other a l2) by exact F2.
  cbn [visit fold_left]. fold (visit l1 d).
  rewrite (controls_add_same a a) by
    (reflexivity || (apply distinct_audios_visit; unfold distinct_audios; rewrite E; exact N)).
  rewrite visit_keeps_unmarked.
  - rewrite (visit_controls_other a l1) by exact F1.
    pose proof (controls_le_buttons a d). lia.
  - eapply Forall_impl; [|exact F1]. intros b Hb.
    rewrite (cohabit_parent a b d P); [| unfold distinct_audios; rewrite E; exact N | exact HP].
    unfold occurs_audio. rewrite HA. cbn [existsb]. rewrite orb_false_r.
    apply Nat.eqb_neq. congruence.
  - eapply unmarked_without_buttons; eassumption.
Qed.

(** *** Audio elements that share a parent *)

Lemma occurs_audio_Elem (b : HTMLAudioElement) (kids : list Node) :
  occurs_audio b (Elem kids) = existsb (occurs_audio b) kids.
Proof. unfold occurs_audio. cbn [Dom.audios]. apply existsb_flat_map. Qed.

Lemma occurs_audio_kid (b : HTMLAudioElement) (kids : list Node) (k : Node) :
  In k kids -> occurs_audio b k = true -> occurs_audio b (Elem kids) = true.
Proof.
  intros Hk H. rewrite occurs_audio_Elem. apply existsb_exists. exists k.
  split; assumption.
Qed.

(** A marked parent of [b] strictly below [k] means a control below
    [k]. *)
Lemma marked_inside (b : HTMLAudioElement) (k : Node) :
  occurs_audio b k = true -> Dom.is_audio b k = false -> unmarked b k = false ->
  Dom.has_button k = true.
Proof.
  induction k as [x| | |kids IH] using Node_induction; try discriminate.
  - unfold occurs_audio. cbn [Dom.audios existsb Dom.is_audio].
    rewrite orb_false_r. congruence.
  - rewrite occurs_audio_Elem. intros O _. cbn [unmarked Dom.has_button].
    destruct (existsb (Dom.is_audio b) kids) eqn:D.
    + intros H. apply negb_false_iff in H. exact H.
    + intros H. apply existsb_exists in O. destruct O as (k & Hk & Ok).
      apply existsb_exists. exists k. split; [exact Hk|].
      apply existsb_false_Forall in D, H. rewrite Forall_forall in IH, D, H.
      apply IH; [exact Hk|exact Ok|apply D, Hk|apply H, Hk].
Qed.

(** Distinct audio elements occur below one child only. *)
Lemma distinct_one_kid (x : HTMLAudioElement) (kids : list Node) (k1 k2 : Node) :
  distinct_audios (Elem kids) -> In k1 kids -> In k2 kids ->
  occurs_audio x k1 = true -> occurs_audio x k2 = true -> k1 = k2.
Proof.
  induction kids as [|k kids IH]; intros N H1 H2 O1 O2; [destruct H1|].
  destruct (distinct_audios_kids _ _ N) as (_ & Nks & Disj).
  destruct H1 as [->|H1], H2 as [->|H2].
  - reflexivity.
  - exfalso. apply (Disj (aid x)); [apply occurs_audio_In, O1|].
    apply occurs_audio_In. apply (occurs_audio_kid x kids k2); assumption.
  - exfalso. apply (Disj (aid x)); [apply occurs_audio_In, O2|].
    apply occurs_audio_In. apply (occurs_audio_kid x kids k1); assumption.
  - apply IH; assumption.
Qed.

Lemma cohabit_occurs (a b : HTMLAudioElement) (n : Node) :
  cohabit a b n = true -> occurs_audio b n = true.
Proof.
  induction n as [| | |kids IH] using Node_induction; try discriminate.
  cbn [cohabit]. rewrite occurs_audio_Elem.
  destruct (existsb (Dom.is_audio a) kids); [intros H; exact H|].
  intros H. apply existsb_exists in H. destruct H as (k & Hk & Ck).
  apply existsb_exists. exists k. split; [exact Hk|].
  rewrite Forall_forall in IH. apply IH; assumption.
Qed.

Lemma cohabit_occurs_self (a b : HTMLAudioElement) (n : Node) :
  cohabit a b n = true -> occurs_audio a n = true.
Proof.
  intros C. destruct (Dom.parentElement a n) as [P|] eqn:E.
  - apply occurs_audio_In. eapply parent_occurs. exact E.
  - exfalso. exact (cohabit_has_parent a b n C E).
Qed.

(** The guard looks for any control below the parent: once the parent of
    [b] is marked, so is every parent that has [b] below it. *)
Lemma marked_spreads (a b : HTMLAudioElement) (n : Node) :
  distinct_audios n -> cohabit a b n = true -> unmarked b n = false ->
  unmarked a n = false.
Proof.
  induction n as [| | |kids IH] using Node_induction; try reflexivity.
  intros N. cbn [cohabit unmarked].
  destruct (existsb (Dom.is_audio a) kids) eqn:Da.
  - intros C. destruct (existsb (Dom.is_audio b) kids) eqn:Db; [intros H; exact H|].
    intros H. apply negb_false_iff.
    apply existsb_exists in C. destruct C as (k & Hk & Ok).
    apply existsb_exists. exists k. split; [exact Hk|].
    apply existsb_false_Forall in Db, H. rewrite Forall_forall in Db, H.
    apply (marked_inside b); [exact Ok|apply Db, Hk|apply H, Hk].
  - intros C. apply existsb_exists in C. destruct C as (k & Hk & Ck).
    destruct (existsb (Dom.is_audio b) kids) eqn:Db.
    + intros _. exfalso.
      apply existsb_exists in Db. destruct Db as (k' & Hk' & Bk').
      assert (E : k' = k).
      { apply (distinct_one_kid b kids); try assumption.
        - apply is_audio_occurs, Bk'.
        - eapply cohabit_occurs, Ck. }
      subst k'. destruct k; try discriminate Bk'. discriminate Ck.
    + intros H. apply existsb_false_Forall, Forall_forall. intros k' Hk'.
      destruct (unmarked a k') eqn:U; [|reflexivity].
      assert (E : k' = k).
      { apply (distinct_one_kid a kids); try assumption.
        - apply occurs_audio_In, unmarked_occurs, U.
        - eapply cohabit_occurs_self, Ck. }
      subst k'. rewrite <- U.
      apply existsb_false_Forall in H. rewrite Forall_forall in IH, H.
      apply IH; [exact Hk|eapply distinct_audios_kid; eassumption|exact Ck|apply H, Hk].
Qed.

Lemma visit_keeps_marked (a : HTMLAudioElement) (l : list HTMLAudioElement) (n : Node) :
  unmarked a n = false -> unmarked a (visit l n) = false.
Proof.
  revert n. induction l as [|b l IH]; intros n H; [exact H|].
  apply IH, add_keeps_marked, H.
Qed.

Lemma cohabit_visit (a b : HTMLAudioElement) (l : list HTMLAudioElement) (n : Node) :
  cohabit a b (visit l n) = cohabit a b n.
Proof.
  revert n. induction l as [|c l IH]; intros n; [reflexivity|].
  cbn [visit fold_left]. fold (visit l (addTranscribeButton c n)).
  rewrite IH. apply cohabit_add.
Qed.

(** The audio elements below the parent of [a] follow one another in the
    document. *)
Lemma parent_segment (a : HTMLAudioElement) (n P : Node) :
  Dom.parentElement a n = Some P ->
  exists pre post, Dom.audios n = pre ++ Dom.audios P ++ post.
Proof.
  revert P. induction n as [| | |kids IH] using Node_induction; try discriminate.
  intros P. rewrite parentElement_Elem.
  destruct (existsb (Dom.is_audio a) kids).
  - intros [= <-]. exists [], []. rewrite app_nil_r. reflexivity.
  - intros F. apply first_of_Some in F. destruct F as (k & Hk & Pk).
    rewrite Forall_forall in IH. destruct (IH _ Hk _ Pk) as (pre & post & E).
    destruct (in_split _ _ Hk) as (ks1 & ks2 & ->).
    exists (flat_map Dom.audios ks1 ++ pre), (post ++ flat_map Dom.audios ks2).
    cbn [Dom.audios]. rewrite flat_map_app. cbn [flat_map]. rewrite E.
    rewrite <- !app_assoc. reflexivity.
Qed.

Lemma parent_holds (a : HTMLAudioElement) (n P : Node) :
  Dom.parentElement a n = Some P -> occurs_audio a P = true.
Proof.
  revert P. induction n as [| | |kids IH] using Node_induction; try discriminate.
  intros P. rewrite parentElement_Elem.
  destruct (existsb (Dom.is_audio a) kids) eqn:D.
  - intros [= <-]. rewrite occurs_audio_Elem.
    apply existsb_exists in D. destruct D as (k & Hk & Ak).
    apply existsb_exists. exists k. split; [exact Hk|apply is_audio_occurs, Ak].
  - intros F. apply first_of_Some in F. destruct F as (k & Hk & Pk).
    rewrite Forall_forall in IH. apply (IH _ Hk _ Pk).
Qed.

Lemma NoDup_map_inj {A : Type} (f : A -> nat) (l : list A) (x y : A) :
  NoDup (List.map f l) -> In x l -> In y l -> f x = f y -> x = y.
Proof.
  induction l as [|z l IH]; intros N Hx Hy E; [destruct Hx|].
  cbn [List.map] in N. inversion N as [|? ? Hz Hl]; subst.
  destruct Hx as [->|Hx], Hy as [->|Hy].
  - reflexivity.
  - exfalso. apply Hz. rewrite E. apply in_map, Hy.
  - exfalso. apply Hz. rewrite <- E. apply in_map, Hx.
  - apply IH; assumption.
Qed.

Lemma NoDup_map_apart {A : Type} (f : A -> nat) (l1 l2 : list A) (x y : A) :
  NoDup (List.map f (l1 ++ l2)) -> In x l1 -> In y l2 -> f x <> f y.
Proof.
  induction l1 as [|z l1 IH]; intros N Hx Hy E; [destruct Hx|].
  cbn [app List.map] in N. inversion N as [|? ? Hz Hl]; subst.
  destruct Hx as [->|Hx].
  - apply Hz. rewrite E. apply in_map, in_or_app. right. exact Hy.
  - apply (IH Hl Hx Hy E).
Qed.

(** What [addTranscribeButton] adds to the controls of the tree. *)
Lemma buttons_add (b : HTMLAudioElement) (n : Node) :
  distinct_audios n ->
  Dom.buttons (addTranscribeButton b n) =
  Dom.buttons n + (if unmarked b n then 1 else 0).
Proof.
  induction n as [| | |kids IH] using Node_induction;
    try (intros _; cbn; lia).
  intros N. cbn [addTranscribeButton unmarked].
  destruct (existsb (Dom.is_audio b) kids).
  - destruct (Dom.querySelector_button (Elem kids)) eqn:Q.
    + destruct (existsb Dom.has_button kids) eqn:B; [cbn; lia|].
      apply querySelector_button_None in B. congruence.
    + apply querySelector_button_None in Q. rewrite Q. cbn [negb Dom.buttons].
      rewrite List.map_app, list_sum_app. cbn [List.map Dom.buttons list_sum fold_right].
      lia.
  - cbn [Dom.buttons]. rewrite map_map.
    induction IH as [|k kids Hk _ IHkids]; [reflexivity|].
    destruct (distinct_audios_kids _ _ N) as (Nk & Nks & Disj).
    cbn [List.map existsb]. rewrite !list_sum_cons, (Hk Nk), (IHkids Nks).
    destruct (unmarked b k) eqn:Uk; cbn [orb]; [|lia].
    destruct (existsb (unmarked b) kids) eqn:Uks; [|lia].
    exfalso. apply existsb_exists in Uks. destruct Uks as (k' & Hk' & Uk').
    apply (Disj (aid b)); [apply unmarked_occurs, Uk|].
    apply occurs_audio_In. apply (occurs_audio_kid b kids k'); [exact Hk'|].
    apply occurs_audio_In, unmarked_occurs, Uk'.
Qed.

(** A scan of a tree without controls binds a control to an audio element
    if and only if it is the first audio element, in document order, below
    its parent: the others find the parent marked. *)
Lemma scan_binds_first (d P : Node) (a : HTMLAudioElement) :
  distinct_audios d -> Dom.buttons d = 0 ->
  In a (Dom.querySelectorAll_audio d) ->
  Dom.parentElement a d = Some P ->
  Dom.controls a (addTranscribeButtonToAudio d) =
  match Dom.audios P with
  | first :: _ => if Nat.eqb (aid first) (aid a) then 1 else 0
  | [] => 0
  end.
Proof.
  intros N B Hin HP.
  unfold addTranscribeButtonToAudio. fold (visit (Dom.querySelectorAll_audio d) d).
  assert (Q : Dom.querySelectorAll_audio d = Dom.audios d)
    by (destruct d; try destruct Hin; reflexivity).
  rewrite Q in *.
  pose proof (controls_le_buttons a d) as Z.
  pose proof (parent_holds a d P HP) as O. unfold occurs_audio in O.
  destruct (parent_segment a d P HP) as (pre & post & E).
  destruct (Dom.audios P) as [|b rest] eqn:AP; [discriminate O|].
  assert (Hb : In b (Dom.audios d))
    by (rewrite E; apply in_or_app; right; left; reflexivity).
  assert (Cb : cohabit a b d = true).
  { rewrite (cohabit_parent a b d P N HP). unfold occurs_audio. rewrite AP.
    cbn [existsb]. rewrite Nat.eqb_refl. reflexivity. }
  destruct (Nat.eqb (aid b) (aid a)) eqn:A.
  - apply Nat.eqb_eq in A.
    assert (X : b = a) by (apply (NoDup_map_inj aid (Dom.audios d)); assumption).
    subst b. clear A Hb.
    cbn [app] in E. unfold distinct_audios in N. rewrite E in N |- *.
    destruct (NoDup_map_split aid pre (rest ++ post) a N) as (F1 & F2 & _).
    change (a :: rest ++ post) with ([a] ++ (rest ++ post)).
    rewrite (visit_app pre), (visit_app [a]).
    rewrite (visit_controls_other a (rest ++ post)) by exact F2.
    cbn [visit fold_left]. fold (visit pre d).
    rewrite (controls_add_same a a) by
      (reflexivity || (apply distinct_audios_visit; unfold distinct_audios;
                       rewrite E; exact N)).
    rewrite visit_keeps_unmarked.
    + rewrite (visit_controls_other a pre) by exact F1. lia.
    + apply Forall_forall. intros y Hy.
      rewrite (cohabit_parent a y d P); [| unfold distinct_audios; rewrite E; exact N | exact HP].
      unfold occurs_audio. rewrite AP.
      apply existsb_false_Forall, Forall_forall. intros x Hx.
      apply Nat.eqb_neq. intros X.
      apply (NoDup_map_apart aid pre (a :: rest ++ post) y x N Hy); [|congruence].
      change (a :: rest ++ post) with ((a :: rest) ++ post).
      apply in_or_app. left. exact Hx.
    + eapply unmarked_without_buttons; eassumption.
  - assert (Hr : In a rest).
    { cbn [existsb] in O. rewrite A in O. cbn [orb] in O.
      apply existsb_exists in O. destruct O as (x & Hx & Ex).
      apply Nat.eqb_eq in Ex.
      assert (X : x = a).
      { apply (NoDup_map_inj aid (Dom.audios d)); try assumption.
        rewrite E. apply in_or_app. right. apply in_or_app. left. right. exact Hx. }
      subst x. exact Hx. }
    destruct (in_split _ _ Hr) as (r1 & r2 & ->).
    assert (E' : Dom.audios d = (pre ++ b :: r1) ++ a :: (r2 ++ post)).
    { rewrite E. cbn [app]. repeat rewrite <- app_assoc. cbn [app]. reflexivity. }
    assert (Nd := N). unfold distinct_audios in N. rewrite E' in N |- *.
    destruct (NoDup_map_split aid (pre ++ b :: r1) (r2 ++ post) a N) as (F1 & F2 & _).
    change (a :: r2 ++ post) with ([a] ++ (r2 ++ post)).
    rewrite (visit_app (pre ++ b :: r1)), (visit_app [a]).
    rewrite (visit_controls_other a (r2 ++ post)) by exact F2.
    cbn [visit fold_left]. fold (visit (pre ++ b :: r1) d).
    rewrite (controls_add_same a a) by
      (reflexivity || (apply distinct_audios_visit; exact Nd)).
    rewrite (visit_controls_other a (pre ++ b :: r1)) by exact F1.
    change (b :: r1) with ([b] ++ r1). rewrite (visit_app pre), (visit_app [b]).
    rewrite visit_keeps_marked; [lia|].
    cbn [visit fold_left]. fold (visit pre d).
    apply (marked_spreads a b).
    + apply distinct_audios_add, distinct_audios_visit, Nd.
    + rewrite cohabit_add, cohabit_visit. exact Cb.
    + apply add_marks.
Qed.

Lemma parentElement_None_unmarked (a : HTMLAudioElement) (n : Node) :
  Dom.parentElement a n = None -> unmarked a n = false.
Proof.
  induction n as [| | |kids IH] using Node_induction; try reflexivity.
  rewrite parentElement_Elem. cbn [unmarked].
  destruct (existsb (Dom.is_audio a) kids); [discriminate|].
  intros H. apply first_of_None in H. apply existsb_false_Forall.
  rewrite Forall_forall in IH, H |- *. intros k Hk. apply IH; [exact Hk|apply H, Hk].
Qed.

(** With distinct audio elements, the guard of line 78 is what [unmarked]
    says: no control below [audio.parentElement]. *)
Lemma unmarked_parent (a : HTMLAudioElement) (n P : Node) :
  distinct_audios n -> Dom.parentElement a n = Some P ->
  unmarked a n = match Dom.querySelector_button P with
                 | None => true
                 | Some _ => false
                 end.
Proof.
  revert P. induction n as [| | |kids IH] using Node_induction; try discriminate.
  intros P N. rewrite parentElement_Elem. cbn [unmarked].
  destruct (existsb (Dom.is_audio a) kids).
  - intros [= <-].
    destruct (Dom.querySelector_button (Elem kids)) eqn:Q.
    + apply negb_false_iff.
      destruct (existsb Dom.has_button kids) eqn:B; [reflexivity|].
      apply querySelector_button_None in B. congruence.
    + apply querySelector_button_None in Q. rewrite Q. reflexivity.
  - induction IH as [|k kids Hk _ IHkids]; [discriminate|].
    destruct (distinct_audios_kids _ _ N) as (Nk & Nks & Disj).
    cbn [first_of existsb]. destruct (Dom.parentElement a k) as [P'|] eqn:Pk.
    + intros [= ->]. rewrite (Hk P Nk eq_refl).
      destruct (existsb (unmarked a) kids) eqn:X; [|apply orb_false_r].
      exfalso. apply existsb_exists in X. destruct X as (k' & Hk' & Uk').
      apply (Disj (aid a)); [eapply parent_occurs; exact Pk|].
      apply occurs_audio_In. apply (occurs_audio_kid a kids k'); [exact Hk'|].
      apply occurs_audio_In, unmarked_occurs, Uk'.
    + intros F. rewrite (parentElement_None_unmarked a k Pk). cbn [orb].
      apply IHkids; assumption.
Qed.

(** Lines 74-92, one call: nothing happens when the parent of the audio
    element holds a control, whose ever it is; otherwise one control is
    added, bound to the audio element. *)
Lemma guard_of_addTranscribeButton (a : HTMLAudioElement) (n P : Node) :
  distinct_audios n -> Dom.parentElement a n = Some P ->
  match Dom.querySelector_button P with
  | Some _ => addTranscribeButton a n = n
  | None => Dom.controls a (addTranscribeButton a n) = S (Dom.controls a n) /\
            Dom.buttons (addTranscribeButton a n) = S (Dom.buttons n)
  end.
Proof.
  intros N HP. pose proof (unmarked_parent a n P N HP) as U.
  destruct (Dom.querySelector_button P).
  - apply add_marked, U.
  - rewrite (controls_add_same a a n eq_refl N), (buttons_add a n N), U. lia.
Qed.

(** ** Batches of mutation records *)

Lemma unmarked_aid (a b : HTMLAudioElement) (n : Node) :
  aid a = aid b -> unmarked a n = unmarked b n.
Proof.
  intros E. induction n as [c|c|pid|kids IH] using Node_induction; try reflexivity.
  cbn [unmarked].
  assert (A : existsb (Dom.is_audio a) kids = existsb (Dom.is_audio b) kids).
  { clear IH. induction kids as [|k kids IHk]; [reflexivity|].
    cbn [existsb]. rewrite IHk. f_equal.
    destruct k; try reflexivity. cbn [Dom.is_audio]. rewrite E. reflexivity. }
  rewrite A. clear A. destruct (existsb (Dom.is_audio b) kids); [reflexivity|].
  induction IH as [|k kids Hk _ IHk]; [reflexivity|].
  cbn [existsb]. rewrite Hk, IHk. reflexivity.
Qed.

Lemma bound_add (b : HTMLAudioElement) (n : Node) :
  bound n -> addTranscribeButton b n = n.
Proof.
  intros B. destruct (unmarked b n) eqn:U; [|apply add_marked; exact U].
  exfalso. pose proof (unmarked_occurs b n U) as O.
  apply in_map_iff in O. destruct O as (a & E & Hin).
  destruct n as [c|c|pid|kids]; try discriminate U.
  rewrite (unmarked_aid b a) in U by (symmetry; exact E).
  rewrite (B a) in U; [discriminate|]. exact Hin.
Qed.

Lemma nth_error_update_nth (g : Node -> Node) (ks : list Node) (i j : nat) :
  nth_error (update_nth j g ks) i =
  if Nat.eqb i j then option_map g (nth_error ks i) else nth_error ks i.
Proof.
  revert i j. induction ks as [|k ks IH]; intros i j.
  - destruct i, j; cbn [update_nth nth_error option_map];
      try destruct (Nat.eqb _ _); reflexivity.
  - destruct i as [|i], j as [|j]; try reflexivity.
    cbn [update_nth nth_error]. rewrite IH. reflexivity.
Qed.

Lemma update_nth_fixed (g : Node -> Node) (ks : list Node) (j : nat) :
  match nth_error ks j with Some k => g k = k | None => True end ->
  update_nth j g ks = ks.
Proof.
  revert j. induction ks as [|k ks IH]; intros [|j] H; try reflexivity.
  - cbn in H. cbn [update_nth]. rewrite H. reflexivity.
  - cbn [update_nth]. rewrite IH; [reflexivity|exact H].
Qed.

Lemma settled_add (b : HTMLAudioElement) (r : list nat) (n : Node) :
  settled_at r n -> settled_at r (addTranscribeButton b n).
Proof.
  revert n. induction r as [|i r IH]; intros n H.
  - unfold settled_at in *. cbn [node_at] in *. rewrite bound_add; exact H.
  - destruct n as [c|c|pid|kids]; try exact H.
    cbn [addTranscribeButton].
    destruct (existsb (Dom.is_audio b) kids).
    + destruct (Dom.querySelector_button (Elem kids)); [exact H|].
      unfold settled_at in *. cbn [node_at] in *.
      destruct (Nat.lt_ge_cases i (length kids)) as [L|L].
      * rewrite nth_error_app1 by exact L. exact H.
      * rewrite nth_error_app2 by exact L.
        destruct (i - length kids) as [|[|d]]; cbn [nth_error]; try exact I.
        destruct r; cbn [node_at]; [|exact I]. intros a [].
    + unfold settled_at in *. cbn [node_at] in *.
      rewrite nth_error_map. destruct (nth_error kids i) as [k|]; [|exact I].
      cbn [option_map]. apply IH. exact H.
Qed.

Lemma settled_visit (l : list HTMLAudioElement) (r : list nat) (n : Node) :
  settled_at r n -> settled_at r (visit l n).
Proof.
  revert n. induction l as [|b l IH]; intros n H; [exact H|].
  cbn [visit fold_left]. apply IH, settled_add, H.
Qed.

Lemma grows_refl (n : Node) : grows n n.
Proof. repeat split; auto. Qed.

Lemma grows_trans (n1 n2 n3 : Node) : grows n1 n2 -> grows n2 n3 -> grows n1 n3.
Proof.
  intros (A1 & B1 & C1 & D1) (A2 & B2 & C2 & D2). repeat split.
  - intros a. rewrite A2. apply A1.
  - auto.
  - auto.
  - congruence.
Qed.

Lemma grows_add (b : HTMLAudioElement) (n : Node) : grows n (addTranscribeButton b n).
Proof.
  repeat split.
  - intros a. apply is_audio_add.
  - apply has_button_add.
  - intros a. apply add_keeps_marked.
  - apply audios_add.
Qed.

Lemma grows_visit (l : list HTMLAudioElement) (n : Node) : grows n (visit l n).
Proof.
  revert n. induction l as [|b l IH]; intros n; [apply grows_refl|].
  cbn [visit fold_left]. eapply grows_trans; [apply grows_add|apply IH].
Qed.

Lemma grows_Elem (ks ks' : list Node) :
  Forall2 grows ks ks' -> grows (Elem ks) (Elem ks').
Proof.
  intros F. repeat split.
  - cbn [Dom.has_button]. induction F as [|k k' ks ks' (_ & B & _) _ IH]; [auto|].
    cbn [existsb]. intros H. apply orb_true_iff in H. apply orb_true_iff.
    destruct H; [left|right]; auto.
  - intros a. cbn [unmarked].
    assert (A : existsb (Dom.is_audio a) ks' = existsb (Dom.is_audio a) ks).
    { induction F as [|k k' ks ks' (A & _) _ IH]; [reflexivity|].
      cbn [existsb]. rewrite A, IH. reflexivity. }
    rewrite A. destruct (existsb (Dom.is_audio a) ks).
    + intros H. apply negb_false_iff in H. apply negb_false_iff.
      clear A. induction F as [|k k' ks ks' (_ & B & _) _ IH]; [exact H|].
      cbn [existsb] in *. apply orb_true_iff in H. apply orb_true_iff.
      destruct H; [left|right]; auto.
    + clear A. induction F as [|k k' ks ks' (_ & _ & C & _) _ IH]; [auto|].
      cbn [existsb]. intros H. apply orb_false_iff in H. destruct H as [H1 H2].
      apply orb_false_iff. split; auto.
  - cbn [Dom.audios]. induction F as [|k k' ks ks' (_ & _ & _ & D) _ IH]; [reflexivity|].
    cbn [flat_map]. rewrite D, IH. reflexivity.
Qed.

Lemma update_nth_Forall2 (R : Node -> Node -> Prop) (g : Node -> Node) :
  (forall k, R k k) -> (forall k, R k (g k)) ->
  forall j ks, Forall2 R ks (update_nth j g ks).
Proof.
  intros Hr Hg j ks. revert j.
  induction ks as [|k ks IH]; intros [|j]; cbn [update_nth]; constructor; auto.
  clear IH. induction ks; constructor; auto.
Qed.

Lemma grows_update_at (f : Node -> Node) :
  (forall k, grows k (f k)) -> forall r k, grows k (update_at r f k).
Proof.
  intros Hf r. induction r as [|j r IH]; intros k; [apply Hf|].
  destruct k as [c|c|pid|kids]; try apply grows_refl.
  cbn [update_at]. apply grows_Elem, update_nth_Forall2; [apply grows_refl|apply IH].
Qed.

Lemma bound_grows (n n' : Node) : grows n n' -> bound n -> bound n'.
Proof.
  intros (A & _ & C & D) B a Hin.
  destruct n' as [c|c|pid|kids']; try (destruct Hin).
  destruct n as [c|c|pid|kids].
  - specialize (A c). cbn [Dom.is_audio] in A. rewrite Nat.eqb_refl in A. discriminate.
  - cbn [Dom.audios Dom.querySelectorAll_audio] in *. rewrite D in Hin. destruct Hin.
  - cbn [Dom.audios Dom.querySelectorAll_audio] in *. rewrite D in Hin. destruct Hin.
  - apply C, B. cbn [Dom.audios Dom.querySelectorAll_audio] in *.
    rewrite <- D. exact Hin.
Qed.

Lemma settled_update_at (p q : list nat) (n : Node) :
  settled_at p n -> settled_at p (update_at q addTranscribeButtonToAudio n).
Proof.
  revert p n. induction q as [|j q IH]; intros p n H.
  - cbn [update_at]. apply (settled_visit (Dom.querySelectorAll_audio n)), H.
  - destruct n as [c|c|pid|kids]; try exact H.
    destruct p as [|i p].
    + unfold settled_at in *. cbn [node_at] in *.
      eapply bound_grows; [|exact H].
      apply grows_update_at. intros k. apply grows_visit.
    + unfold settled_at in *. cbn [node_at update_at] in *.
      rewrite nth_error_update_nth.
      destruct (Nat.eqb i j); [|exact H].
      destruct (nth_error kids i) as [k|]; [|exact I].
      cbn [option_map]. apply IH, H.
Qed.

Lemma bound_scan (n : Node) : bound (addTranscribeButtonToAudio n).
Proof.
  intros a Hin. apply scan_marks.
  unfold addTranscribeButtonToAudio in Hin.
  fold (visit (Dom.querySelectorAll_audio n) n) in Hin.
  rewrite querySelectorAll_audio_visit in Hin. exact Hin.
Qed.

Lemma settled_after_scan (p : list nat) (n : Node) :
  settled_at p (update_at p addTranscribeButtonToAudio n).
Proof.
  revert n. induction p as [|i p IH]; intros n; [apply bound_scan|].
  destruct n as [c|c|pid|kids]; try exact I.
  unfold settled_at. cbn [node_at update_at].
  rewrite nth_error_update_nth, Nat.eqb_refl.
  destruct (nth_error kids i) as [k|]; [|exact I].
  cbn [option_map]. apply IH.
Qed.

Lemma settled_fixed (p : list nat) (n : Node) :
  settled_at p n -> update_at p addTranscribeButtonToAudio n = n.
Proof.
  revert n. induction p as [|i p IH]; intros n H.
  - cbn [update_at]. apply (visit_marked (Dom.querySelectorAll_audio n)).
    apply Forall_forall. exact H.
  - destruct n as [c|c|pid|kids]; try reflexivity.
    cbn [update_at]. f_equal. apply update_nth_fixed.
    unfold settled_at in H. cbn [node_at] in H.
    destruct (nth_error kids i) as [k|]; [|exact I]. apply IH, H.
Qed.

Lemma observerCallback_cons (m : MutationRecord) (ms : list MutationRecord) (b : Node) :
  observerCallback (m :: ms) b = observerCallback ms (observerCallback [m] b).
Proof. reflexivity. Qed.

Lemma settled_observer (ms : list MutationRecord) (p : list nat) (b : Node) :
  settled_at p b -> settled_at p (observerCallback ms b).
Proof.
  revert b. induction ms as [|m ms IH]; intros b H; [exact H|].
  rewrite observerCallback_cons. apply IH.
  unfold observerCallback. cbn [fold_left].
  destruct (mtype m); [apply settled_update_at|..]; exact H.
Qed.

Lemma observer_settles (ms : list MutationRecord) (b : Node) (m : MutationRecord) :
  In m ms -> mtype m = childList -> settled_at (target m) (observerCallback ms b).
Proof.
  intros Hin T. revert b. induction ms as [|m0 ms IH]; intros b; [destruct Hin|].
  rewrite observerCallback_cons. destruct Hin as [->|Hin]; [|apply IH, Hin].
  apply settled_observer. unfold observerCallback. cbn [fold_left].
  rewrite T. apply settled_after_scan.
Qed.

Lemma observer_fixed (ms : list MutationRecord) (b : Node) :
  (forall m, In m ms -> mtype m = childList -> settled_at (target m) b) ->
  observerCallback ms b = b.
Proof.
  induction ms as [|m ms IH]; intros H; [reflexivity|].
  rewrite observerCallback_cons.
  assert (E : observerCallback [m] b = b).
  { unfold observerCallback. cbn [fold_left].
    destruct (mtype m) eqn:T; try reflexivity.
    apply settled_fixed, H; [left; reflexivity|exact T]. }
  rewrite E. apply IH. intros m' Hin. apply H. right. exact Hin.
Qed.

Lemma bound_marker (n : Node) (a : HTMLAudioElement) :
  bound n -> In a (Dom.querySelectorAll_audio n) ->
  exists P p, Dom.parentElement a n = Some P /\ Dom.querySelector_button P = Some p.
Proof.
  intros B Hin.
  destruct (Dom.parentElement a n) as [P|] eqn:E;
    [|exfalso; exact (parentElement_exists _ _ Hin E)].
  pose proof (marked_parent_has_button a _ P E (B a Hin)) as Q.
  destruct (Dom.querySelector_button P) as [p|] eqn:F; [|contradiction].
  exists P, p. split; [reflexivity|exact F].
Qed.

(** A [childList] record makes the observer run the scan of the
    post-processor on the record's target. *)
Lemma observerCallback_childList (p : list nat) (body : Node) :
  observerCallback [{| mtype := childList; target := p |}] body =
  update_at p addTranscribeButtonToAudio body.
Proof. reflexivity. Qed.

(** C3 as the code has it.  One call of [addTranscribeButton] does
    nothing when the parent of the audio element holds a control, whose
    ever it is, and otherwise adds one control, bound to that audio
    element.  For the scan of a root [el] by the post-processor: scanning
    again changes nothing; after the scan the parent of every audio element
    below [el] holds a control; and when the audio elements are distinct
    and [el] held no control, an audio element has one control bound to it
    when it is the first audio element, in document order, below its
    parent, and none otherwise, so that no audio element has more than one
    control, and one that is the only audio element below its parent has
    exactly one.  For a batch of mutation records delivered to the
    observer: after the batch, the parent of every audio element below the
    target of a [childList] record holds a control, and handling the same
    batch again changes nothing. *)
Theorem scan_attaches_controls
    (el body : Node) (mutations : list MutationRecord) :
  (forall a n P,
     distinct_audios n -> Dom.parentElement a n = Some P ->
     match Dom.querySelector_button P with
     | Some _ => addTranscribeButton a n = n
     | None => Dom.controls a (addTranscribeButton a n) = S (Dom.controls a n) /\
               Dom.buttons (addTranscribeButton a n) = S (Dom.buttons n)
     end) /\
  addTranscribeButtonToAudio (addTranscribeButtonToAudio el) =
    addTranscribeButtonToAudio el /\
  (forall a, In a (Dom.querySelectorAll_audio el) ->
     exists P p, Dom.parentElement a (addTranscribeButtonToAudio el) = Some P /\
                 Dom.querySelector_button P = Some p) /\
  (distinct_audios el -> Dom.buttons el = 0 ->
   forall a,
     Dom.controls a (addTranscribeButtonToAudio el) <= 1 /\
     forall P, In a (Dom.querySelectorAll_audio el) ->
               Dom.parentElement a el = Some P ->
               Dom.controls a (addTranscribeButtonToAudio el) =
                 match Dom.audios P with
                 | first :: _ => if Nat.eqb (aid first) (aid a) then 1 else 0
                 | [] => 0
                 end /\
               (Dom.audios P = [a] ->
                Dom.controls a (addTranscribeButtonToAudio el) = 1)) /\
  (forall m changed a,
     In m mutations -> mtype m = childList ->
     node_at (target m) (observerCallback mutations body) = Some changed ->
     In a (Dom.querySelectorAll_audio changed) ->
     exists P p, Dom.parentElement a changed = Some P /\
                 Dom.querySelector_button P = Some p) /\
  observerCallback mutations (observerCallback mutations body) =
    observerCallback mutations body.
Proof.
  split; [intros a n P; apply guard_of_addTranscribeButton|].
  split; [apply scan_idempotent|]. split; [|split; [|split]].
  - intros a Hin. apply bound_marker; [apply bound_scan|].
    unfold addTranscribeButtonToAudio. fold (visit (Dom.querySelectorAll_audio el) el).
    rewrite querySelectorAll_audio_visit. exact Hin.
  - intros N B a. split.
    + unfold addTranscribeButtonToAudio. fold (visit (Dom.querySelectorAll_audio el) el).
      pose proof (controls_le_buttons a el) as L.
      etransitivity; [apply visit_controls_le|lia]; [|exact N].
      rewrite querySelectorAll_audio_audios. destruct el; try constructor. exact N.
    + intros P Hin HP. split.
      * apply scan_binds_first; assumption.
      * intros HA. eapply scan_binds_one; eassumption.
  - intros m changed a Hin T E Ha.
    pose proof (observer_settles mutations body m Hin T) as S.
    unfold settled_at in S. rewrite E in S. apply bound_marker; assumption.
  - apply observer_fixed. intros m Hin T. apply observer_settles; assumption.
Qed.

Lemma scan_attaches_controls_witness :
  let el := Example.two_embeds in
  let batch := [{| mtype := childList; target := [0] |};
                {| mtype := childList; target := [] |}] in
  addTranscribeButtonToAudio (addTranscribeButtonToAudio el) =
    addTranscribeButtonToAudio el /\
  Dom.controls Example.memo (addTranscribeButtonToAudio el) = 1 /\
  Dom.controls Example.talk (addTranscribeButtonToAudio el) = 1 /\
  observerCallback batch (observerCallback batch el) = observerCallback batch el /\
  Dom.controls Example.memo (addTranscribeButtonToAudio Example.siblings) = 1 /\
  Dom.controls Example.talk (addTranscribeButtonToAudio Example.siblings) = 0 /\
  addTranscribeButton Example.talk
    (addTranscribeButton Example.memo Example.siblings) =
  addTranscribeButton Example.memo Example.siblings.
Proof.
  assert (W1 : distinct_audios Example.two_embeds).
  { unfold distinct_audios. cbn. repeat constructor; cbn; intuition discriminate. }
  assert (W2 : Dom.buttons Example.two_embeds = 0) by reflexivity.
  assert (W3 : distinct_audios Example.siblings).
  { unfold distinct_audios. cbn. repeat constructor; cbn; intuition discriminate. }
  assert (W4 : Dom.buttons Example.siblings = 0) by reflexivity.
  assert (W5 : distinct_audios (addTranscribeButton Example.memo Example.siblings)).
  { unfold distinct_audios. cbn. repeat constructor; cbn; intuition discriminate. }
  cbv zeta.
  destruct (scan_attaches_controls Example.two_embeds Example.two_embeds
              [{| mtype := childList; target := [0] |};
               {| mtype := childList; target := [] |}]) as (_ & I & _ & C & _ & O).
  destruct (scan_attaches_controls Example.siblings Example.siblings [])
    as (G & _ & _ & S & _).
  split; [exact I|]. split; [|split; [|split; [exact O|split; [|split]]]].
  - apply (proj2 (C W1 W2 Example.memo) (Elem [Audio Example.memo])).
    + left. reflexivity.
    + reflexivity.
    + reflexivity.
  - apply (proj2 (C W1 W2 Example.talk) (Elem [Audio Example.talk])).
    + right. left. reflexivity.
    + reflexivity.
    + reflexivity.
  - exact (proj1 (proj2 (S W3 W4 Example.memo) Example.siblings
                    (or_introl eq_refl) eq_refl)).
  - exact (proj1 (proj2 (S W3 W4 Example.talk) Example.siblings
                    (or_intror (or_introl eq_refl)) eq_refl)).
  - exact (G Example.talk (addTranscribeButton Example.memo Example.siblings)
             (addTranscribeButton Example.memo Example.siblings) W5 eq_refl).
Defined.

(** C3 fails on the code: of two audio elements that share their parent,
    the second gets no control. *)
Lemma shared_parent_leaves_one_without_control :
  let el := Example.siblings in
  In Example.talk (Dom.querySelectorAll_audio el) /\
  addTranscribeButtonToAudio el =
    Elem [Audio Example.memo; Audio Example.talk; TranscribeButton Example.memo] /\
  Dom.controls Example.talk (addTranscribeButtonToAudio el) = 0 /\
  Dom.controls Example.talk (addTranscribeButtonToAudio el) <> 1.
Proof.
  cbv zeta. split; [right; left; reflexivity|].
  split; [reflexivity|]. split; [reflexivity|]. discriminate.
Qed.

(** ** File names *)

Lemma split_after_slash (dir name : string) :
  slash_free name = true ->
  Str.split "/" name = [name] /\
  exists first middle,
    Str.split "/" (dir ++ String "/" name) = first :: middle ++ [name].
Proof.
  intros F.
  assert (S1 : Str.split "/" name = [name]).
  { induction name as [|c name IH]; [reflexivity|].
    cbn [slash_free] in F. apply andb_true_iff in F. destruct F as [C F].
    cbn [Str.split]. apply negb_true_iff in C. rewrite C, (IH F). reflexivity. }
  split; [exact S1|].
  induction dir as [|c dir (first & middle & IH)].
  - exists EmptyString, [].
    change ((EmptyString ++ String "/" name)%string) with (String "/" name).
    cbn [Str.split]. rewrite ?Ascii.eqb_refl, S1. reflexivity.
  - change ((String c dir ++ String "/" name)%string)
      with (String c (dir ++ String "/" name)).
    cbn [Str.split]. rewrite IH. destruct (Ascii.eqb c "/").
    + exists EmptyString, (first :: middle). reflexivity.
    + exists (String c first), middle. reflexivity.
Qed.

Lemma pop_last (segs : list string) (seg : string) :
  Str.pop (segs ++ [seg]) = Some seg.
Proof.
  unfold Str.pop. rewrite List.map_app. cbn [List.map]. apply last_last.
Qed.

(** The label of a job names the file: [fileNameOf] gives what follows the
    last ['/'] of the URL (the whole URL when it has none), and
    ['Unknown File'] when nothing follows it; it is never empty. *)
Theorem fileNameOf_last_segment (dir name url : string) :
  slash_free name = true ->
  fileNameOf (dir ++ String "/" name) =
    (if Str.is_empty name then "Unknown File" else name)%string /\
  fileNameOf name = (if Str.is_empty name then "Unknown File" else name)%string /\
  fileNameOf url <> EmptyString.
Proof.
  intros F. destruct (split_after_slash dir name F) as (S1 & first & middle & S2).
  unfold fileNameOf. rewrite S1, S2.
  change (first :: middle ++ [name]) with ((first :: middle) ++ [name]).
  rewrite pop_last. change (Str.pop [name]) with (Some name).
  split; [reflexivity|]. split; [reflexivity|].
  destruct (Str.pop (Str.split "/" url)) as [[|c seg]|]; discriminate.
Qed.

Lemma fileNameOf_last_segment_witness :
  fileNameOf "app://local/vault/memo.mp3" = "memo.mp3"%string /\
  fileNameOf "app://local/vault/" = "Unknown File"%string.
Proof.
  split.
  - apply (proj1 (fileNameOf_last_segment "app://local/vault" "memo.mp3" EmptyString
                    eq_refl)).
  - apply (proj1 (fileNameOf_last_segment "app://local/vault" EmptyString EmptyString
                    eq_refl)).
Defined.

(** ** Settings *)

Lemma assoc_set_prop (key k : string) (v : JsVal) (fields : list (string * JsVal)) :
  Js.assoc key (set_prop k v fields) =
  if String.eqb k key then v else Js.assoc key fields.
Proof.
  induction fields as [|[k0 x] rest IH]; [reflexivity|].
  cbn [set_prop]. destruct (String.eqb k0 k) eqn:E.
  - apply String.eqb_eq in E. subst k0. cbn [Js.assoc].
    destruct (String.eqb k key); reflexivity.
  - cbn [Js.assoc]. rewrite IH.
    destruct (String.eqb k0 key) eqn:E0; [|reflexivity].
    apply String.eqb_eq in E0. subst k0.
    rewrite String.eqb_sym, E. reflexivity.
Qed.

Lemma assoc_assign (key : string) (entries target : list (string * JsVal)) :
  NoDup (List.map fst entries) ->
  Js.assoc key (fold_left (fun t kv => set_prop (fst kv) (snd kv) t) entries target) =
  if has_property key entries then Js.assoc key entries else Js.assoc key target.
Proof.
  revert target. induction entries as [|[k v] rest IH]; intros target N; [reflexivity|].
  inversion N as [|? ? Hk Hrest]; subst.
  cbn [fold_left fst snd]. rewrite (IH _ Hrest), assoc_set_prop.
  unfold has_property. cbn [existsb fst Js.assoc]. fold (has_property key rest).
  destruct (String.eqb k key) eqn:E; [|reflexivity].
  apply String.eqb_eq in E. subst k.
  assert (H : has_property key rest = false).
  { unfold has_property. apply not_true_iff_false. intros H.
    apply existsb_exists in H. destruct H as ([k x] & Hin & Hx).
    apply String.eqb_eq in Hx. cbn in Hx. subst k.
    apply Hk. apply in_map_iff. exists (key, x). split; [reflexivity|exact Hin]. }
  rewrite H. reflexivity.
Qed.

Lemma filter_keys_NoDup (p : string * JsVal -> bool) (l : list (string * JsVal)) :
  NoDup (List.map fst l) -> NoDup (List.map fst (List.filter p l)).
Proof.
  induction l as [|kv l IH]; intros N; [constructor|].
  inversion N as [|? ? Hk Hl]; subst. cbn [List.filter].
  destruct (p kv); [|apply IH, Hl].
  cbn [List.map]. constructor; [|apply IH, Hl].
  intros H. apply Hk. apply in_map_iff in H. destruct H as (kv' & E & Hin).
  apply filter_In in Hin. rewrite <- E. apply in_map, Hin.
Qed.

Lemma properties_NoDup (fields : list (string * JsVal)) :
  NoDup (List.map fst (properties fields)).
Proof.
  induction fields as [|[k v] rest IH]; [constructor|].
  cbn [properties List.map fst]. constructor; [|apply filter_keys_NoDup, IH].
  intros H. apply in_map_iff in H. destruct H as ([k' x] & E & Hin).
  cbn in E. subst k'. apply filter_In in Hin. destruct Hin as [_ Hne].
  cbn in Hne. rewrite String.eqb_refl in Hne. discriminate.
Qed.

Lemma assoc_filter_other (key k : string) (l : list (string * JsVal)) :
  String.eqb k key = false ->
  Js.assoc key (List.filter (fun kv => negb (String.eqb (fst kv) k)) l) = Js.assoc key l.
Proof.
  intros E. induction l as [|[k0 x] l IH]; [reflexivity|].
  cbn [List.filter fst]. destruct (String.eqb k0 k) eqn:E0; cbn [negb Js.assoc].
  - apply String.eqb_eq in E0. subst k0. rewrite E. exact IH.
  - rewrite IH. reflexivity.
Qed.

Lemma has_property_filter_other (key k : string) (l : list (string * JsVal)) :
  String.eqb k key = false ->
  has_property key (List.filter (fun kv => negb (String.eqb (fst kv) k)) l) =
  has_property key l.
Proof.
  intros E. unfold has_property. induction l as [|[k0 x] l IH]; [reflexivity|].
  cbn [List.filter fst]. destruct (String.eqb k0 k) eqn:E0; cbn [negb existsb fst].
  - apply String.eqb_eq in E0. subst k0. rewrite E. exact IH.
  - rewrite IH. reflexivity.
Qed.

Lemma assoc_properties (key : string) (fields : list (string * JsVal)) :
  Js.assoc key (properties fields) = Js.assoc key fields /\
  has_property key (properties fields) = has_property key fields.
Proof.
  induction fields as [|[k v] rest [IH1 IH2]]; [split; reflexivity|].
  cbn [properties Js.assoc]. unfold has_property. cbn [existsb fst].
  fold (has_property key
          (List.filter (fun kv => negb (String.eqb (fst kv) k)) (properties rest))).
  fold (has_property key rest).
  destruct (String.eqb k key) eqn:E; [split; reflexivity|].
  rewrite assoc_filter_other, has_property_filter_other by exact E.
  split; [exact IH1|exact IH2].
Qed.

Lemma assoc_absent (key : string) (fields : list (string * JsVal)) :
  has_property key fields = false -> Js.assoc key fields = JUndefined.
Proof.
  unfold has_property. induction fields as [|[k v] rest IH]; [reflexivity|].
  cbn [existsb fst Js.assoc]. intros H. apply orb_false_iff in H.
  destruct H as [-> H]. apply IH, H.
Qed.

(** What [loadSettings] leaves in [this.settings]: a property of the data
    file wins over the default of the same name, a property the file lacks
    has its default, and a property the interface does not know is kept;
    without a data file the settings are the defaults. *)
Theorem loadSettings_merges (fields : list (string * JsVal)) (key : string) :
  Js.assoc key (loadSettings (JObj fields)) =
    (if has_property key fields then Js.assoc key fields
     else Js.assoc key (object_of DEFAULT_SETTINGS)) /\
  loadSettings JNull = object_of DEFAULT_SETTINGS /\
  loadSettings JUndefined = object_of DEFAULT_SETTINGS /\
  effective (loadSettings JNull) = DEFAULT_SETTINGS.
Proof.
  split; [|repeat split].
  unfold loadSettings, Object_assign. cbn [fold_left own_entries].
  rewrite assoc_assign by apply properties_NoDup.
  destruct (assoc_properties key fields) as [-> ->].
  destruct (has_property key fields); [reflexivity|].
  rewrite assoc_assign by apply properties_NoDup.
  destruct (assoc_properties key (object_of DEFAULT_SETTINGS)) as [-> ->].
  destruct (has_property key (object_of DEFAULT_SETTINGS)) eqn:H; [reflexivity|].
  symmetry. apply assoc_absent, H.
Qed.

Lemma object_of_stored (st : MyPluginSettings) :
  json_image (JObj (object_of st)) = JObj (object_of st) /\
  loadSettings (JObj (object_of st)) = object_of st /\
  effective (object_of st) = st.
Proof. destruct st. repeat split. Qed.

(** Settings that are saved and loaded again are the same settings. *)
Theorem saved_settings_load_back (st : MyPluginSettings) (previous : JsVal) :
  let p := saveSettings {| in_memory := object_of st; data_json := previous |} in
  loadSettings (data_json p) = object_of st /\
  effective (loadSettings (data_json p)) = st.
Proof.
  cbv zeta. unfold saveSettings. cbn [data_json in_memory].
  destruct (object_of_stored st) as (-> & -> & ->). split; reflexivity.
Qed.

Lemma onChange_typed (c : Change) (st : MyPluginSettings) (d : JsVal) :
  onChange c {| in_memory := object_of st; data_json := d |} =
  {| in_memory := object_of (changed c st);
     data_json := JObj (object_of (changed c st)) |}.
Proof. destruct c, st; reflexivity. Qed.

(** Every change made in the settings tab takes effect on the settings in
    memory and is in the data file at once: after any changes, the file
    holds the settings in memory, and loading it gives them back. *)
Theorem tab_changes_are_persisted
    (changes : list Change) (st : MyPluginSettings) (previous : JsVal) :
  changes <> [] ->
  let p := fold_left (fun p c => onChange c p) changes
             {| in_memory := object_of st; data_json := previous |} in
  let st' := fold_left (fun st c => changed c st) changes st in
  in_memory p = object_of st' /\
  data_json p = JObj (in_memory p) /\
  loadSettings (data_json p) = in_memory p /\
  effective (in_memory p) = st'.
Proof.
  intros N. cbv zeta. destruct changes as [|c changes]; [contradiction|clear N].
  cbn [fold_left]. rewrite onChange_typed.
  generalize (changed c st). clear c st previous. intros st.
  revert st. induction changes as [|c changes IH]; intros st.
  - cbn [fold_left in_memory data_json].
    destruct (object_of_stored st) as (_ & L & E).
    repeat split; assumption.
  - cbn [fold_left]. rewrite onChange_typed. apply IH.
Qed.

Lemma tab_changes_are_persisted_witness :
  let p := fold_left (fun p c => onChange c p)
             [EnableOllama true; WhisperAddress "localhost:9000"]
             {| in_memory := loadSettings JNull; data_json := JNull |} in
  settingOllamaToggle (effective (loadSettings (data_json p))) = true /\
  settingWhisperIP (effective (loadSettings (data_json p))) = "localhost:9000"%string /\
  settingOllamaIP (effective (loadSettings (data_json p))) = "192.168.1.10:11434"%string.
Proof.
  assert (W : [EnableOllama true; WhisperAddress "localhost:9000"] <> []) by discriminate.
  destruct (tab_changes_are_persisted
              [EnableOllama true; WhisperAddress "localhost:9000"]
              DEFAULT_SETTINGS JNull W) as (M & D & L & E).
  cbv zeta. change (loadSettings JNull) with (object_of DEFAULT_SETTINGS).
  rewrite L, E. repeat split.
Defined.

(** ** The result inserter, case by case *)

(** [displayTranscriptionResult] runs to its end without suspending.  It
    looks for the control first and for the editor second; with both there
    it inserts the trimmed text, or throws a [TypeError] before any call on
    the editor when it is handed something that is not a string.  The
    notice of line 261 is never shown: an element that [querySelector]
    finds below another has a parent. *)
Theorem displayTranscriptionResult_cases
    (a : HTMLAudioElement) (v : JsVal) (s : Sys) :
  start (displayTranscriptionResult a v) s =
  match anchor a s, activeEditor s with
  | None, _ => (emit (Notice "Transcribe button not found!") s, Ret tt)
  | Some _, None => (emit (Notice "No active editor found!") s, Ret tt)
  | Some _, Some ed =>
      match v with
      | JStr text => (set_activeEditor (Some (inserted (Str.trim text) ed)) s, Ret tt)
      | _ => (s, Throw TypeError)
      end
  end.
Proof.
  unfold displayTranscriptionResult, anchor, parentElement_of. run.
  destruct (option_bind _ _ Dom.querySelector_button
              (first_of (Dom.parentElement a) (body s :: detached s)))
    as [p|] eqn:B; [|reflexivity].
  destruct (activeEditor s) as [ed|]; [|reflexivity].
  destruct (Dom.parentElement_path p) eqn:P;
    [|exfalso; eapply found_button_has_parent; eassumption].
  destruct v; cbn [Js.trim lift bind start modify]; try reflexivity.
  unfold Editor_setCursor, Editor_replaceRange, inserted.
  cbn [calls cursor]. rewrite <- app_assoc. reflexivity.
Qed.

(** ** The post-processing client *)

Lemma env_event_log (e : EnvEvent) (s : Sys) : log (env_event e s) = log s.
Proof.
  destruct e; cbn [env_event]; try reflexivity.
  - apply (elapse_same_but_ui ms s).
  - destruct (activeEditor s); reflexivity.
Qed.

Lemma env_events_log (es : list EnvEvent) (s : Sys) : log (env_events es s) = log s.
Proof.
  revert s. induction es as [|e es IH]; intros s; [reflexivity|].
  cbn [env_events fold_left]. fold (env_events es (env_event e s)).
  rewrite IH. apply env_event_log.
Qed.

(** [processWithOllama] never rejects and never answers with nothing: its
    promise is fulfilled with a value that is not falsy.  It sends one
    request, the chat request for the prompt followed by the transcript,
    and reads at most one body.  It logs nothing, or it logs one error and
    answers with the failure text. *)
Theorem processWithOllama_always_answers
    (transcription : JsVal) (o : Oracle) (n : nat) (s : Sys) :
  let r := exec (processWithOllama transcription) o n s in
  exists v,
    outcome r = inr v /\
    Js.truthy v = true /\
    (requests r = [chat_request transcription (settings s)] \/
     requests r = [chat_request transcription (settings s); BodyRead]) /\
    (log (final r) = log s \/
     exists e, log (final r) = log s ++ [ConsoleError "Error processing with Ollama:" e] /\
               v = JStr "Failed to process text with Ollama.").
Proof.
  cbv zeta. unfold chat_request. run.
  destruct (net o n) as [e|response] eqn:N; run.
  - eexists. split; [reflexivity|]. split; [reflexivity|]. split; [left; reflexivity|].
    right. eexists. rewrite env_events_log. split; reflexivity.
  - destruct (ok response) eqn:K; run.
    + destruct (payload response) as [|bytes [d|]] eqn:P; run.
      * eexists. split; [reflexivity|]. split; [reflexivity|].
        split; [right; reflexivity|].
        right. eexists. rewrite !env_events_log. split; reflexivity.
      * destruct (Js.prop d "message") as [e|message] eqn:M; run.
        -- eexists. split; [reflexivity|]. split; [reflexivity|].
           split; [right; reflexivity|].
           right. eexists. rewrite !env_events_log. split; reflexivity.
        -- eexists. split; [reflexivity|]. split.
           ++ unfold Js.or.
              destruct (Js.truthy (Js.opt_prop message "content")) eqn:T;
                [exact T|reflexivity].
           ++ split; [right; reflexivity|].
              left. rewrite !env_events_log. reflexivity.
      * eexists. split; [reflexivity|]. split; [reflexivity|].
        split; [right; reflexivity|].
        right. eexists. rewrite !env_events_log. split; reflexivity.
    + eexists. split; [reflexivity|]. split; [reflexivity|]. split; [left; reflexivity|].
      right. eexists. rewrite env_events_log. split; reflexivity.
Qed.

(** ** A job that gets its transcript *)

Lemma requests_transcribed (a : HTMLAudioElement) (o : Oracle) (s : Sys) (t : JsVal) :
  transcript o = Some t ->
  requests (exec (transcribeAudio a) o 0 s) =
  transcription_requests a o s ++
  requests (exec (after_transcription a (next_pid s) (next_tid s) t) o 5
              (transcribed a o s)).
Proof.
  unfold transcript, transcribed, transcription_requests, audio_read, audio_bytes,
    probe_request, upload_request, at_probe, at_audio, at_asr, at_audio_blob, at_asr_json.
  intros H. rewrite transcribeAudio_blocks.
  assert (E0 : settings (launched a s) = settings s) by reflexivity.
  revert E0. generalize (launched a s). intros s0 E0.
  destruct (net o 0) as [e0|r0] eqn:N0; [discriminate|].
  destruct (net o 1) as [e1|r1] eqn:N1; [discriminate|].
  destruct (net o 3) as [e3|r3] eqn:N3; [discriminate|].
  destruct (payload r1) as [|b1 p1] eqn:P1; [discriminate|].
  destruct (payload r3) as [|b3 [v|]] eqn:P3; [discriminate| |discriminate].
  destruct (ok r0) eqn:K0; [|discriminate].
  destruct (ok r3) eqn:K3; [|discriminate].
  destruct (Js.prop v "text") as [|text] eqn:T; [discriminate|].
  injection H as ->.
  run. rewrite N0. run. rewrite K0. run. rewrite N1. run. rewrite P1. run.
  rewrite N3. run. rewrite K3. run. rewrite P3. run. rewrite T. run.
  rewrite E0. reflexivity.
Qed.

(** With post-processing off when the transcript arrives, the job makes
    five requests and none to the post-processing backend; when the
    transcript is a string and the control and an active editor are there,
    its trimmed text is inserted below the cursor the editor has at that
    moment, nothing is logged, and the indicator ends on the completion
    text. *)
Theorem transcript_is_inserted
    (a : HTMLAudioElement) (o : Oracle) (s : Sys) (text : string)
    (ed : Editor) (p : list nat) :
  transcript o = Some (JStr text) ->
  let c := transcribed a o s in
  settingOllamaToggle (settings c) = false ->
  activeEditor c = Some ed ->
  anchor a c = Some p ->
  let r := exec (transcribeAudio a) o 0 s in
  outcome r = inr tt /\
  requests r = transcription_requests a o s /\
  completion_time s r = c /\
  activeEditor (final r) = Some (inserted (Str.trim text) ed) /\
  textContent (final r) !! next_pid s = Some "Transcription Complete"%string /\
  log (final r) = log c.
Proof.
  intros T. cbv zeta. rewrite (requests_transcribed a o s _ T).
  destruct (exec_transcribed a o s _ T) as (-> & -> & -> & _).
  unfold anchor, parentElement_of, completion_time. generalize (transcribed a o s). intros s4 G E B.
  focus_run. run_all. rewrite G. run. rewrite B, E.
  destruct (Dom.parentElement_path p) eqn:P;
    [|exfalso; eapply found_button_has_parent; eassumption].
  unfold readVar; cbn [vars set_vars set_timers set_next_var]; rewrite !lookup_insert_eq.
  cbn [Js.trim lift]. run. conclude.
  unfold inserted, Editor_setCursor, Editor_replaceRange. cbn [calls cursor].
  rewrite <- app_assoc, app_nil_r.
  refine (conj eq_refl (conj eq_refl (conj eq_refl (conj eq_refl (conj _ eq_refl))))).
  apply lookup_insert_eq.
Qed.

Lemma transcript_is_inserted_witness :
  let s := Example.sys0 Example.DEFAULT_SETTINGS in
  let r := exec (transcribeAudio Example.memo) (Example.all_up JNull) 0 s in
  outcome r = inr tt /\
  requests r =
    [FetchOf "http://192.168.1.10:9000" NoInit;
     FetchOf "app://local/vault/memo.mp3" NoInit;
     BodyRead;
     FetchOf "http://192.168.1.10:9000/asr?output=json"
       (PostForm {| field := "audio_file";
                    value := {| file_bytes := EmptyString; file_name := "memo.mp3";
                                file_type := "audio/mp3" |};
                    filename := "memo.mp3" |});
     BodyRead] /\
  activeEditor (final r) =
    Some {| cursor := {| line := 10; ch := 11 |};
            calls := [ReplaceRange "hello world" {| line := 10; ch := 0 |};
                      SetCursor {| line := 10; ch := 11 |}] |}.
Proof.
  assert (W1 : transcript (Example.all_up JNull) = Some (JStr " hello world "))
    by reflexivity.
  assert (W2 : settingOllamaToggle
                 (settings (transcribed Example.memo (Example.all_up JNull)
                              (Example.sys0 Example.DEFAULT_SETTINGS))) = false)
    by (vm_compute; reflexivity).
  assert (W3 : activeEditor (transcribed Example.memo (Example.all_up JNull)
                               (Example.sys0 Example.DEFAULT_SETTINGS)) =
               Some {| cursor := {| line := 9; ch := 0 |}; calls := [] |})
    by (vm_compute; reflexivity).
  assert (W4 : anchor Example.memo
                 (transcribed Example.memo (Example.all_up JNull)
                    (Example.sys0 Example.DEFAULT_SETTINGS)) = Some [1])
    by (vm_compute; reflexivity).
  pose proof (transcript_is_inserted Example.memo (Example.all_up JNull)
                (Example.sys0 Example.DEFAULT_SETTINGS) " hello world " _ _
                W1 W2 W3 W4) as H.
  cbv zeta in H. destruct H as (O & R & _ & E & _).
  cbv zeta. split; [exact O|]. split.
  - rewrite R. vm_compute. reflexivity.
  - rewrite E. vm_compute. reflexivity.
Defined.

(** With post-processing on when the transcript arrives and an answer
    from the post-processing backend, the job has sent the prompt followed
    by the transcript as it stood in a template literal, [finalText] holds
    the content of the answer (or ['Ollama returned no text.'] when the
    answer has none), and that text is what the inserter puts below the
    cursor. *)
Theorem postprocessed_text_is_inserted
    (a : HTMLAudioElement) (o : Oracle) (s : Sys) (t : JsVal)
    (response : Response) (bytes : string) (resData message : JsVal) :
  transcript o = Some t ->
  let s4 := transcribed a o s in
  settingOllamaToggle (settings s4) = true ->
  net o at_ollama = Fulfilled response ->
  ok response = true ->
  payload response = BodyBytes bytes (Some resData) ->
  Js.prop resData "message" = inr message ->
  let answer := Js.or (Js.opt_prop message "content") (JStr "Ollama returned no text.") in
  let r := exec (transcribeAudio a) o 0 s in
  let c := completion_time s r in
  outcome r = inr tt /\
  requests r = transcription_requests a o s ++ [chat_request t (settings s4); BodyRead] /\
  readVar (next_var s4) (final r) = answer /\
  forall text ed p,
    answer = JStr text -> activeEditor c = Some ed -> anchor a c = Some p ->
    activeEditor (final r) = Some (inserted (Str.trim text) ed) /\
    textContent (final r) !! next_pid s = Some "Transcription Complete"%string.
Proof.
  intros T. cbv zeta. rewrite (requests_transcribed a o s _ T).
  destruct (exec_transcribed a o s _ T) as (-> & -> & -> & _).
  unfold anchor, parentElement_of, completion_time, chat_request, at_ollama.
  generalize (transcribed a o s). intros s4 G N K P M.
  set (answer := Js.or _ _).
  focus_run. run_all. rewrite G. run. forget_env 5. rewrite N. run. rewrite K. run.
  forget_env 6. rewrite P. run. rewrite M. run. fold answer.
  unfold readVar; cbn [vars set_vars set_timers set_next_var]; rewrite !lookup_insert_eq.
  repeat (branch; run); try (exfalso; eapply found_button_has_parent; eassumption).
  all: conclude; know.
  all: refine (conj eq_refl (conj eq_refl (conj _ _)));
    [unfold readVar; run; rewrite lookup_insert_eq; reflexivity|].
  all: intros text ed p A E B; try discriminate.
  - rewrite A in *. discriminate.
  - rewrite A in *. cbn [Js.trim] in *.
    match goal with H : inr _ = inr _ |- _ => injection H as <- end.
    injection E as <-. split; [|apply lookup_insert_eq].
    unfold inserted, Editor_setCursor, Editor_replaceRange. cbn [calls cursor].
    rewrite <- app_assoc. reflexivity.
Qed.

Lemma postprocessed_text_is_inserted_witness :
  let s := Example.sys0 Example.with_ollama in
  let r := exec (transcribeAudio Example.memo)
             (Example.all_up (Example.reply Example.two_lines)) 0 s in
  outcome r = inr tt /\
  skipn 5 (requests r) =
    [FetchOf "http://192.168.1.10:11434/api/chat"
       (PostJson {| model := "llama3.2"; role := "user";
                    content := "Below is a transcription of an audio note.: " ++ nl ++ nl
                               ++ " hello world ";
                    stream := false |});
     BodyRead] /\
  activeEditor (final r) =
    Some {| cursor := {| line := 10; ch := 17 |};
            calls := [ReplaceRange Example.two_lines {| line := 10; ch := 0 |};
                      SetCursor {| line := 10; ch := 17 |}] |}.
Proof.
  assert (W1 : transcript (Example.all_up (Example.reply Example.two_lines)) =
               Some (JStr " hello world ")) by reflexivity.
  assert (W2 : settingOllamaToggle
                 (settings (transcribed Example.memo
                              (Example.all_up (Example.reply Example.two_lines))
                              (Example.sys0 Example.with_ollama))) = true)
    by (vm_compute; reflexivity).
  pose proof (postprocessed_text_is_inserted Example.memo
                (Example.all_up (Example.reply Example.two_lines))
                (Example.sys0 Example.with_ollama) (JStr " hello world ")
                _ _ _ _ W1 W2 eq_refl eq_refl eq_refl eq_refl) as H.
  cbv zeta in H. destruct H as (O & R & _ & I).
  cbv zeta. split; [exact O|]. split.
  - rewrite R. vm_compute. reflexivity.
  - destruct (I Example.two_lines {| cursor := {| line := 9; ch := 0 |}; calls := [] |} [1])
      as [E _].
    + reflexivity.
    + vm_compute. reflexivity.
    + vm_compute. reflexivity.
    + rewrite E. vm_compute. reflexivity.
Defined.

(** A recognition reply without a [text] leaves the transcript
    [undefined].  With post-processing off and the control and an active
    editor in place, the job then fails at the insertion: [trim] is not a
    method of what it is handed, the [TypeError] is logged, no call is made
    on the editor and the indicator ends on the error text. *)
Theorem transcript_without_text_fails_at_insertion
    (a : HTMLAudioElement) (o : Oracle) (s : Sys) (t : JsVal)
    (ed : Editor) (p : list nat) :
  transcript o = Some t ->
  (forall text, t <> JStr text) ->
  let c := transcribed a o s in
  settingOllamaToggle (settings c) = false ->
  activeEditor c = Some ed ->
  anchor a c = Some p ->
  let r := exec (transcribeAudio a) o 0 s in
  outcome r = inr tt /\
  requests r = transcription_requests a o s /\
  activeEditor (final r) = Some ed /\
  textContent (final r) !! next_pid s = Some "Failed: Transcription Error"%string /\
  log (final r) = log c ++ [ConsoleError "Transcription failed:" TypeError].
Proof.
  intros T S. cbv zeta. rewrite (requests_transcribed a o s _ T).
  destruct (exec_transcribed a o s _ T) as (-> & -> & _).
  unfold anchor, parentElement_of. generalize (transcribed a o s). intros s4 G E B.
  assert (X : Js.trim t = inl TypeError).
  { destruct t; try reflexivity. exfalso. eapply S. reflexivity. }
  focus_run. run_all. rewrite G. run. rewrite B, E.
  destruct (Dom.parentElement_path p) eqn:P;
    [|exfalso; eapply found_button_has_parent; eassumption].
  unfold readVar; cbn [vars set_vars set_timers set_next_var]; rewrite !lookup_insert_eq.
  rewrite X. cbn [lift]. run. conclude.
  rewrite app_nil_r.
  refine (conj eq_refl (conj eq_refl (conj E (conj _ eq_refl)))).
  apply lookup_insert_eq.
Qed.

Lemma transcript_without_text_fails_at_insertion_witness :
  let s := Example.sys0 Example.DEFAULT_SETTINGS in
  let r := exec (transcribeAudio Example.memo) reply_without_text 0 s in
  outcome r = inr tt /\
  activeEditor (final r) = Some Example.editor0 /\
  textContent (final r) !! next_pid s = Some "Failed: Transcription Error"%string /\
  log (final r) =
    [Notification "Transcription Request" "Transcribing: memo.mp3";
     ConsoleError "Transcription failed:" TypeError].
Proof.
  assert (W1 : transcript reply_without_text = Some JUndefined) by reflexivity.
  assert (W2 : forall text, JUndefined <> JStr text) by discriminate.
  assert (W3 : settingOllamaToggle
                 (settings (transcribed Example.memo reply_without_text
                              (Example.sys0 Example.DEFAULT_SETTINGS))) = false)
    by (vm_compute; reflexivity).
  assert (W4 : activeEditor (transcribed Example.memo reply_without_text
                               (Example.sys0 Example.DEFAULT_SETTINGS)) =
               Some Example.editor0) by (vm_compute; reflexivity).
  assert (W5 : anchor Example.memo
                 (transcribed Example.memo reply_without_text
                    (Example.sys0 Example.DEFAULT_SETTINGS)) = Some [1])
    by (vm_compute; reflexivity).
  pose proof (transcript_without_text_fails_at_insertion Example.memo reply_without_text
                (Example.sys0 Example.DEFAULT_SETTINGS) JUndefined _ _
                W1 W2 W3 W4 W5) as H.
  cbv zeta in H. destruct H as (O & _ & E & X & L).
  cbv zeta. split; [exact O|]. split; [exact E|]. split; [exact X|].
  rewrite L. vm_compute. reflexivity.
Defined.

(** ** What a job leaves in the timer table *)

Lemma protected_run (body : Async unit) (pid id : nat) (o : Oracle) (n : nat) (s : Sys) :
  let r := exec (try_finally (try_catch body (on_error pid)) (at_last pid id)) o n s in
  let b := exec body o n s in
  timers (final r) = cleared id (timers (final b)) ++ [removal (next_tid (final b)) pid] /\
  requests r = requests b.
Proof.
  cbv zeta. rewrite exec_try_finally. cbv zeta. cbn [final requests].
  rewrite exec_try_catch.
  destruct (outcome (exec body o n s)) as [e|[]].
  - cbn [glue final requests]. run. rewrite !app_nil_r. split; reflexivity.
  - run. rewrite app_nil_r. split; reflexivity.
Qed.

Lemma fresh_removals_cleared (pid id : nat) (ts : list Timer) :
  Forall (fun t => owned_by pid id (signature t)) ts ->
  fresh_removals pid (cleared id ts).
Proof.
  intros H. unfold fresh_removals, cleared.
  apply Forall_forall. intros t Hin X.
  apply filter_In in Hin. destruct Hin as [Hin Hne].
  rewrite Forall_forall in H. apply H in Hin. unfold owned_by in Hin. cbn in Hin.
  rewrite (Hin X), Nat.eqb_refl in Hne. discriminate.
Qed.

Lemma fresh_removals_app (pid x : nat) (ts : list Timer) :
  fresh_removals pid ts -> fresh_removals pid (ts ++ [removal x pid]).
Proof.
  intros H. apply Forall_app. split; [exact H|].
  constructor; [|constructor]. intros _. repeat split.
Qed.

Lemma fresh_removals_filter (pid : nat) (f : Timer -> bool) (ts : list Timer) :
  fresh_removals pid ts -> fresh_removals pid (List.filter f ts).
Proof.
  intros H. apply Forall_forall. intros t Hin.
  apply filter_In in Hin. destruct Hin as [Hin _].
  unfold fresh_removals in H. rewrite Forall_forall in H. apply H, Hin.
Qed.

Lemma fresh_removals_quiet (pid k : nat) (ts : list Timer) :
  k < 3000 -> fresh_removals pid ts -> only_removals_after pid k ts.
Proof.
  intros K. apply Forall_impl. intros t H X. destruct (H X) as (C & _ & R).
  split; [exact C|lia].
Qed.

Lemma fresh_removals_expiring (pid : nat) (ts : list Timer) :
  fresh_removals pid ts -> expiring pid 3000 ts.
Proof.
  apply Forall_impl. intros t H X. destruct (H X) as (C & R & M).
  split; [exact C|]. split; [exact R|lia].
Qed.

Lemma fresh_removals_no_dots (pid : nat) (ts : list Timer) :
  fresh_removals pid ts ->
  Forall (fun t => cb_pid (callback t) = pid -> is_dots (callback t) = false) ts.
Proof.
  apply Forall_impl. intros t H X. destruct (H X) as (-> & _). reflexivity.
Qed.

Lemma run_timers_expiring (pid k : nat) (ts : list Timer) (s : Sys) :
  expiring pid (S k) ts -> expiring pid k (fst (run_timers ts s)).
Proof.
  unfold expiring. revert s. induction ts as [|t ts IH]; intros s H; [constructor|].
  inversion H as [|? ? Ht Hts]; subst.
  rewrite run_timers_cons. destruct (Nat.leb (remaining t) 1) eqn:E; cbn [fst].
  - apply Forall_app. split; [|apply IH, Hts].
    destruct (repeating t) eqn:R; constructor; [|constructor].
    cbn [callback]. rewrite fire_cb_pid. intros X.
    destruct (Ht X) as (_ & F & _). congruence.
  - constructor; [|apply IH, Hts].
    apply Nat.leb_gt in E.
    unfold countdown. cbn [callback repeating remaining]. intros X.
    destruct (Ht X) as (C & R & M). split; [exact C|]. split; [exact R|lia].
Qed.

Lemma expiring_untargeted (pid : nat) (ts : list Timer) :
  expiring pid 0 ts -> untargeted pid ts.
Proof.
  apply Forall_impl. intros t H X. destruct (H X) as (_ & _ & M). lia.
Qed.

Lemma expiring_weaken (pid j k : nat) (ts : list Timer) :
  j <= k -> expiring pid j ts -> expiring pid k ts.
Proof.
  intros L. apply Forall_impl. intros t H X. destruct (H X) as (C & R & M).
  split; [exact C|]. split; [exact R|lia].
Qed.

Lemma elapse_expiring (pid k : nat) (s : Sys) :
  expiring pid k (timers s) -> expiring pid 0 (timers (elapse k s)).
Proof.
  revert s. induction k as [|k IH]; intros s H; [exact H|].
  rewrite elapse_S. apply IH. rewrite timers_tick. apply run_timers_expiring, H.
Qed.

Lemma elapse_expired (pid k : nat) (s : Sys) :
  expiring pid 0 (timers s) -> expiring pid 0 (timers (elapse k s)).
Proof.
  revert s. induction k as [|k IH]; intros s H; [exact H|].
  rewrite elapse_S. apply IH. rewrite timers_tick. apply run_timers_expiring.
  apply expiring_weaken with (j := 0); [lia|exact H].
Qed.

(** Once the removals of an indicator are due, no timer refers to it. *)
Lemma expiring_gone (pid k ms : nat) (s : Sys) :
  expiring pid k (timers s) -> k <= ms -> untargeted pid (timers (elapse ms s)).
Proof.
  intros H L. replace ms with (k + (ms - k)) by lia.
  rewrite elapse_add. apply expiring_untargeted, elapse_expired, elapse_expiring, H.
Qed.

(** The timers of the state in which a job resumes are those it had when
    it was suspended, as far as their identifiers and targets go. *)
Ltac owned F :=
  repeat first [ apply (env_events_signature (owned_by _ _))
               | progress cbn [timers emit set_log] ];
  exact F.

Lemma try_block_without_transcript
    (a : HTMLAudioElement) (pid id : nat) (o : Oracle) (s0 : Sys) :
  transcript o = None ->
  let b := exec (try_block a pid id) o 0 s0 in
  (Forall (fun t => owned_by pid id (signature t)) (timers s0) ->
   fresh_removals pid (cleared id (timers (final b)))) /\
  existsb to_chat (requests b) = false /\
  (existsb to_recognition (requests b) = true ->
   probe_fails o = false /\
   exists response bytes parsed,
     net o at_audio = Fulfilled response /\ payload response = BodyBytes bytes parsed).
Proof.
  intros H. cbv zeta. unfold probe_fails, at_probe, at_audio.
  run. repeat (branch; run).
  all: try (exfalso; revert H; unfold transcript, at_probe, at_audio, at_asr; know;
            cbn; know; discriminate).
  all: split;
    [ intros F;
      first [ apply fresh_removals_filter, fresh_removals_app, fresh_removals_cleared;
              owned F
            | apply fresh_removals_cleared; owned F ]
    | split; [reflexivity|] ].
  all: intros X; try discriminate X.
  all: split; [reflexivity|].
  all: eexists _, _, _; split; [reflexivity|eassumption].
Qed.

Lemma completion_without_postprocessing
    (a : HTMLAudioElement) (pid id : nat) (t : JsVal) (o : Oracle) (n : nat) (s4 : Sys) :
  settingOllamaToggle (settings s4) = false ->
  let b := exec (completion a pid id t) o n s4 in
  timers (final b) = cleared id (cleared id (timers s4)) /\
  next_tid (final b) = next_tid s4 /\
  requests b = [].
Proof.
  intros G. cbv zeta. unfold completion. run. rewrite G. run.
  repeat (branch; run); repeat split.
Qed.

Lemma transcribed_owned (a : HTMLAudioElement) (o : Oracle) (s : Sys) :
  untargeted (next_pid s) (timers s) ->
  Forall (fun t => owned_by (next_pid s) (next_tid s) (signature t))
         (timers (transcribed a o s)).
Proof.
  intros U. pose proof (launched_targets a s U) as F.
  unfold transcribed. owned F.
Qed.

(** Unless post-processing has been started, the timers that refer to
    the indicator when the promise settles are the timeouts of lines 130
    and 183, just registered. *)
Lemma removals_without_postprocessing
    (a : HTMLAudioElement) (o : Oracle) (s : Sys) :
  untargeted (next_pid s) (timers s) ->
  transcript o = None \/ settingOllamaToggle (settings (transcribed a o s)) = false ->
  let r := exec (transcribeAudio a) o 0 s in
  fresh_removals (next_pid s) (timers (final r)) /\
  exists x, In (removal x (next_pid s)) (timers (final r)).
Proof.
  intros U H. cbv zeta.
  destruct (transcript o) as [t|] eqn:T.
  - destruct H as [H|G]; [discriminate H|].
    destruct (exec_transcribed a o s t T) as (-> & _).
    unfold after_transcription.
    destruct (protected_run (completion a (next_pid s) (next_tid s) t)
                (next_pid s) (next_tid s) o 5 (transcribed a o s)) as [-> _].
    destruct (completion_without_postprocessing a (next_pid s) (next_tid s) t o 5
                (transcribed a o s) G) as (-> & _).
    split; [|eexists; apply in_or_app; right; left; reflexivity].
    apply fresh_removals_app. unfold cleared.
    apply fresh_removals_filter, fresh_removals_filter, fresh_removals_cleared.
    apply transcribed_owned, U.
  - rewrite transcribeAudio_blocks. unfold guarded.
    destruct (protected_run (try_block a (next_pid s) (next_tid s))
                (next_pid s) (next_tid s) o 0 (launched a s)) as [-> _].
    split; [|eexists; apply in_or_app; right; left; reflexivity].
    apply fresh_removals_app.
    apply (try_block_without_transcript a (next_pid s) (next_tid s) o (launched a s) T).
    apply launched_targets, U.
Qed.

(** Unless post-processing has been started, a job leaves no animation
    behind: when its promise settles, the only timers that still refer to
    its indicator are the timeouts that remove it.  For 3 s nothing changes
    the terminal text, then the indicator is out of the document and no
    timer refers to it any more. *)
Theorem timers_released_without_postprocessing
    (a : HTMLAudioElement) (o : Oracle) (s : Sys) :
  untargeted (next_pid s) (timers s) ->
  transcript o = None \/ settingOllamaToggle (settings (transcribed a o s)) = false ->
  let r := exec (transcribeAudio a) o 0 s in
  let pid := next_pid s in
  Forall (fun t => cb_pid (callback t) = pid -> is_dots (callback t) = false)
         (timers (final r)) /\
  (forall ms, ms < 3000 ->
     textContent (elapse ms (final r)) !! pid = textContent (final r) !! pid /\
     Dom.attached pid (body (elapse ms (final r))) = Dom.attached pid (body (final r))) /\
  (forall ms, 3000 <= ms ->
     Dom.attached pid (body (elapse ms (final r))) = false /\
     untargeted pid (timers (elapse ms (final r)))).
Proof.
  intros U H. cbv zeta.
  destruct (removals_without_postprocessing a o s U H) as (FR & x & Hx).
  set (r := exec (transcribeAudio a) o 0 s) in *.
  split; [apply fresh_removals_no_dots, FR|]. split.
  - intros ms Hms. apply elapse_quiet, fresh_removals_quiet; assumption.
  - intros ms Hms. split.
    + apply removal_due with (t := removal x (next_pid s)); [exact Hx|reflexivity| |lia].
      cbn. exact Hms.
    + apply expiring_gone with (k := 3000); [|exact Hms].
      apply fresh_removals_expiring, FR.
Qed.

Lemma timers_released_without_postprocessing_witness :
  let s := Example.sys0 Example.DEFAULT_SETTINGS in
  let r := exec (transcribeAudio Example.memo) (Example.all_up JNull) 0 s in
  textContent (elapse 2999 (final r)) !! next_pid s = Some "Transcription Complete"%string /\
  Dom.attached (next_pid s) (body (env_events [Elapse 3000] (final r))) = false /\
  untargeted (next_pid s) (timers (env_events [Elapse 3000] (final r))).
Proof.
  assert (W1 : untargeted (next_pid (Example.sys0 Example.DEFAULT_SETTINGS))
                 (timers (Example.sys0 Example.DEFAULT_SETTINGS))) by constructor.
  assert (W2 : transcript (Example.all_up JNull) = None \/
               settingOllamaToggle
                 (settings (transcribed Example.memo (Example.all_up JNull)
                              (Example.sys0 Example.DEFAULT_SETTINGS))) = false)
    by (right; vm_compute; reflexivity).
  pose proof (timers_released_without_postprocessing Example.memo (Example.all_up JNull)
                (Example.sys0 Example.DEFAULT_SETTINGS) W1 W2) as H.
  cbv zeta in H. destruct H as (_ & Q & D).
  cbv zeta. split.
  - destruct (Q 2999) as [E _]; [lia|]. rewrite E. vm_compute. reflexivity.
  - apply (D 3000). lia.
Defined.

(** The backends are contacted in order and only when needed: the
    post-processing backend only if a transcript has been obtained and
    post-processing is on when it arrives; the recognition endpoint only if
    the probe has succeeded and the audio bytes have been read. *)
Theorem backends_contacted_only_when_needed
    (a : HTMLAudioElement) (o : Oracle) (s : Sys) :
  let r := exec (transcribeAudio a) o 0 s in
  (existsb to_chat (requests r) = true ->
   exists t, transcript o = Some t /\
             settingOllamaToggle (settings (transcribed a o s)) = true) /\
  (existsb to_recognition (requests r) = true ->
   probe_fails o = false /\
   exists response bytes parsed,
     net o at_audio = Fulfilled response /\ payload response = BodyBytes bytes parsed).
Proof.
  cbv zeta. destruct (transcript o) as [t|] eqn:T.
  - split.
    + destruct (settingOllamaToggle (settings (transcribed a o s))) eqn:G;
        [intros _; exists t; split; reflexivity|].
      rewrite (requests_transcribed a o s t T). unfold after_transcription.
      destruct (protected_run (completion a (next_pid s) (next_tid s) t)
                  (next_pid s) (next_tid s) o 5 (transcribed a o s)) as [_ ->].
      destruct (completion_without_postprocessing a (next_pid s) (next_tid s) t o 5
                  (transcribed a o s) G) as (_ & _ & ->).
      intros X. discriminate X.
    + intros _. revert T. unfold transcript, probe_fails, at_probe, at_audio.
      destruct (net o 0) as [|r0]; [discriminate|].
      destruct (net o 1) as [|r1]; [discriminate|].
      destruct (net o at_asr) as [|r3]; [discriminate|].
      destruct (payload r1) as [|b1 p1] eqn:P1; [discriminate|].
      destruct (payload r3) as [|b3 [v|]]; [discriminate| |discriminate].
      destruct (ok r0); [|discriminate]. intros _.
      split; [reflexivity|]. exists r1, b1, p1. split; [reflexivity|exact P1].
  - rewrite transcribeAudio_blocks. unfold guarded.
    destruct (protected_run (try_block a (next_pid s) (next_tid s))
                (next_pid s) (next_tid s) o 0 (launched a s)) as [_ ->].
    destruct (try_block_without_transcript a (next_pid s) (next_tid s) o (launched a s) T)
      as (_ & C & R).
    split; [rewrite C; discriminate|exact R].
Qed.

(** ** The progress indicator in the tree *)

Lemma remove_observed_Elem (pid : nat) (kids : list Node) :
  remove_observed pid (Elem kids) =
  if existsb (Dom.is_progress pid) kids
  then addTranscribeButtonToAudio (Elem (without_indicator pid kids))
  else Elem (without_indicator pid kids).
Proof.
  cbn [remove_observed].
  assert (E : (fix without (ks : list Node) : list Node :=
                 match ks with
                 | [] => []
                 | k :: rest =>
                     if Dom.is_progress pid k then without rest
                     else remove_observed pid k :: without rest
                 end) kids = without_indicator pid kids).
  { unfold without_indicator. induction kids as [|k kids IH]; [reflexivity|].
    cbn [flat_map]. rewrite IH. destruct (Dom.is_progress pid k); reflexivity. }
  rewrite E. reflexivity.
Qed.

Lemma is_progress_occurs (pid : nat) (k : Node) :
  Dom.occurs pid k = false -> Dom.is_progress pid k = false.
Proof. destruct k; try reflexivity. cbn. intros H. exact H. Qed.

Lemma remove_absent (pid : nat) (n : Node) :
  Dom.occurs pid n = false -> remove_observed pid n = n.
Proof.
  induction n as [| | |kids IH] using Node_induction; try reflexivity.
  cbn [Dom.occurs]. intros H. rewrite remove_observed_Elem.
  apply existsb_false_Forall in H.
  assert (W : without_indicator pid kids = kids).
  { unfold without_indicator.
    induction IH as [|k kids Hk _ IHkids]; [reflexivity|].
    inversion H as [|? ? Ok Okids]; subst.
    cbn [flat_map]. rewrite (is_progress_occurs pid k Ok), (Hk Ok), (IHkids Okids).
    reflexivity. }
  assert (N : existsb (Dom.is_progress pid) kids = false).
  { apply existsb_false_Forall. eapply Forall_impl; [|exact H].
    intros k. apply is_progress_occurs. }
  rewrite N, W. reflexivity.
Qed.

Lemma bound_fixed (n : Node) : bound n -> addTranscribeButtonToAudio n = n.
Proof.
  intros H. apply (visit_marked (Dom.querySelectorAll_audio n)).
  apply Forall_forall. exact H.
Qed.

Lemma bound_with_indicator (pid : nat) (kids : list Node) :
  bound (Elem kids) -> bound (Elem (kids ++ [ProgressIndicator pid])).
Proof.
  intros H a Hin.
  cbn [Dom.querySelectorAll_audio] in Hin. rewrite flat_map_app in Hin.
  cbn [flat_map Dom.audios] in Hin. rewrite !app_nil_r in Hin.
  specialize (H a Hin). cbn [unmarked] in *.
  rewrite !existsb_app. cbn [existsb Dom.is_audio Dom.has_button unmarked].
  rewrite !orb_false_r. exact H.
Qed.

Lemma appendChild_observed_shape (a : HTMLAudioElement) (child n : Node) :
  match n with
  | Elem _ => exists kids', appendChild_observed a child n = Elem kids'
  | _ => appendChild_observed a child n = n
  end.
Proof.
  destruct n as [| | |kids]; try reflexivity.
  cbn [appendChild_observed].
  destruct (existsb (Dom.is_audio a) kids); [|eauto].
  apply scan_Elem. eauto.
Qed.

Lemma is_progress_appendChild (pid : nat) (a : HTMLAudioElement) (child k : Node) :
  Dom.is_progress pid (appendChild_observed a child k) = Dom.is_progress pid k.
Proof.
  pose proof (appendChild_observed_shape a child k) as S.
  destruct k as [| | |kids]; try (rewrite S; reflexivity).
  destruct S as [kids' ->]. reflexivity.
Qed.

Lemma fully_bound_kid (kids : list Node) (k : Node) :
  fully_bound (Elem kids) -> In k kids -> fully_bound k.
Proof.
  intros H Hin path el E.
  apply In_nth_error in Hin. destruct Hin as [i Hi].
  apply (H (i :: path)). cbn [node_at]. rewrite Hi. exact E.
Qed.

Lemma fully_bound_Audio (a : HTMLAudioElement) : fully_bound (Audio a).
Proof. intros [|i path] el E; [injection E as <-; intros b []|discriminate E]. Qed.

Lemma fully_bound_TranscribeButton (a : HTMLAudioElement) :
  fully_bound (TranscribeButton a).
Proof. intros [|i path] el E; [injection E as <-; intros b []|discriminate E]. Qed.

Lemma fully_bound_Elem (kids : list Node) :
  bound (Elem kids) -> Forall fully_bound kids -> fully_bound (Elem kids).
Proof.
  intros B F [|i path] el E; [injection E as <-; exact B|].
  cbn [node_at] in E. destruct (nth_error kids i) as [k|] eqn:N; [|discriminate E].
  rewrite Forall_forall in F. apply (F k (nth_error_In _ _ N) path el E).
Qed.

(** In a tree whose elements are all bound, the progress indicator of a
    job comes and goes without a trace: appending it next to the audio
    element adds no control although the observer scans the parent again,
    and removing it gives the tree back as it was. *)
Theorem indicator_leaves_no_trace (a : HTMLAudioElement) (pid : nat) (d : Node) :
  fully_bound d ->
  Dom.occurs pid d = false ->
  Dom.buttons (appendChild_observed a (ProgressIndicator pid) d) = Dom.buttons d /\
  remove_observed pid (appendChild_observed a (ProgressIndicator pid) d) = d.
Proof.
  induction d as [| | |kids IH] using Node_induction; try (intros; split; reflexivity).
  intros B O. cbn [appendChild_observed].
  destruct (existsb (Dom.is_audio a) kids) eqn:A.
  - assert (B0 : bound (Elem kids)) by (apply (B []); reflexivity).
    rewrite (bound_fixed _ (bound_with_indicator pid kids B0)). split.
    + cbn [Dom.buttons]. rewrite List.map_app, list_sum_app. cbn. lia.
    + rewrite remove_observed_Elem, existsb_app.
      cbn [existsb Dom.is_progress]. rewrite Nat.eqb_refl, orb_true_r.
      unfold without_indicator. rewrite flat_map_app.
      cbn [flat_map Dom.is_progress]. rewrite Nat.eqb_refl, !app_nil_r.
      pose proof (remove_absent pid (Elem kids) O) as R.
      rewrite remove_observed_Elem in R.
      assert (N : existsb (Dom.is_progress pid) kids = false).
      { cbn [Dom.occurs] in O. apply existsb_false_Forall in O.
        apply existsb_false_Forall. eapply Forall_impl; [|exact O].
        intros k. apply is_progress_occurs. }
      rewrite N in R. injection R as R. unfold without_indicator in R. rewrite R.
      apply bound_fixed, B0.
  - assert (K : Forall (fun k =>
                  Dom.buttons (appendChild_observed a (ProgressIndicator pid) k) =
                    Dom.buttons k /\
                  remove_observed pid (appendChild_observed a (ProgressIndicator pid) k) = k)
                  kids).
    { cbn [Dom.occurs] in O. apply existsb_false_Forall in O.
      rewrite Forall_forall in IH, O. apply Forall_forall. intros k Hin.
      apply IH; [exact Hin|eapply fully_bound_kid; eassumption|apply O, Hin]. }
    assert (P : Forall (fun k => Dom.is_progress pid k = false) kids).
    { cbn [Dom.occurs] in O. apply existsb_false_Forall in O.
      eapply Forall_impl; [|exact O]. intros k. apply is_progress_occurs. }
    split.
    + cbn [Dom.buttons]. f_equal. rewrite List.map_map.
      clear -K. induction K as [|k kids [Hk _] _ IHk]; [reflexivity|].
      cbn [List.map]. rewrite Hk, IHk. reflexivity.
    + rewrite remove_observed_Elem, existsb_map.
      assert (N : existsb (fun x => Dom.is_progress pid
                                      (appendChild_observed a (ProgressIndicator pid) x))
                    kids = false).
      { apply existsb_false_Forall. eapply Forall_impl; [|exact P].
        intros k Hk. rewrite is_progress_appendChild. exact Hk. }
      rewrite N. f_equal. unfold without_indicator.
      clear -K P. induction K as [|k kids [_ Hk] _ IHk]; [reflexivity|].
      inversion P as [|? ? Pk Pkids]; subst.
      cbn [List.map flat_map]. rewrite is_progress_appendChild, Pk, Hk.
      cbn [app]. f_equal. apply IHk, Pkids.
Qed.

Lemma indicator_leaves_no_trace_witness :
  let d := addTranscribeButtonToAudio Example.two_embeds in
  Dom.buttons (appendChild_observed Example.talk (ProgressIndicator 7) d) = 2 /\
  remove_observed 7 (appendChild_observed Example.talk (ProgressIndicator 7) d) = d.
Proof.
  assert (W1 : fully_bound (addTranscribeButtonToAudio Example.two_embeds)).
  { repeat first [ apply fully_bound_Elem
                 | apply Forall_cons
                 | apply Forall_nil
                 | apply fully_bound_Audio
                 | apply fully_bound_TranscribeButton ].
    all: intros b Hin; cbn in Hin.
    all: repeat (destruct Hin as [<-|Hin]; [reflexivity|]); destruct Hin. }
  assert (W2 : Dom.occurs 7 (addTranscribeButtonToAudio Example.two_embeds) = false)
    by reflexivity.
  destruct (indicator_leaves_no_trace Example.talk 7 _ W1 W2) as [B R].
  cbv zeta. split; [rewrite B; reflexivity|exact R].
Defined.

(** ** A job that gets no transcript *)

(** When the probe succeeds and no transcript is obtained, the user is
    told that the transcription has been requested, one error is logged,
    the one that stopped the job, and the indicator ends on the error
    text; the job has made at most five requests, and only four when the
    recognition endpoint answers with a status that is not a success: its
    body is not read. *)
Theorem transcription_failure_is_logged
    (a : HTMLAudioElement) (o : Oracle) (s : Sys) :
  transcript o = None ->
  probe_fails o = false ->
  let r := exec (transcribeAudio a) o 0 s in
  outcome r = inr tt /\
  log (final r) =
    log s ++ [Notification "Transcription Request" ("Transcribing: " ++ fileNameOf (src a));
              ConsoleError "Transcription failed:" (failure_cause o)] /\
  textContent (final r) !! next_pid s = Some "Failed: Transcription Error"%string /\
  List.length (requests r) <= 5 /\
  (failure_cause o = Error "Failed to fetch transcription" ->
   List.length (requests r) <= 4).
Proof.
  intros H F. cbv zeta. rewrite transcribeAudio_blocks.
  assert (L : log (launched a s) = log s) by reflexivity.
  revert L. generalize (launched a s). intros s0 L.
  focus_run. run. repeat (branch; run).
  all: try (exfalso; revert H; unfold transcript, at_probe, at_audio, at_asr; know;
            cbn; know; discriminate).
  all: try (exfalso; revert F; unfold probe_fails, at_probe; know; cbn; know;
            discriminate).
  all: try match goal with
           | X : Js.prop ?v _ = inl _ |- _ =>
               destruct v; try discriminate X; injection X as <-
           end.
  all: conclude.
  all: unfold failure_cause, at_audio, at_asr; know; cbn [negb]; know.
  all: rewrite ?env_events_log; cbn [log emit set_log]; rewrite ?env_events_log, L.
  all: rewrite <- ?app_assoc.
  all: refine (conj eq_refl (conj eq_refl (conj (lookup_insert_eq _ _ _) (conj _ _)))).
  all: cbn [List.length]; try lia.
  all: intros X; try discriminate X; try lia.
Qed.

Lemma transcription_failure_is_logged_witness :
  let r := exec (transcribeAudio Example.memo) recognition_down 0
             (Example.sys0 Example.DEFAULT_SETTINGS) in
  log (final r) =
    [Notification "Transcription Request" "Transcribing: memo.mp3";
     ConsoleError "Transcription failed:" (Error "Failed to fetch transcription")] /\
  List.length (requests r) <= 4.
Proof.
  assert (W1 : transcript recognition_down = None) by reflexivity.
  assert (W2 : probe_fails recognition_down = false) by reflexivity.
  pose proof (transcription_failure_is_logged Example.memo recognition_down
                (Example.sys0 Example.DEFAULT_SETTINGS) W1 W2) as H.
  cbv zeta in H. destruct H as (_ & L & _ & _ & R).
  cbv zeta. split; [rewrite L; reflexivity|]. apply R. reflexivity.
Defined.

(** ** The inserted text has no white space around it *)

Lemma trimStart_starts (s : string) : starts_white (Str.trimStart s) = false.
Proof.
  induction s as [|c s IH]; [reflexivity|].
  cbn [Str.trimStart]. destruct (Str.is_white c) eqn:E; [exact IH|].
  cbn [starts_white]. exact E.
Qed.

Lemma trimEnd_ends (s : string) : ends_white (Str.trimEnd s) = false.
Proof.
  induction s as [|c s IH]; [reflexivity|].
  cbn [Str.trimEnd]. destruct (Str.trimEnd s) as [|c' kept].
  - destruct (Str.is_white c) eqn:E; [reflexivity|]. cbn [ends_white]. exact E.
  - exact IH.
Qed.

Lemma trimEnd_starts (s : string) :
  starts_white s = false -> starts_white (Str.trimEnd s) = false.
Proof.
  destruct s as [|c s]; [reflexivity|]. cbn [starts_white Str.trimEnd]. intros E.
  destruct (Str.trimEnd s); [rewrite E|]; cbn [starts_white]; exact E.
Qed.

Lemma trimStart_fixed (s : string) : starts_white s = false -> Str.trimStart s = s.
Proof.
  destruct s as [|c s]; [reflexivity|]. cbn [starts_white Str.trimStart].
  intros ->. reflexivity.
Qed.

Lemma trimEnd_idempotent (s : string) : Str.trimEnd (Str.trimEnd s) = Str.trimEnd s.
Proof.
  induction s as [|c s IH]; [reflexivity|].
  cbn [Str.trimEnd]. destruct (Str.trimEnd s) as [|c' kept] eqn:T.
  - destruct (Str.is_white c) eqn:E; [reflexivity|].
    cbn [Str.trimEnd]. rewrite E. reflexivity.
  - change (Str.trimEnd (String c (String c' kept)))
      with (match Str.trimEnd (String c' kept) with
            | EmptyString => if Str.is_white c then EmptyString else String c EmptyString
            | String x y => String c (String x y)
            end).
    rewrite IH. reflexivity.
Qed.

(** The text that the inserter hands to the editor has no white space at
    its start or at its end, and a text that has none is inserted as it
    is. *)
Theorem inserted_text_has_no_margin (a : HTMLAudioElement) (text : string) (s : Sys)
    (ed : Editor) (p : list nat) :
  anchor a s = Some p ->
  activeEditor s = Some ed ->
  let trimmed := Str.trim text in
  activeEditor (fst (start (displayTranscriptionResult a (JStr text)) s)) =
    Some (inserted trimmed ed) /\
  starts_white trimmed = false /\
  ends_white trimmed = false /\
  Str.trim trimmed = trimmed /\
  (starts_white text = false -> ends_white text = false -> trimmed = text).
Proof.
  intros B E. cbv zeta. split.
  - unfold displayTranscriptionResult, anchor, parentElement_of in *. run. rewrite B, E.
    destruct (Dom.parentElement_path p) eqn:P;
      [|exfalso; eapply found_button_has_parent; eassumption].
    cbn [Js.trim lift bind start modify fst activeEditor set_activeEditor].
    unfold Editor_setCursor, Editor_replaceRange, inserted.
    cbn [calls cursor]. rewrite <- app_assoc. reflexivity.
  - unfold Str.trim. split; [apply trimEnd_starts, trimStart_starts|].
    split; [apply trimEnd_ends|]. split.
    + rewrite (trimStart_fixed (Str.trimEnd (Str.trimStart text)))
        by apply trimEnd_starts, trimStart_starts.
      apply trimEnd_idempotent.
    + intros S0 E0. rewrite (trimStart_fixed text S0).
      clear -E0. induction text as [|c text IH]; [reflexivity|].
      cbn [Str.trimEnd]. destruct text as [|c' rest].
      * cbn [Str.trimEnd]. cbn [ends_white] in E0. rewrite E0. reflexivity.
      * rewrite IH by exact E0. reflexivity.
Qed.

Lemma inserted_text_has_no_margin_witness :
  activeEditor (fst (start (displayTranscriptionResult Example.memo
                              (JStr " hello world "))
                       (Example.sys0 Example.DEFAULT_SETTINGS))) =
    Some (inserted "hello world" Example.editor0).
Proof.
  destruct (inserted_text_has_no_margin Example.memo " hello world "
              (Example.sys0 Example.DEFAULT_SETTINGS) Example.editor0 [1]
              eq_refl eq_refl) as (I & _).
  exact I.
Defined.

(** ** Settings are read when they are used *)

(** A job does not take a copy of the settings when it starts: the probe
    goes to the Whisper address set when the control is clicked, the
    recognition request to the address set when the audio bytes have
    arrived, and the chat request is built from the Ollama address and the
    prompt set when the transcript arrives. *)
Theorem settings_are_read_when_used
    (a : HTMLAudioElement) (o : Oracle) (s : Sys) (t : JsVal) :
  transcript o = Some t ->
  let r := exec (transcribeAudio a) o 0 s in
  firstn 5 (requests r) =
    [probe_request (settings s);
     FetchOf (src a) NoInit;
     BodyRead;
     upload_request (fileNameOf (src a)) (audio_bytes o) (settings (audio_read a o s));
     BodyRead] /\
  (settingOllamaToggle (settings (transcribed a o s)) = true ->
   nth_error (requests r) 5 = Some (chat_request t (settings (transcribed a o s)))).
Proof.
  intros T. cbv zeta. rewrite (requests_transcribed a o s t T).
  split; [reflexivity|].
  intros G. change 5 with (List.length (transcription_requests a o s)) at 1.
  rewrite nth_error_app2 by reflexivity. rewrite Nat.sub_diag.
  generalize dependent (transcribed a o s). intros s4 G.
  unfold chat_request. run_all. rewrite G. run. reflexivity.
Qed.

Lemma settings_are_read_when_used_witness :
  let r := exec (transcribeAudio Example.memo) address_changed 0
             (Example.sys0 Example.with_ollama) in
  firstn 5 (requests r) =
    [FetchOf "http://192.168.1.10:9000" NoInit;
     FetchOf "app://local/vault/memo.mp3" NoInit;
     BodyRead;
     FetchOf "http://10.0.0.5:9000/asr?output=json"
       (PostForm {| field := "audio_file";
                    value := {| file_bytes := EmptyString; file_name := "memo.mp3";
                                file_type := "audio/mp3" |};
                    filename := "memo.mp3" |});
     BodyRead].
Proof.
  assert (W : transcript address_changed = Some (JStr " hello world ")) by reflexivity.
  pose proof (settings_are_read_when_used Example.memo address_changed
                (Example.sys0 Example.with_ollama) (JStr " hello world ") W) as H.
  cbv zeta in H. destruct H as (F & _).
  cbv zeta. rewrite F. vm_compute. reflexivity.
Defined.

(** ** The interval that outlives the job *)

Lemma postprocessing_label_not_terminal (k : nat) (text : string) :
  ~ In (postprocessing_label k text) terminal_texts.
Proof.
  intros H.
  assert (X : forall t, In t terminal_texts ->
                match t with String c _ => c | EmptyString => "P"%char end <> "P"%char).
  { intros t [<-|[<-|[<-|[]]]]; discriminate. }
  apply X in H. apply H. reflexivity.
Qed.

Lemma fire_ollama (pid cell c : nat) (s : Sys) :
  exists c' k,
    fire (OllamaDots pid cell c) s =
    (OllamaDots pid cell c',
     setText pid (postprocessing_label k (Js.toString (readVar cell s))) s).
Proof.
  exists (next_dotCount c), (next_dotCount c).
  apply (fire_dots (OllamaDots pid cell 0) c s). reflexivity.
Qed.

Lemma overwritten_same (pid cell : nat) (s s' : Sys) :
  vars s' = vars s -> textContent s' !! pid = textContent s !! pid ->
  overwritten pid cell s -> overwritten pid cell s'.
Proof.
  intros V X [k H]. exists k. unfold readVar. rewrite V, X. exact H.
Qed.

Lemma fire_vars (cb : Callback) (s : Sys) : vars (snd (fire cb s)) = vars s.
Proof. apply (fire_same_but_ui cb s). Qed.

(** What running a closure of the table leaves of the label. *)
Lemma fire_overwritten (pid cell : nat) (cb : Callback) (s : Sys) :
  (cb_pid cb = pid ->
   cb = RemoveProgress pid \/ exists k, cb = OllamaDots pid cell k) ->
  ((exists k, cb = OllamaDots pid cell k) \/ overwritten pid cell s) ->
  overwritten pid cell (snd (fire cb s)).
Proof.
  intros L H.
  assert (D : (exists k, cb = OllamaDots pid cell k) \/
              (overwritten pid cell s /\
               textContent (snd (fire cb s)) !! pid = textContent s !! pid)).
  { destruct (Nat.eq_dec (cb_pid cb) pid) as [E|E].
    - destruct (L E) as [->|X]; [|left; exact X].
      destruct H as [[k X]|H]; [discriminate X|].
      right. split; [exact H|apply fire_text_remove].
    - destruct H as [[k X]|H]; [left; exists k; exact X|].
      right. split; [exact H|apply fire_text_other, E]. }
  destruct D as [[k ->]|[O X]].
  - destruct (fire_ollama pid cell k s) as (c' & j & ->). cbn [snd].
    exists j. unfold readVar, setText. cbn [textContent set_textContent vars].
    apply lookup_insert_eq.
  - apply (overwritten_same pid cell s); [apply fire_vars|exact X|exact O].
Qed.

Lemma fire_leaked (pid cell : nat) (cb : Callback) (s : Sys) :
  (cb_pid cb = pid ->
   cb = RemoveProgress pid \/ exists k, cb = OllamaDots pid cell k) ->
  cb_pid (fst (fire cb s)) = pid ->
  fst (fire cb s) = RemoveProgress pid \/
  exists k, fst (fire cb s) = OllamaDots pid cell k.
Proof.
  intros L E. rewrite fire_cb_pid in E. destruct (L E) as [->|[k ->]].
  - left. reflexivity.
  - right. destruct (fire_ollama pid cell k s) as (c' & j & ->). exists c'. reflexivity.
Qed.

Lemma run_timers_leaked_only (pid cell : nat) (ts : list Timer) (s : Sys) :
  leaked_only pid cell ts -> leaked_only pid cell (fst (run_timers ts s)).
Proof.
  unfold leaked_only. revert s. induction ts as [|t ts IH]; intros s H; [constructor|].
  inversion H as [|? ? Ht Hts]; subst.
  rewrite run_timers_cons. destruct (Nat.leb (remaining t) 1); cbn [fst].
  - apply Forall_app. split; [|apply IH, Hts].
    destruct (repeating t); constructor; [|constructor].
    cbn [callback]. apply fire_leaked, Ht.
  - constructor; [exact Ht|apply IH, Hts].
Qed.

(** The interval stays in the table: it is rearmed when it has fired. *)
Lemma run_timers_keeps_leaking (pid cell id : nat) (ts : list Timer) (s : Sys) :
  leaking pid cell id 500 ts -> leaking pid cell id 500 (fst (run_timers ts s)).
Proof.
  unfold leaking. revert s. induction ts as [|t ts IH]; intros s H; [inversion H|].
  rewrite run_timers_cons.
  inversion H as [? ? Ht|? ? Hts]; subst.
  - destruct Ht as (I & [c C] & R & D & M).
    destruct (Nat.leb (remaining t) 1) eqn:E; cbn [fst].
    + rewrite R. apply Exists_cons_hd. cbn [tid callback repeating delay remaining].
      rewrite C. destruct (fire_ollama pid cell c s) as (c' & j & ->). cbn [fst].
      split; [exact I|]. split; [exists c'; reflexivity|].
      split; [reflexivity|]. split; [exact D|]. rewrite D. lia.
    + apply Nat.leb_gt in E. apply Exists_cons_hd.
      unfold countdown. cbn [tid callback repeating delay remaining].
      split; [exact I|]. split; [exists c; exact C|].
      split; [exact R|]. split; [exact D|]. lia.
  - destruct (Nat.leb (remaining t) 1); cbn [fst].
    + apply Exists_app. right. apply IH, Hts.
    + apply Exists_cons_tl, IH, Hts.
Qed.





Lemma elapse_keeps_leaking (pid cell id ms : nat) (s : Sys) :
  leaking pid cell id 500 (timers s) -> leaking pid cell id 500 (timers (elapse ms s)).
Proof.
  revert s. induction ms as [|ms IH]; intros s H; [exact H|].
  rewrite elapse_S. apply IH. rewrite timers_tick. apply run_timers_keeps_leaking, H.
Qed.




Lemma run_timers_dots_only (pid cell : nat) (ts : list Timer) (s : Sys) :
  dots_only pid cell ts -> dots_only pid cell (fst (run_timers ts s)).
Proof.
  unfold dots_only. revert s. induction ts as [|t ts IH]; intros s H; [constructor|].
  inversion H as [|? ? Ht Hts]; subst.
  rewrite run_timers_cons. destruct (Nat.leb (remaining t) 1); cbn [fst].
  - apply Forall_app. split; [|apply IH, Hts].
    destruct (repeating t); constructor; [|constructor].
    cbn [callback]. rewrite fire_cb_pid. intros E. destruct (Ht E) as [k ->].
    destruct (fire_ollama pid cell k s) as (c' & j & ->). exists c'. reflexivity.
  - constructor; [exact Ht|apply IH, Hts].
Qed.

Lemma elapse_dots_only (pid cell ms : nat) (s : Sys) :
  dots_only pid cell (timers s) -> dots_only pid cell (timers (elapse ms s)).
Proof.
  revert s. induction ms as [|ms IH]; intros s H; [exact H|].
  rewrite elapse_S. apply IH. rewrite timers_tick. apply run_timers_dots_only, H.
Qed.

Lemma env_event_leak (pid cell id : nat) (e : EnvEvent) (s : Sys) :
  leak pid cell id (timers s) -> leak pid cell id (timers (env_event e s)).
Proof.
  intros [L H]. destruct e; cbn [env_event]; try (split; assumption).
  - split; [apply elapse_dots_only, L|apply elapse_keeps_leaking, H].
  - destruct (activeEditor s); split; assumption.
Qed.

Lemma env_events_leak (pid cell id : nat) (es : list EnvEvent) (s : Sys) :
  leak pid cell id (timers s) -> leak pid cell id (timers (env_events es s)).
Proof.
  revert s. induction es as [|e es IH]; intros s H; [exact H|].
  cbn [env_events fold_left]. fold (env_events es (env_event e s)).
  apply IH, env_event_leak, H.
Qed.

Lemma leak_cleared (pid cell id id' : nat) (ts : list Timer) :
  id <> id' -> leak pid cell id' ts -> leak pid cell id' (cleared id ts).
Proof.
  intros N [L H]. unfold cleared. split.
  - apply Forall_forall. intros t Hin. apply filter_In in Hin.
    unfold dots_only in L. rewrite Forall_forall in L. apply L, Hin.
  - unfold leaking in *. rewrite Exists_exists in *.
    destruct H as (t & Hin & I & X). exists t. split; [|split; assumption].
    apply filter_In. split; [exact Hin|].
    rewrite I. apply negb_true_iff, Nat.eqb_neq. congruence.
Qed.

(** Line 159: the interval of the post-processing stage is registered
    once the interval of the transcription stage has been cleared. *)
Lemma leak_registered (pid cell id id' : nat) (ts : list Timer) :
  Forall (fun t => owned_by pid id (signature t)) ts ->
  leak pid cell id'
    (cleared id ts ++
     [{| tid := id'; delay := 500; remaining := 500; repeating := true;
         callback := OllamaDots pid cell 0 |}]).
Proof.
  intros F. split.
  - apply Forall_app. split.
    + apply Forall_forall. intros t Hin X.
      apply filter_In in Hin. destruct Hin as [Hin Hne].
      rewrite Forall_forall in F. apply F in Hin. unfold owned_by in Hin. cbn in Hin.
      rewrite (Hin X), Nat.eqb_refl in Hne. discriminate.
    + constructor; [|constructor]. intros _. exists 0. reflexivity.
  - apply Exists_app. right. apply Exists_cons_hd.
    cbn [tid callback repeating delay remaining].
    split; [reflexivity|]. split; [exists 0; reflexivity|].
    split; [reflexivity|]. split; [reflexivity|]. lia.
Qed.

(** Lines 182-183: what the [finally] block makes of the table. *)
Lemma leak_at_last (pid cell id id' x : nat) (ts : list Timer) :
  id <> id' -> leak pid cell id' ts ->
  leaked_only pid cell (cleared id ts ++ [removal x pid]) /\
  leaking pid cell id' 500 (cleared id ts ++ [removal x pid]) /\
  removals_after pid 2999 (cleared id ts ++ [removal x pid]).
Proof.
  intros N H. destruct (leak_cleared pid cell id id' ts N H) as [L K].
  split; [|split].
  - apply Forall_app. split.
    + revert L. apply Forall_impl. intros t X E. right. exact (X E).
    + constructor; [|constructor]. intros _. left. reflexivity.
  - apply Exists_app. left. exact K.
  - apply Forall_app. split.
    + revert L. apply Forall_impl. intros t X E.
      destruct X as [k X]; [rewrite E; reflexivity|]. congruence.
    + constructor; [|constructor]. intros _. cbn. lia.
Qed.



(** Whatever the indicator shows, running a closure leaves it or puts a
    label of the post-processing stage in its place. *)
Lemma fire_text_or_overwritten (pid cell : nat) (x : string) (cb : Callback) (s : Sys) :
  (cb_pid cb = pid ->
   cb = RemoveProgress pid \/ exists k, cb = OllamaDots pid cell k) ->
  textContent s !! pid = Some x \/ overwritten pid cell s ->
  textContent (snd (fire cb s)) !! pid = Some x \/ overwritten pid cell (snd (fire cb s)).
Proof.
  intros L [H|H]; [|right; apply fire_overwritten; [exact L|right; exact H]].
  destruct (Nat.eq_dec (cb_pid cb) pid) as [E|E].
  - destruct (L E) as [->|X].
    + left. rewrite fire_text_remove. exact H.
    + right. apply fire_overwritten; [exact L|left; exact X].
  - left. rewrite fire_text_other by exact E. exact H.
Qed.

Lemma run_timers_text_or_overwritten
    (pid cell : nat) (x : string) (ts : list Timer) (s : Sys) :
  leaked_only pid cell ts ->
  textContent s !! pid = Some x \/ overwritten pid cell s ->
  textContent (snd (run_timers ts s)) !! pid = Some x \/
  overwritten pid cell (snd (run_timers ts s)).
Proof.
  unfold leaked_only. revert s. induction ts as [|t ts IH]; intros s L H; [exact H|].
  inversion L as [|? ? Lt Lts]; subst.
  rewrite run_timers_cons. destruct (Nat.leb (remaining t) 1); cbn [snd].
  - apply IH; [exact Lts|]. apply fire_text_or_overwritten; assumption.
  - apply IH; assumption.
Qed.

Lemma elapse_text_or_overwritten (pid cell : nat) (x : string) (ms : nat) (s : Sys) :
  leaked_only pid cell (timers s) ->
  textContent s !! pid = Some x \/ overwritten pid cell s ->
  textContent (elapse ms s) !! pid = Some x \/ overwritten pid cell (elapse ms s).
Proof.
  revert s. induction ms as [|ms IH]; intros s L H; [exact H|].
  rewrite elapse_S. apply IH.
  - rewrite timers_tick. apply run_timers_leaked_only, L.
  - destruct (run_timers_text_or_overwritten pid cell x (timers s) s L H) as [X|X].
    + left. rewrite textContent_tick. exact X.
    + right. apply (overwritten_same pid cell (snd (run_timers (timers s) s))).
      * unfold tick. destruct (run_timers (timers s) s). reflexivity.
      * rewrite textContent_tick. reflexivity.
      * exact X.
Qed.

Lemma fresh_removals_leaked_only (pid cell : nat) (ts : list Timer) :
  fresh_removals pid ts -> leaked_only pid cell ts.
Proof.
  apply Forall_impl. intros t H X. destruct (H X) as (C & _). left. exact C.
Qed.

(** With post-processing on when the transcript arrives, the interval of
    line 159 is in the timer table when [completion] ends, however it
    ends. *)
Lemma completion_leaks
    (a : HTMLAudioElement) (pid id : nat) (t : JsVal) (o : Oracle) (s4 : Sys) :
  settingOllamaToggle (settings s4) = true ->
  id <> next_tid s4 ->
  Forall (fun t => owned_by pid id (signature t)) (timers s4) ->
  leak pid (next_var s4) (next_tid s4)
    (timers (final (exec (completion a pid id t) o 5 s4))).
Proof.
  intros G N F. focus_run. unfold completion. run. rewrite G. run.
  match goal with
  | |- context [env_events (meanwhile o 5) ?x] =>
      assert (A5 : leak pid (next_var s4) (next_tid s4)
                     (timers (env_events (meanwhile o 5) x)))
        by (apply env_events_leak; run; apply leak_registered, F);
      revert A5; generalize (env_events (meanwhile o 5) x); intros s5 A5
  end.
  branch; run.
  2: branch; run.
  2: match goal with
     | |- context [env_events (meanwhile o 6) ?x] =>
         assert (A6 : leak pid (next_var s4) (next_tid s4)
                        (timers (env_events (meanwhile o 6) x)))
           by (apply env_events_leak; exact A5);
         revert A6; generalize (env_events (meanwhile o 6) x); intros s6 A6
     end; branch; run.
  4: branch; run.
  all: repeat (branch; run).
  all: conclude.
  all: apply leak_cleared; [exact N|assumption].
Qed.

(** The timer table when the promise of such a job settles. *)
Lemma job_leaks (a : HTMLAudioElement) (o : Oracle) (s : Sys) (t : JsVal) :
  transcript o = Some t ->
  settingOllamaToggle (settings (transcribed a o s)) = true ->
  untargeted (next_pid s) (timers s) ->
  let ts := timers (final (exec (transcribeAudio a) o 0 s)) in
  let cell := next_var (transcribed a o s) in
  leaked_only (next_pid s) cell ts /\
  leaking (next_pid s) cell (S (next_tid s)) 500 ts /\
  removals_after (next_pid s) 2999 ts.
Proof.
  intros T G U. cbv zeta.
  destruct (exec_transcribed a o s t T) as (-> & _).
  unfold after_transcription.
  destruct (protected_run (completion a (next_pid s) (next_tid s) t)
              (next_pid s) (next_tid s) o 5 (transcribed a o s)) as [-> _].
  assert (N : next_tid s <> next_tid (transcribed a o s))
    by (rewrite transcribed_next_tid; lia).
  revert N. rewrite <- (transcribed_next_tid a o s). intros N.
  apply leak_at_last; [exact N|].
  apply completion_leaks; [exact G|exact N|apply transcribed_owned, U].
Qed.


(** ** Post-processing fails *)



(** Whether post-processing has been started or not, the timers that
    refer to the indicator when the promise of a job with a transcript
    settles are removals and the interval of line 159. *)
Lemma job_timers (a : HTMLAudioElement) (o : Oracle) (s : Sys) (t : JsVal) :
  transcript o = Some t ->
  untargeted (next_pid s) (timers s) ->
  leaked_only (next_pid s) (next_var (transcribed a o s))
    (timers (final (exec (transcribeAudio a) o 0 s))).
Proof.
  intros T U.
  destruct (settingOllamaToggle (settings (transcribed a o s))) eqn:G.
  - apply (job_leaks a o s t T G U).
  - apply fresh_removals_leaked_only.
    apply (removals_without_postprocessing a o s U). right. exact G.
Qed.

(** ** No editor, or no control *)

(** C6: when the job completes and no markdown view is active, or no
    control is found below the parent of the audio element (the parent it
    has, in the document or out of it), a notice is shown, no call is made
    on any editor, the promise is fulfilled and line 175 sets the
    completion text.  From then on the indicator never shows a failure
    text: it shows the completion text or, once post-processing has been
    started, a label of the post-processing stage. *)
Theorem missing_target_skips_insertion
    (a : HTMLAudioElement) (o : Oracle) (s : Sys) (t : JsVal) :
  transcript o = Some t ->
  let r := exec (transcribeAudio a) o 0 s in
  let c := completion_time s r in
  activeEditor c = None \/
  anchor a c = None ->
  outcome r = inr tt /\
  textContent (final r) !! next_pid s = Some "Transcription Complete"%string /\
  activeEditor (final r) = activeEditor c /\
  (exists earlier message, log (final r) = log c ++ earlier ++ [Notice message]) /\
  (untargeted (next_pid s) (timers s) ->
   forall ms, exists text,
     textContent (elapse ms (final r)) !! next_pid s = Some text /\
     text <> "Failed: Server Unavailable"%string /\
     text <> "Failed: Transcription Error"%string).
Proof.
  intros T. cbv zeta. intros H.
  destruct (missing_target_run a o s t T H) as (O & X & E & N).
  split; [exact O|]. split; [exact X|]. split; [exact E|]. split; [exact N|].
  intros U ms.
  destruct (elapse_text_or_overwritten (next_pid s) (next_var (transcribed a o s))
              "Transcription Complete" ms _ (job_timers a o s t T U) (or_introl X))
    as [Y|[k Y]].
  - eexists. split; [exact Y|]. split; discriminate.
  - eexists. split; [exact Y|].
    pose proof (postprocessing_label_not_terminal k
                  (Js.toString (readVar (next_var (transcribed a o s))
                     (elapse ms (final (exec (transcribeAudio a) o 0 s)))))) as Z.
    split; intros W; apply Z; rewrite W; cbn; tauto.
Qed.

Lemma missing_target_skips_insertion_witness :
  let s := Example.sys0 Example.DEFAULT_SETTINGS in
  let r := exec (transcribeAudio Example.memo) Example.note_closed 0 s in
  let r' := exec (transcribeAudio Example.memo) Example.control_lost 0 s in
  outcome r = inr tt /\
  textContent (final r) !! next_pid s = Some "Transcription Complete"%string /\
  activeEditor (final r) = None /\
  log (final r) = [Notification "Transcription Request" "Transcribing: memo.mp3";
                   Notice "No active editor found!"] /\
  textContent (elapse 2999 (final r)) !! next_pid s =
    Some "Transcription Complete"%string /\
  outcome r' = inr tt /\
  activeEditor (final r') = Some Example.editor0 /\
  log (final r') = [Notification "Transcription Request" "Transcribing: memo.mp3";
                    Notice "Transcribe button not found!"].
Proof.
  assert (W1 : transcript Example.note_closed = Some (JStr " hello world "))
    by reflexivity.
  assert (W2 : transcript Example.control_lost = Some (JStr " hello world "))
    by reflexivity.
  pose proof (missing_target_skips_insertion Example.memo Example.note_closed
                (Example.sys0 Example.DEFAULT_SETTINGS) (JStr " hello world ") W1) as H.
  pose proof (missing_target_skips_insertion Example.memo Example.control_lost
                (Example.sys0 Example.DEFAULT_SETTINGS) (JStr " hello world ") W2) as H'.
  cbv zeta in H, H'.
  destruct H as (O & T & E & _ & _); [left; vm_compute; reflexivity|].
  destruct H' as (O' & _ & E' & _ & _); [right; vm_compute; reflexivity|].
  cbv zeta. split; [exact O|]. split; [exact T|].
  split; [rewrite E; vm_compute; reflexivity|].
  split; [vm_compute; reflexivity|]. split; [vm_compute; reflexivity|].
  split; [exact O'|].
  split; [rewrite E'; vm_compute; reflexivity|].
  vm_compute. reflexivity.
Defined.

(** ** A container out of the document *)

(** The audio element keeps its parent when the host takes its container
    out of the document (line 242 reads [audioElement.parentElement]): the
    control is still found there and the text is inserted, although the
    document no longer holds the audio element. *)
Lemma detached_container_still_gets_the_text :
  let s := Example.sys0 Example.DEFAULT_SETTINGS in
  let r := exec (transcribeAudio Example.memo) Example.container_detached 0 s in
  let c := completion_time s r in
  Dom.parentElement Example.memo (body c) = None /\
  anchor Example.memo c = Some [1] /\
  activeEditor (final r) =
    Some {| cursor := {| line := 5; ch := 11 |};
            calls := [ReplaceRange "hello world" {| line := 5; ch := 0 |};
                      SetCursor {| line := 5; ch := 11 |}] |} /\
  log (final r) = [Notification "Transcription Request" "Transcribing: memo.mp3"] /\
  detached (elapse 3000 (final r)) =
    [Elem [Audio Example.memo; TranscribeButton Example.memo]].
Proof. vm_compute. repeat split. Qed.

(** ** Failures inside a job *)


